(** * BinaryBrain: layer composition and sparse connectivity

    A shallow embedding of the layer-composition headers of BinaryBrain
    ([include/bb/SparseLayer.h], [Sequential.h], [ReLU.h], [StochasticLut.h],
    [SparseLutN.h], [BinaryModulation.h]) together with the properties their
    specification states about them.

    Conventions.
    - [index_t] (a signed 64-bit integer) is [Z]; the tables and buffers
      handled here are materialised in memory, so every index stays far
      below 2^63 and no wrap-around can be observed.
    - [indices_t] (a [std::vector<index_t>]) is [list Z].
    - Code that can stop early returns an [outcome]: [Done] for a normal
      return, [Fatal] when a [BB_ASSERT] fires, [Undefined] for an element
      access outside a vector, [OutOfFuel] when an unbounded loop of the
      source was cut off by the model's iteration budget.
    - Classes of the repository whose headers are not among the sources
      (the random sources, [ShuffleSet], the children of the composites)
      are interfaces; small executable instances of them are provided to
      run the code on concrete inputs.

    The definitions come first, module by module; the properties follow,
    in modules named after the ones they are about. *)

From Stdlib Require Import ZArith Lia List String Ascii Bool.
From stdpp Require Import base tactics option list list_numbers functions gmap strings.

Local Open Scope Z_scope.

(** ** Outcomes of calls that may stop early *)

Inductive outcome (A : Type) : Type :=
| Done (a : A)
| Fatal
| Undefined
| OutOfFuel.
Arguments Done {A} a.
Arguments Fatal {A}.
Arguments Undefined {A}.
Arguments OutOfFuel {A}.

#[global] Instance outcome_ret : MRet outcome := fun A a => Done a.
#[global] Instance outcome_bind : MBind outcome := fun A B f m =>
  match m with
  | Done a => f a
  | Fatal => Fatal
  | Undefined => Undefined
  | OutOfFuel => OutOfFuel
  end.
#[global] Instance outcome_fmap : FMap outcome := fun A B f m =>
  match m with
  | Done a => Done (f a)
  | Fatal => Fatal
  | Undefined => Undefined
  | OutOfFuel => OutOfFuel
  end.

(** [BB_ASSERT(v)]: the macro itself lives in a header that is not part of
    the sources; it is taken as what its name and its uses say, a check that
    stops the program when [v] is false. *)
Definition BB_ASSERT (v : bool) : outcome unit :=
  if v then Done tt else Fatal.

(** [v[i]] on a [std::vector]. *)
Definition vec_at {A} (v : list A) (i : Z) : outcome A :=
  if i <? 0 then Undefined
  else match v !! Z.to_nat i with
       | Some x => Done x
       | None => Undefined
       end.

(** [for (auto i : l) body], threading the state [s]. *)
Fixpoint for_each {S : Type} (l : list Z) (body : Z → S → outcome S) (s : S)
  : outcome S :=
  match l with
  | [] => Done s
  | i :: l' => s' ← body i s; for_each l' body s'
  end.

(** [for (index_t i = lo; i < hi; ++i) body]. *)
Definition for_range {S : Type} (lo hi : Z) (body : Z → S → outcome S) (s : S)
  : outcome S :=
  for_each (seqZ lo (hi - lo)) body s.

(** A call that has not been stopped by an assertion or an access outside a
    vector: it has returned, or it is still running when the iteration
    budget of the model is used up. *)
Definition keeps_running {A : Type} (o : outcome A) : Prop :=
  match o with
  | Done _ | OutOfFuel => True
  | Fatal | Undefined => False
  end.

(** ** Shape helpers ([bb/DataType.h], [bb/Utility.h]) *)

Module Util.

(** Modelled from the spec: [GetShapeSize] is declared in a header that is
    not part of the sources. The spec's "flattened node count" of a shape:
    the product of its extents. *)
Definition GetShapeSize (shape : list Z) : Z :=
  fold_right Z.mul 1 shape.

(** Modelled from the spec: [GetShapeIndex] is declared in a header that is
    not part of the sources. The flattened index of a coordinate vector, the
    first axis varying fastest; this is the layout the depthwise generator
    relies on when it decodes a flattened spatial position [r] as
    [ix = r % input_shape[0]], [iy = r / input_shape[0]]. *)
Fixpoint GetShapeIndex (indices shape : list Z) : Z :=
  match indices, shape with
  | i :: indices', s :: shape' => i + s * GetShapeIndex indices' shape'
  | _, _ => 0
  end.

(** Modelled from the spec: [GetNextIndices] is declared in a header that is
    not part of the sources. It advances a coordinate vector to the next
    node of the shape (first axis fastest) and reports whether there was a
    next one; after the last node the vector is back at the origin. *)
Fixpoint GetNextIndices (indices shape : list Z) : bool * list Z :=
  match indices, shape with
  | i :: indices', s :: shape' =>
      if i + 1 <? s then (true, (i + 1) :: indices')
      else let '(more, next) := GetNextIndices indices' shape' in
           (more, 0 :: next)
  | _, _ => (false, indices)
  end.

(** Modelled from the spec: [SplitString] is declared in a header that is
    not part of the sources. The connection string names its strategy in its
    first whitespace-separated token. *)
Definition is_space (c : ascii) : bool :=
  let n := nat_of_ascii c in
  (n =? 32)%nat || ((9 <=? n)%nat && (n <=? 13)%nat).

Fixpoint split_tokens (cur : string) (s : string) : list string :=
  match s with
  | EmptyString => if String.eqb cur EmptyString then [] else [cur]
  | String c s' =>
      if is_space c
      then (if String.eqb cur EmptyString then split_tokens EmptyString s'
            else cur :: split_tokens EmptyString s')
      else split_tokens (cur +:+ String c EmptyString) s'
  end.

Definition SplitString (text : string) : list string :=
  split_tokens EmptyString text.

End Util.
Import Util.

(** ** [SparseLayer]: layers with a bounded number of inputs per node *)

Module SparseLayer.

(** The facilities [InitializeNodeInput] draws its randomness from.
    [std::mt19937_64] and [std::normal_distribution<double>] belong to the
    C++ standard library, and the arithmetic of the gauss strategy is done
    in [double]; none of these is given a bit-level model. They are operations
    of an interface, so that every statement below holds whatever values these
    operations return. *)
Class Numerics := {
  mt19937_64 : Type;
  mt_seed : Z → mt19937_64;                       (* std::mt19937_64 mt(seed) *)
  mt_next : mt19937_64 → Z * mt19937_64;          (* mt() *)
  double : Type;
  double_of_index : Z → double;                   (* (double)i *)
  double_add : double → double → double;
  double_mul : double → double → double;
  double_div : double → double → double;
  normal_state : Type;          (* the engine together with norm_dist(0.0, 1.0) *)
  normal_init : mt19937_64 → normal_state;
  norm_dist : normal_state → double * normal_state;   (* norm_dist(mt) *)
  (* bb::RegurerlizeIndices(position, shape) *)
  RegurerlizeIndices : list double → list Z → list Z;
}.

(** [bb::ShuffleSet<index_t>] ([bb/ShuffleSet.h], not part of the sources):
    built from a population size and a seed, it hands out sets of indices. *)
Class ShuffleSetOps := {
  ShuffleSet : Type;
  ShuffleSet_new : Z → Z → ShuffleSet;                    (* ShuffleSet ss(size, seed) *)
  GetRandomSet : ShuffleSet → Z → list Z * ShuffleSet;    (* ss.GetRandomSet(n) *)
}.

(** What a concrete sparse layer provides: its shapes and the fan-in of each
    output node ([GetNodeInputSize] is pure virtual in [SparseLayer]). *)
Record layer := {
  GetInputShape : list Z;
  GetOutputShape : list Z;
  GetNodeInputSize : Z → Z;
}.

(** The connection table behind the pure virtual [SetNodeInput] and
    [GetNodeInput]: the slot [(node, input_index)] holds an input node. A slot
    that was never assigned is absent. *)
Abbreviation table := (gmap (Z * Z) Z).

Definition SetNodeInput (node input_index input_node : Z) (t : table) : table :=
  <[(node, input_index) := input_node]> t.

Definition GetNodeInput (t : table) (node input_index : Z) : option Z :=
  t !! (node, input_index).

Section InitializeNodeInput.
Context `{Numerics} `{ShuffleSetOps}.
Variable L : layer.

Let input_shape := GetInputShape L.
Let output_shape := GetOutputShape L.
Let input_node_size := GetShapeSize input_shape.
Let output_node_size := GetShapeSize output_shape.

(** [SetNodeInput(indices_t node, index_t input_index, indices_t input_node)] *)
Definition SetNodeInput_indices (node : list Z) (input_index : Z)
    (input_node : list Z) (t : table) : table :=
  SetNodeInput (GetShapeIndex node output_shape) input_index
               (GetShapeIndex input_node input_shape) t.

(** "pointwise" (lines 61-82). *)
Definition connect_pointwise (seed : Z) (t : table) : outcome table :=
  BB_ASSERT (length input_shape =? 3)%nat;;
  BB_ASSERT (length output_shape =? 3)%nat;;
  in0 ← vec_at input_shape 0; out0 ← vec_at output_shape 0;
  BB_ASSERT (in0 =? out0);;
  in1 ← vec_at input_shape 1; out1 ← vec_at output_shape 1;
  BB_ASSERT (in1 =? out1);;
  in2 ← vec_at input_shape 2; out2 ← vec_at output_shape 2;
  '(_, t) ←
    for_range 0 out1 (λ y st,
      for_range 0 out0 (λ x '(mt, t),
        let '(r, mt) := mt_next mt in
        let ss := ShuffleSet_new in2 r in
        '(_, t) ←
          for_range 0 out2 (λ c '(ss, t),
            let input_size := GetNodeInputSize L (GetShapeIndex [x; y; c] output_shape) in
            let '(random_set, ss) := GetRandomSet ss input_size in
            t ← for_range 0 input_size (λ i t,
                  ri ← vec_at random_set i;
                  Done (SetNodeInput_indices [x; y; c] i [x; y; ri] t)) t;
            Done (ss, t)) (ss, t);
        Done (mt, t)) st) (mt_seed seed, t);
  Done t.

(** "depthwise" (lines 84-112). *)
Definition connect_depthwise (seed : Z) (t : table) : outcome table :=
  BB_ASSERT (length input_shape =? 3)%nat;;
  BB_ASSERT (length output_shape =? 3)%nat;;
  in2 ← vec_at input_shape 2; out2 ← vec_at output_shape 2;
  BB_ASSERT (in2 =? out2);;
  in0 ← vec_at input_shape 0; in1 ← vec_at input_shape 1;
  out0 ← vec_at output_shape 0; out1 ← vec_at output_shape 1;
  '(_, t) ←
    for_range 0 out2 (λ c '(mt, t),
      let '(r, mt) := mt_next mt in
      let ss := ShuffleSet_new (in0 * in1) r in
      '(_, t) ←
        for_range 0 out1 (λ y st,
          for_range 0 out0 (λ x '(ss, t),
            let input_size := GetNodeInputSize L (GetShapeIndex [x; y; c] output_shape) in
            let '(random_set, ss) := GetRandomSet ss input_size in
            t ← for_range 0 input_size (λ i t,
                  ri ← vec_at random_set i;
                  let iy := Z.quot ri in0 in
                  let ix := Z.rem ri in0 in
                  let output_node := GetShapeIndex [x; y; c] output_shape in
                  let input_node := GetShapeIndex [ix; iy; c] input_shape in
                  BB_ASSERT ((0 <=? output_node) && (output_node <? output_node_size));;
                  BB_ASSERT ((0 <=? input_node) && (input_node <? input_node_size));;
                  Done (SetNodeInput output_node i input_node t)) t;
            Done (ss, t)) st) (ss, t);
      Done (mt, t)) (mt_seed seed, t);
  Done t.

(** "gauss" (lines 114-154). *)

(** [step[i]] and [sigma[i]] for [i < n], [n] the rank of the input shape. *)
Fixpoint gauss_step_sigma (ins outs : list Z) : outcome (list (double * double)) :=
  match ins with
  | [] => Done []
  | a :: ins' =>
      match outs with
      | [] => Undefined
      | b :: outs' =>
          rest ← gauss_step_sigma ins' outs';
          Done ((double_div (double_of_index (a - 1)) (double_of_index (b - 1)),
                 double_div (double_of_index a) (double_of_index b)) :: rest)
      end
  end.

(** [input_position[j] = input_offset[j] + norm_dist(mt) * sigma[j]], [j < n]. *)
Fixpoint gauss_position (input_offset sigma : list double) (ns : normal_state)
  : list double * normal_state :=
  match input_offset, sigma with
  | o :: os, sg :: sgs =>
      let '(z, ns) := norm_dist ns in
      let '(rest, ns) := gauss_position os sgs ns in
      (double_add o (double_mul z sg) :: rest, ns)
  | _, _ => ([], ns)
  end.

(** The [for ( ; ; )] that redraws until the input node is a new one. *)
Fixpoint gauss_pick (fuel : nat) (s : gset Z) (input_offset sigma : list double)
    (ns : normal_state) : outcome (Z * normal_state) :=
  match fuel with
  | O => OutOfFuel
  | S fuel' =>
      let '(input_position, ns) := gauss_position input_offset sigma ns in
      let input_index := RegurerlizeIndices input_position input_shape in
      let input_node := GetShapeIndex input_index input_shape in
      if decide (input_node ∈ s) then gauss_pick fuel' s input_offset sigma ns
      else Done (input_node, ns)
  end.

(** The body of the [do ... while]: the inputs of one output node. *)
Definition gauss_node (fuel : nat) (step sigma : list double)
    (output_index : list Z) (st : normal_state * table)
  : outcome (normal_state * table) :=
  let input_offset :=
    zip_with (λ oi stp, double_mul (double_of_index oi) stp) output_index step in
  let output_node := GetShapeIndex output_index output_shape in
  let m := GetNodeInputSize L output_node in
  '(ns, _, t) ←
    for_range 0 m (λ i '(ns, s, t),
      '(input_node, ns) ← gauss_pick fuel s input_offset sigma ns;
      Done (ns, {[input_node]} ∪ s, SetNodeInput output_node i input_node t))
      (st.1, ∅, st.2);
  Done (ns, t).

Fixpoint gauss_nodes (fuel : nat) (step sigma : list double)
    (output_index : list Z) (st : normal_state * table)
  : outcome (normal_state * table) :=
  match fuel with
  | O => OutOfFuel
  | S fuel' =>
      st ← gauss_node fuel' step sigma output_index st;
      let '(more, output_index) := GetNextIndices output_index output_shape in
      if more then gauss_nodes fuel' step sigma output_index st else Done st
  end.

Definition connect_gauss (fuel : nat) (seed : Z) (t : table) : outcome table :=
  let n := length input_shape in
  ss ← gauss_step_sigma input_shape output_shape;
  let mt := mt_seed seed in
  let output_index := replicate n 0 in
  '(_, t) ← gauss_nodes fuel ss.*1 ss.*2 output_index (normal_init mt, t);
  Done t.

(** "serial" (lines 183-194). *)
Definition connect_serial (t : table) : outcome table :=
  '(_, t) ←
    for_range 0 output_node_size (λ output_node st,
      let m := GetNodeInputSize L output_node in
      for_range 0 m (λ i '(input_node, t),
        Done (input_node + 1,
              SetNodeInput output_node i (Z.rem input_node input_node_size) t)) st)
      (0, t);
  Done t.

(** "random" (lines 196-208). *)
Definition connect_random (seed : Z) (t : table) : outcome table :=
  '(_, t) ←
    for_range 0 output_node_size (λ node '(ss, t),
      let input_size := GetNodeInputSize L node in
      let '(random_set, ss) := GetRandomSet ss input_size in
      t ← for_range 0 input_size (λ i t,
            ri ← vec_at random_set i;
            Done (SetNodeInput node i ri t)) t;
      Done (ss, t)) (ShuffleSet_new input_node_size seed, t);
  Done t.

(** [argv.size() > 0 && argv[0] == name] *)
Definition argv0_is (argv : list string) (name : string) : bool :=
  match argv with
  | a :: _ => String.eqb a name
  | [] => false
  end.

(** [InitializeNodeInput(seed, connection)] (lines 51-212), run on the
    connection table [t] of the layer. *)
Definition InitializeNodeInput (fuel : nat) (seed : Z) (connection : string)
    (t : table) : outcome table :=
  let argv := SplitString connection in
  if argv0_is argv "pointwise" then connect_pointwise seed t
  else if argv0_is argv "depthwise" then connect_depthwise seed t
  else if argv0_is argv "gauss" then connect_gauss fuel seed t
  else if argv0_is argv "serial" then connect_serial t
  else if (length argv =? 0)%nat || argv0_is argv "random" then connect_random seed t
  else BB_ASSERT false;; Done t.

(** The inputs of one output node, read back slot by slot:
    [GetNodeInput(node, i)] for [i < GetNodeInputSize(node)]. *)
Definition NodeInputs (t : table) (node : Z) : option (list Z) :=
  mapM (λ i, GetNodeInput t node i) (seqZ 0 (GetNodeInputSize L node)).

End InitializeNodeInput.

(** ** Valid connection rows *)

Section Validity.
Variable L : layer.

Definition input_count : Z := GetShapeSize (GetInputShape L).
Definition output_count : Z := GetShapeSize (GetOutputShape L).

(** The row of [node] as the specification wants it: one entry per input
    slot, every entry an input node, no entry twice. *)
Definition valid_row (t : table) (node : Z) : Prop :=
  ∃ row, NodeInputs L t node = Some row
         ∧ length row = Z.to_nat (GetNodeInputSize L node)
         ∧ Forall (λ v, 0 ≤ v < input_count) row
         ∧ NoDup row.

(** The same, slot by slot. *)
Definition row_ok (t : table) (node : Z) : Prop :=
  (∀ i, 0 ≤ i < GetNodeInputSize L node →
        ∃ v, t !! (node, i) = Some v ∧ 0 ≤ v < input_count)
  ∧ (∀ i j v, 0 ≤ i < GetNodeInputSize L node → 0 ≤ j < GetNodeInputSize L node →
        t !! (node, i) = Some v → t !! (node, j) = Some v → i = j).

(** Nothing was written to the rows of the nodes other than [node]. *)
Definition other_rows_kept (node : Z) (t t' : table) : Prop :=
  ∀ k : Z * Z, k.1 ≠ node → t' !! k = t !! k.

(** Every slot of the row of [node] has been assigned. *)
Definition row_filled (t : table) (node : Z) : Prop :=
  ∀ i, 0 ≤ i < GetNodeInputSize L node → is_Some (t !! (node, i)).

End Validity.

(** A property [R] of rows that holds in [t] still holds in [t']. *)
Definition rows_kept (R : table → Z → Prop) (t t' : table) : Prop :=
  ∀ node, R t node → R t' node.

(** [R t node] only reads the row of [node]. *)
Definition row_local (R : table → Z → Prop) : Prop :=
  ∀ node node' t t',
    other_rows_kept node t t' → node' ≠ node → R t node' → R t' node'.

(** ** Specification of the strategies *)

(** Number of slots filled before the row of [node] is started. *)
Definition serial_offset (L : layer) (node : Z) : Z :=
  foldr Z.add 0 ((λ j, Z.max 0 (GetNodeInputSize L j)) <$> seqZ 0 node).

(** The states a [ShuffleSet] of population [size] can be in when every
    request asks for at most [size] indices. *)
Inductive ss_reachable `{ShuffleSetOps} (size : Z) : ShuffleSet → Prop :=
| ss_reach_new (seed : Z) : ss_reachable size (ShuffleSet_new size seed)
| ss_reach_get (ss : ShuffleSet) (n : Z) :
    ss_reachable size ss → 0 ≤ n ≤ size →
    ss_reachable size (GetRandomSet ss n).2.

(** Modelled from the spec: [bb/ShuffleSet.h] is not part of the sources.
    The spec has every strategy built on it "take the first N distinct"
    indices of a shuffle of the population: a request for [n] indices out of
    a population of [size ≥ n] returns [n] distinct members of [0, size). *)
Class ShuffleSetLaws `{ShuffleSetOps} : Prop :=
  random_set_distinct : ∀ (size : Z) (ss : ShuffleSet) (n : Z),
    ss_reachable size ss → 0 ≤ n ≤ size →
    length (GetRandomSet ss n).1 = Z.to_nat n
    ∧ NoDup (GetRandomSet ss n).1
    ∧ Forall (λ v, 0 ≤ v < size) (GetRandomSet ss n).1.

(** Coordinates that lie inside a shape. *)
Definition valid_indices (indices shape : list Z) : Prop :=
  Forall2 (λ i d, 0 ≤ i < d) indices shape.

(** Modelled from the spec: [RegurerlizeIndices] is declared in a header
    that is not part of the sources. The spec has the gauss strategy
    "snapping to nearest valid index": a position with one coordinate per
    axis is mapped to coordinates that lie inside the shape. *)
Class RegurerlizeLaws `{Numerics} : Prop :=
  regurerlize_valid : ∀ (position : list double) (shape : list Z),
    length position = length shape → Forall (Z.lt 0) shape →
    valid_indices (RegurerlizeIndices position shape) shape.

(** The number of candidates a strategy draws the inputs of one node from:
    the input channels for pointwise, the input positions of one channel for
    depthwise, all input nodes otherwise. *)
Definition draw_pool (L : layer) (connection : string) : Z :=
  let argv := SplitString connection in
  if argv0_is argv "pointwise" then nth 2 (GetInputShape L) 0
  else if argv0_is argv "depthwise"
       then nth 0 (GetInputShape L) 0 * nth 1 (GetInputShape L) 0
       else input_count L.

(** All rows of the table, in node order. *)
Definition connections (L : layer) (t : table) : list (option (list Z)) :=
  (λ node, NodeInputs L t node) <$> seqZ 0 (output_count L).

(** The names [InitializeNodeInput] recognises. *)
Definition known_strategies : list string :=
  ["pointwise"; "depthwise"; "gauss"; "serial"; "random"]%string.

(** The shape constraints as the specification words them: both shapes are
    (x, y, channel), with the same x and y for pointwise, with the same
    number of channels for depthwise. *)
Definition pointwise_compatible (L : layer) : Prop :=
  ∃ x y c c', GetInputShape L = [x; y; c] ∧ GetOutputShape L = [x; y; c'].

Definition depthwise_compatible (L : layer) : Prop :=
  ∃ x y x' y' c, GetInputShape L = [x; y; c] ∧ GetOutputShape L = [x'; y'; c].

(** ** Where the generator writes *)

(** The slots of the connection table of [L]: slot [i] of [node], for every
    output node and every [i] below the fan-in of the node. *)
Definition slot (L : layer) (k : Z * Z) : Prop :=
  0 ≤ k.1 < output_count L ∧ 0 ≤ k.2 < GetNodeInputSize L k.1.

(** [t'] holds what [t] holds everywhere but in the slots. *)
Definition slots_only (L : layer) (t t' : table) : Prop :=
  ∀ k, ¬ slot L k → t' !! k = t !! k.

(** Every entry of [t] is still assigned in [t']. *)
Definition keeps_entries (t t' : table) : Prop :=
  ∀ k, is_Some (t !! k) → is_Some (t' !! k).


(** *** Stand-in instances

    Small executable instances of the two interfaces, used to run the
    generator on concrete layers. [rotating_shuffle] hands out consecutive
    residues starting from the seed; [lcg_random] steps a 64-bit linear
    congruential generator, computes on integers in place of doubles, and
    clamps a position into the shape. *)

Definition rotating_get (ss : Z * Z) (n : Z) : list Z * (Z * Z) :=
  ((λ k, (ss.2 + k) `mod` ss.1) <$> seqZ 0 n, (ss.1, (ss.2 + n) `mod` ss.1)).

Definition rotating_shuffle : ShuffleSetOps := {|
  ShuffleSet := Z * Z;
  ShuffleSet_new := λ size seed, (size, seed `mod` size);
  GetRandomSet := rotating_get;
|}.

Definition lcg_next (s : Z) : Z :=
  (s * 6364136223846793005 + 1442695040888963407) `mod` 2 ^ 64.

Definition clamp_index (p d : Z) : Z := Z.max 0 (Z.min (d - 1) p).

Definition lcg_random : Numerics := {|
  mt19937_64 := Z;
  mt_seed := λ seed, seed `mod` 2 ^ 64;
  mt_next := λ s, (lcg_next s, lcg_next s);
  double := Z;
  double_of_index := λ i, i;
  double_add := Z.add;
  double_mul := Z.mul;
  double_div := Z.div;
  normal_state := Z;
  normal_init := λ s, s;
  norm_dist := λ s, ((lcg_next s / 2 ^ 40) `mod` 7 - 3, lcg_next s);
  RegurerlizeIndices := λ pos shape, zip_with clamp_index pos shape;
|}.

(** A layer with vector shapes and the same fan-in [n] at every node. *)
Definition flat_layer (inputs outputs n : Z) : layer := {|
  GetInputShape := [inputs];
  GetOutputShape := [outputs];
  GetNodeInputSize := λ _, n;
|}.

Definition run_demo (L : layer) (seed : Z) (connection : string)
  : outcome (list (option (list Z))) :=
  t ← @InitializeNodeInput lcg_random rotating_shuffle L 64 seed connection ∅;
  Done ((λ node, NodeInputs L t node) <$> seqZ 0 (GetShapeSize (GetOutputShape L))).

(** A 3-D layer ([x], [y], channel) with the same fan-in at every node. *)
Definition image_layer (input_shape output_shape : list Z) (n : Z) : layer := {|
  GetInputShape := input_shape;
  GetOutputShape := output_shape;
  GetNodeInputSize := λ _, n;
|}.

End SparseLayer.

(** ** The layer contract ([bb/Model.h], [bb/Layer.h]) *)

(** Modelled from the spec: the base classes [Model] and [Layer], the buffer
    class [FrameBuffer] and the aggregate [Variables] are declared in headers
    that are not part of the sources. A layer is an object with a forward
    and a backward pass that may update the object, two collections of
    tensors, a per-node evaluation and a pair of serialisers. The composites
    below reach their children only through these operations, so the type of
    the children is left open; the operations return the updated child next
    to their result. A child call that does not return ends the whole
    program: the equations below are about calls that return. *)
Class Buffers := {
  FrameBuffer : Type;
  FrameBuffer_empty : FrameBuffer;      (* FrameBuffer() *)
  Tensor : Type;
  real : Type;                          (* double *)
}.

Class Model `{Buffers} (M : Type) := {
  Forward : M → FrameBuffer → bool → M * FrameBuffer;
  Backward : M → FrameBuffer → M * FrameBuffer;
  GetParameters : M → list Tensor;
  GetGradients : M → list Tensor;
  ForwardNode : M → Z → list real → list real;
  Save : M → list Byte.byte → list Byte.byte;
  Load : M → list Byte.byte → M * list Byte.byte;
}.

(** Modelled from the spec: the shape part of the layer contract, declared
    in the same headers. [SetInputShape] configures the layer for an input
    shape and returns its output shape; [GetInputShape] and [GetOutputShape]
    report the two shapes. *)
Class Shaped (M : Type) := {
  SetInputShape : M → list Z → M * list Z;
  GetInputShape : M → list Z;
  GetOutputShape : M → list Z;
}.

(** [Variables::PushBack(Variables const&)]: "parameter/gradient collection
    concatenates children in order". *)
Definition PushBack `{Buffers} (self v : list Tensor) : list Tensor := self ++ v.

(** ** [Sequential] *)

Module Sequential.
Section Sequential.
Context `{Buffers} {Layer : Type} `{!Model Layer}.

(** [m_layers] holds shared pointers, and nothing keeps a caller from adding
    the same layer twice: the layers live in a store and the list holds
    their addresses. *)
Local Abbreviation store := (nat → Layer).

Record t := { m_layers : list nat }.

Definition create : t := {| m_layers := [] |}.

(** [Add(layer)] *)
Definition Add (layer : nat) (self : t) : t :=
  {| m_layers := m_layers self ++ [layer] |}.

(** [layer->Forward(x, train)] on the object at address [layer]. *)
Definition call_Forward (train : bool) (layer : nat) (st : FrameBuffer * store)
  : FrameBuffer * store :=
  let '(l, y) := Forward (st.2 layer) st.1 train in (y, <[layer := l]> st.2).

Definition call_Backward (layer : nat) (st : FrameBuffer * store)
  : FrameBuffer * store :=
  let '(l, dx) := Backward (st.2 layer) st.1 in (dx, <[layer := l]> st.2).

(** [GetParameters()] (lines 69-76). *)
Definition GetParameters (self : t) (h : store) : list Tensor :=
  fold_left (λ parameters layer, PushBack parameters (GetParameters (h layer)))
            (m_layers self) [].

(** [GetGradients()] (lines 84-91). *)
Definition GetGradients (self : t) (h : store) : list Tensor :=
  fold_left (λ gradients layer, PushBack gradients (GetGradients (h layer)))
            (m_layers self) [].

(** [Forward(x, train)] (lines 116-122): [for (auto layer : m_layers)]. *)
Definition Forward (self : t) (x : FrameBuffer) (train : bool) (h : store)
  : FrameBuffer * store :=
  fold_left (λ st layer, call_Forward train layer st) (m_layers self) (x, h).

(** [Backward(dy)] (lines 130-136): from [rbegin()] to [rend()]. *)
Definition Backward (self : t) (dy : FrameBuffer) (h : store)
  : FrameBuffer * store :=
  fold_left (λ st layer, call_Backward layer st) (rev (m_layers self)) (dy, h).

(** The specification's reading of the two passes, as nested calls:
    [Lk.Forward(... L1.Forward(x) ...)] has the last layer outermost,
    [L1.Backward(... Lk.Backward(dy) ...)] the first. *)
Fixpoint forward_nest (train : bool) (reversed : list nat) (st : FrameBuffer * store)
  : FrameBuffer * store :=
  match reversed with
  | [] => st
  | last :: before => call_Forward train last (forward_nest train before st)
  end.

Fixpoint backward_nest (layers : list nat) (st : FrameBuffer * store)
  : FrameBuffer * store :=
  match layers with
  | [] => st
  | first :: after => call_Backward first (backward_nest after st)
  end.

End Sequential.

Section Shapes.
Context {Layer : Type} `{!Shaped Layer}.

(** [layer->SetInputShape(shape)] on the object at address [layer]. *)
Definition call_SetInputShape (layer : nat) (st : list Z * (nat → Layer))
  : list Z * (nat → Layer) :=
  let '(l, shape) := SetInputShape (st.2 layer) st.1 in (shape, <[layer := l]> st.2).

(** [SetInputShape(shape)] (lines 101-107). *)
Definition SetInputShape (self : t) (shape : list Z) (h : nat → Layer)
  : list Z * (nat → Layer) :=
  fold_left (λ st layer, call_SetInputShape layer st) (m_layers self) (shape, h).

(** The layers [layers] of the store [h] fit together from the input shape
    [shape] to the output shape [out]: the first one is configured for
    [shape], each next one for the output shape of the one before it, and
    the last one puts out [out]. *)
Fixpoint chained (h : nat → Layer) (layers : list nat) (shape out : list Z) : Prop :=
  match layers with
  | [] => out = shape
  | l :: layers' =>
      GetInputShape (h l) = shape ∧ chained h layers' (GetOutputShape (h l)) out
  end.

End Shapes.
End Sequential.

(** ** Commands *)

(** [EvalBool] ([bb/Utility.h], not part of the sources) reads the boolean
    argument of a command. *)
Class CommandEnv := { EvalBool : string → bool }.

(** A stand-in that reads "true" as true and anything else as false. *)
Definition plain_commands : CommandEnv :=
  {| EvalBool := λ v, String.eqb v "true" |}.

(** [args.size() == 2 && args[0] == name], and then [args[1]]. *)
Definition command_arg (args : list string) (name : string) : option string :=
  match args with
  | [a0; a1] => if String.eqb a0 name then Some a1 else None
  | _ => None
  end.

(** ** [ReLU] *)

Module ReLU.

(** The element type [T] of the template: its tag [DataType<T>::type], its
    zero and the comparison [a > b] (false when either side is not a
    number). *)
Class Scalar (T : Type) := {
  DataType_type : Z;
  zero : T;
  gtb : T → T → bool;
}.

(** Modelled from the spec: [FrameBuffer] is declared in a header that is
    not part of the sources. A buffer carries an element type tag, a frame
    count, a node shape and one element per (node, frame); the padding
    frames that the vectorised loops also touch are not observable and are
    left out. *)
Record FrameBuffer (T : Type) := {
  GetType : Z;
  GetFrameSize : Z;
  GetShape : list Z;
  elements : list (list T);       (* elements[node][frame] *)
}.
Arguments GetType {T} _.
Arguments GetFrameSize {T} _.
Arguments GetShape {T} _.
Arguments elements {T} _.

Section ReLU.
Context {T : Type} `{!Scalar T} `{!CommandEnv}.

(** [FrameBuffer()] *)
Definition FrameBuffer_empty : FrameBuffer T :=
  {| GetType := 0; GetFrameSize := 0; GetShape := []; elements := [] |}.

Definition GetNodeSize (buf : FrameBuffer T) : Z := GetShapeSize (GetShape buf).

(** [ptr.Get(frame, node)] under a lock of the buffer. *)
Definition Get (buf : FrameBuffer T) (frame node : Z) : outcome T :=
  row ← vec_at (elements buf) node; vec_at row frame.

(** The state of a [ReLU] object: its own members and the ones it uses of
    its base class [Binarize<T>]. *)
Record t := {
  m_binary_mode : bool;
  m_host_only : bool;
  m_x_buf : FrameBuffer T;
  m_y_buf : FrameBuffer T;
}.

(** [ReLU::Create()] *)
Definition Create : t :=
  {| m_binary_mode := false; m_host_only := false;
     m_x_buf := FrameBuffer_empty; m_y_buf := FrameBuffer_empty |}.

(** [Binarize<T>::Forward] and [Binarize<T>::Backward] ([bb/Binarize.h], not
    part of the sources), which a [ReLU] in binary mode hands its calls to. *)
Class BinarizeOps := {
  Binarize_Forward : t → FrameBuffer T → bool → outcome (t * FrameBuffer T);
  Binarize_Backward : t → FrameBuffer T → outcome (t * FrameBuffer T);
}.
Context `{!BinarizeOps}.

(** [CommandProc(args)] (lines 43-56). *)
Definition CommandProc (args : list string) (self : t) : t :=
  let self :=
    match command_arg args "binary" with
    | Some v => {| m_binary_mode := EvalBool v; m_host_only := m_host_only self;
                   m_x_buf := m_x_buf self; m_y_buf := m_y_buf self |}
    | None => self
    end in
  match command_arg args "host_only" with
  | Some v => {| m_binary_mode := m_binary_mode self; m_host_only := EvalBool v;
                 m_x_buf := m_x_buf self; m_y_buf := m_y_buf self |}
  | None => self
  end.

(** One pass of the nested loops [for node < node_size], [for frame <
    frame_size], collecting the element computed for each position. *)
Definition for_elements (node_size frame_size : Z) (f : Z → Z → outcome T)
  : outcome (list (list T)) :=
  mapM (λ node, mapM (λ frame, f frame node) (seqZ 0 frame_size)) (seqZ 0 node_size).

(** [Forward(x_buf, train)] (lines 93-168), host path. The handle stored in
    [m_y_buf] shares its memory with the buffer that is returned, so the
    cache holds the values the loop writes after the assignment. *)
Definition Forward (self : t) (x_buf : FrameBuffer T) (train : bool)
  : outcome (t * FrameBuffer T) :=
  if m_binary_mode self then Binarize_Forward self x_buf train
  else
    BB_ASSERT (GetType x_buf =? DataType_type);;
    y ← for_elements (GetNodeSize x_buf) (GetFrameSize x_buf) (λ frame node,
          sig ← Get x_buf frame node;
          Done (if gtb sig zero then sig else zero));
    let y_buf := {| GetType := GetType x_buf; GetFrameSize := GetFrameSize x_buf;
                    GetShape := GetShape x_buf; elements := y |} in
    let self :=
      if train
      then {| m_binary_mode := m_binary_mode self; m_host_only := m_host_only self;
              m_x_buf := x_buf; m_y_buf := y_buf |}
      else self in
    Done (self, y_buf).

(** [Backward(dy_buf)] (lines 177-262), host path. *)
Definition Backward (self : t) (dy_buf : FrameBuffer T)
  : outcome (t * FrameBuffer T) :=
  if m_binary_mode self then Binarize_Backward self dy_buf
  else
    BB_ASSERT (GetType dy_buf =? DataType_type);;
    let y_buf := m_y_buf self in
    let self := {| m_binary_mode := m_binary_mode self; m_host_only := m_host_only self;
                   m_x_buf := FrameBuffer_empty; m_y_buf := FrameBuffer_empty |} in
    dx ← for_elements (GetNodeSize dy_buf) (GetFrameSize dy_buf) (λ frame node,
           sig ← Get y_buf frame node;
           grad ← Get dy_buf frame node;
           Done (if gtb sig zero then grad else zero));
    Done (self, {| GetType := GetType dy_buf; GetFrameSize := GetFrameSize dy_buf;
                   GetShape := GetShape dy_buf; elements := dx |}).

(** The gradient a call of [Backward] returns, without the updated object. *)
Definition gradient (r : outcome (t * FrameBuffer T)) : outcome (FrameBuffer T) :=
  snd <$> r.

End ReLU.

(** [ForwardNode(node, x_vec)] (lines 72-84). The per-node path computes on
    [double] whatever the element type of the layer is; a layer in binary
    mode hands the call to [Binarize<T>::ForwardNode] ([bb/Binarize.h], not
    part of the sources). *)
Section ForwardNode.
Context {T double : Type} `{!Scalar double}.
Variable Binarize_ForwardNode : Z → list double → list double.

Definition ForwardNode (self : @t T) (node : Z) (x_vec : list double) : list double :=
  if m_binary_mode self then Binarize_ForwardNode node x_vec
  else (λ x, if gtb x zero then x else zero) <$> x_vec.

End ForwardNode.




(** Integers as a stand-in element type, to run the layer. *)
Definition Z_scalar : Scalar Z :=
  {| DataType_type := 1; zero := 0; gtb := λ a b, b <? a |}.

(** A stand-in for the binary mode, which the examples never enter. *)
Definition no_binarize : @BinarizeOps Z :=
  {| Binarize_Forward := λ self x _, Done (self, x);
     Binarize_Backward := λ self dy, Done (self, dy) |}.

(** One node, one frame. *)
Definition scalar_buffer (v : Z) : FrameBuffer Z :=
  {| GetType := 1; GetFrameSize := 1; GetShape := [1]; elements := [[v]] |}.

(** A training pass on [x1], a pass on [-1], then [Backward] on the gradient
    [5], all on a fresh [ReLU]. *)
Definition two_forwards (x1 : Z) (train2 : bool) : outcome (FrameBuffer Z) :=
  s1 ← @Forward Z Z_scalar no_binarize Create (scalar_buffer x1) true;
  s2 ← @Forward Z Z_scalar no_binarize s1.1 (scalar_buffer (-1)) train2;
  gradient (@Backward Z Z_scalar no_binarize s2.1 (scalar_buffer 5)).

(** Another [ReLU], with other members and another cache. *)
Definition used_relu : @t Z :=
  {| m_binary_mode := false; m_host_only := true;
     m_x_buf := scalar_buffer 7; m_y_buf := scalar_buffer 7 |}.

End ReLU.

(** ** [StochasticLut] *)

Module StochasticLut.
Section StochasticLut.
Context `{Buffers} `{!CommandEnv}.
(** The two children: a sparse LUT layer ([StochasticLut2/4/6]) and
    [BatchNormalization], reached through the layer contract and, for the
    LUT, [GetNodeInputSize]. *)
Context {Lut BatchNorm : Type} `{!Model Lut} `{!Model BatchNorm}.
Variable lut_GetNodeInputSize : Lut → Z → Z.

Record t := {
  m_lut : Lut;
  m_batch_norm : BatchNorm;
  m_bn_enable : bool;
}.

(** [Create(create)] (lines 70-88), from the two children it builds: the
    member [m_bn_enable] keeps its initialiser [true]. *)
Definition Create (lut : Lut) (batch_norm : BatchNorm) : t :=
  {| m_lut := lut; m_batch_norm := batch_norm; m_bn_enable := true |}.

(** [CommandProc(args)] (lines 47-54). *)
Definition CommandProc (args : list string) (self : t) : t :=
  match command_arg args "batch_normalization" with
  | Some v => {| m_lut := m_lut self; m_batch_norm := m_batch_norm self;
                 m_bn_enable := EvalBool v |}
  | None => self
  end.

(** [GetParameters()] (lines 132-140). *)
Definition GetParameters (self : t) : list Tensor :=
  let parameters := PushBack [] (GetParameters (m_lut self)) in
  if m_bn_enable self
  then PushBack parameters (GetParameters (m_batch_norm self))
  else parameters.

(** [GetGradients()] (lines 148-156). *)
Definition GetGradients (self : t) : list Tensor :=
  let gradients := PushBack [] (GetGradients (m_lut self)) in
  if m_bn_enable self
  then PushBack gradients (GetGradients (m_batch_norm self))
  else gradients.

(** [ForwardNode(node, x_vec)] (lines 208-220). *)
Definition ForwardNode (self : t) (node : Z) (x_vec : list real)
  : outcome (list real) :=
  let input_size := lut_GetNodeInputSize (m_lut self) node in
  BB_ASSERT (input_size =? Z.of_nat (length x_vec));;
  let x_vec := ForwardNode (m_lut self) node x_vec in
  let x_vec :=
    if m_bn_enable self then ForwardNode (m_batch_norm self) node x_vec
    else x_vec in
  Done x_vec.

(** [Forward(x, train)] (lines 229-236). *)
Definition Forward (self : t) (x : FrameBuffer) (train : bool) : t * FrameBuffer :=
  let '(lut, x) := Forward (m_lut self) x train in
  if m_bn_enable self
  then let '(bn, x) := Forward (m_batch_norm self) x train in
       ({| m_lut := lut; m_batch_norm := bn; m_bn_enable := m_bn_enable self |}, x)
  else ({| m_lut := lut; m_batch_norm := m_batch_norm self;
           m_bn_enable := m_bn_enable self |}, x).

(** [Backward(dy)] (lines 244-251). *)
Definition Backward (self : t) (dy : FrameBuffer) : t * FrameBuffer :=
  let '(bn, dy) :=
    if m_bn_enable self then Backward (m_batch_norm self) dy
    else (m_batch_norm self, dy) in
  let '(lut, dy) := Backward (m_lut self) dy in
  ({| m_lut := lut; m_batch_norm := bn; m_bn_enable := m_bn_enable self |}, dy).

(** [Save(os)] (lines 277-281): the bytes written so far are [os]. *)
Definition Save (self : t) (os : list Byte.byte) : list Byte.byte :=
  let os := Save (m_lut self) os in
  Save (m_batch_norm self) os.

(** [Load(is)] (lines 283-287): the bytes still to be read are [istream]. *)
Definition Load (self : t) (istream : list Byte.byte) : t * list Byte.byte :=
  let '(lut, istream) := Load (m_lut self) istream in
  let '(bn, istream) := Load (m_batch_norm self) istream in
  ({| m_lut := lut; m_batch_norm := bn; m_bn_enable := m_bn_enable self |}, istream).

End StochasticLut.

Section Shapes.
Context {Lut BatchNorm : Type} `{!Shaped Lut} `{!Shaped BatchNorm}.

(** [SetInputShape(shape)] (lines 166-171). *)
Definition SetInputShape (self : @t Lut BatchNorm) (shape : list Z)
  : @t Lut BatchNorm * list Z :=
  let '(lut, shape) := SetInputShape (m_lut self) shape in
  let '(bn, shape) := SetInputShape (m_batch_norm self) shape in
  ({| m_lut := lut; m_batch_norm := bn; m_bn_enable := m_bn_enable self |}, shape).

(** [GetInputShape()] (lines 178-181) and [GetOutputShape()] (lines
    188-191). *)
Definition GetInputShape (self : @t Lut BatchNorm) : list Z :=
  GetInputShape (m_lut self).

Definition GetOutputShape (self : @t Lut BatchNorm) : list Z :=
  GetOutputShape (m_lut self).

End Shapes.

(** The three [Create] functions (lines 70-110). The template parameter [N]
    selects the LUT child; [StochasticLut2/4/6<T>::Create] and
    [BatchNormalization<T>::Create] belong to headers that are not part of
    the sources. No [Create] assigns [m_bn_enable], which keeps its
    initialiser. *)
Section Creation.
Context {Lut BatchNorm T : Type}.
Variable N : Z.
Variable StochasticLutN_Create : Z → list Z → Lut.

Record bn_create_t := {
  bn_momentum : T;
  bn_gamma : T;
  bn_beta : T;
  bn_fix_gamma : bool;
  bn_fix_beta : bool;
}.
Variable BatchNormalization_Create : bn_create_t → BatchNorm.

Record create_t := {
  output_shape : list Z;
  bn_enable : bool;
  momentum : T;
  gamma : T;
  beta : T;
  fix_gamma : bool;
  fix_beta : bool;
}.

(** [Create(create_t const &create)] (lines 70-88). *)
Definition Create_from (create : create_t) : outcome (@t Lut BatchNorm) :=
  lut ← (if (N =? 2) || (N =? 4) || (N =? 6)
         then Done (StochasticLutN_Create N (output_shape create))
         else BB_ASSERT false;; Undefined);
  let bn_create :=
    {| bn_momentum := momentum create; bn_gamma := gamma create;
       bn_beta := beta create; bn_fix_gamma := fix_gamma create;
       bn_fix_beta := fix_beta create |} in
  Done {| m_lut := lut; m_batch_norm := BatchNormalization_Create bn_create;
          m_bn_enable := true |}.

(** [Create(indices_t output_shape, bool bn_enable, T momentum, T gamma,
    T beta)] (lines 90-99); the two [fix_] members keep their initialiser. *)
Definition Create_shape (shape : list Z) (enable : bool) (mo ga be : T)
  : outcome (@t Lut BatchNorm) :=
  Create_from {| output_shape := shape; bn_enable := enable; momentum := mo;
                 gamma := ga; beta := be; fix_gamma := true; fix_beta := true |}.

(** [Create(index_t output_node_size, ...)] (lines 101-110). *)
Definition Create_size (output_node_size : Z) (enable : bool) (mo ga be : T)
  : outcome (@t Lut BatchNorm) :=
  Create_from {| output_shape := [output_node_size]; bn_enable := enable;
                 momentum := mo; gamma := ga; beta := be;
                 fix_gamma := true; fix_beta := true |}.

End Creation.
End StochasticLut.

(** ** [SparseLutN] *)

Module SparseLutN.

(** What [SparseLutN] asks of its children beyond the layer contract: the
    cached input of the forward pass can be read and replaced, and the
    forward pass can be run again on a given input ([ReForward]). *)
Class Recompute `{Buffers} (M : Type) := {
  GetFrameBufferX : M → FrameBuffer;
  SetFrameBufferX : M → FrameBuffer → M;
  ReForward : M → FrameBuffer → M * FrameBuffer;
}.

Section SparseLutN.
Context `{Buffers} `{!CommandEnv}.
(** The three children: [StochasticLutN], [StochasticBatchNormalization]
    and [HardTanh]. *)
Context {Lut BatchNorm Activation : Type}.
Context `{!Model Lut} `{!Model BatchNorm} `{!Model Activation}.
Context `{!Recompute Lut} `{!Recompute BatchNorm} `{!Recompute Activation}.
Variable lut_GetNodeInputSize : Lut → Z → Z.

Record t := {
  m_memory_saving : bool;
  m_lut : Lut;
  m_batch_norm : BatchNorm;
  m_activation : Activation;
}.

(** The constructor (lines 48-59), from the three children it builds. *)
Definition Create (lut : Lut) (batch_norm : BatchNorm) (activation : Activation) : t :=
  {| m_memory_saving := true; m_lut := lut; m_batch_norm := batch_norm;
     m_activation := activation |}.

(** [CommandProc(args)] (lines 66-72). *)
Definition CommandProc (args : list string) (self : t) : t :=
  match command_arg args "memory_saving" with
  | Some v => {| m_memory_saving := EvalBool v; m_lut := m_lut self;
                 m_batch_norm := m_batch_norm self;
                 m_activation := m_activation self |}
  | None => self
  end.

(** [GetParameters()] (lines 118-124). *)
Definition GetParameters (self : t) : list Tensor :=
  let parameters := PushBack [] (GetParameters (m_lut self)) in
  PushBack parameters (GetParameters (m_batch_norm self)).

(** [GetGradients()] (lines 132-138). *)
Definition GetGradients (self : t) : list Tensor :=
  let gradients := PushBack [] (GetGradients (m_lut self)) in
  PushBack gradients (GetGradients (m_batch_norm self)).

(** The children after a training-mode forward pass that keeps every
    cache, and the output of the pass. *)
Definition trained (self : t) (x : FrameBuffer)
  : Lut * BatchNorm * Activation * FrameBuffer :=
  let '(lut, y) := Forward (m_lut self) x true in
  let '(bn, z) := Forward (m_batch_norm self) y true in
  let '(act, w) := Forward (m_activation self) z true in
  (lut, bn, act, w).

(** [Forward(x_buf, train)] (lines 209-218). *)
Definition Forward (self : t) (x_buf : FrameBuffer) (train : bool)
  : t * FrameBuffer :=
  let '(lut, x_buf) := Forward (m_lut self) x_buf train in
  let '(bn, x_buf) := Forward (m_batch_norm self) x_buf train in
  let bn := if m_memory_saving self || negb train
            then SetFrameBufferX bn FrameBuffer_empty else bn in
  let '(act, x_buf) := Forward (m_activation self) x_buf train in
  let act := if m_memory_saving self || negb train
             then SetFrameBufferX act FrameBuffer_empty else act in
  ({| m_memory_saving := m_memory_saving self; m_lut := lut;
      m_batch_norm := bn; m_activation := act |}, x_buf).

(** The block of [Backward] guarded by [m_memory_saving] (lines 228-234). *)
Definition recompute (self : t) : t :=
  let '(lut, x_buf) := ReForward (m_lut self) (GetFrameBufferX (m_lut self)) in
  let '(bn, x_buf) := ReForward (m_batch_norm self) x_buf in
  let act := SetFrameBufferX (m_activation self) x_buf in
  {| m_memory_saving := m_memory_saving self; m_lut := lut;
     m_batch_norm := bn; m_activation := act |}.

(** The three calls that end [Backward] (lines 236-239). *)
Definition propagate (self : t) (dy_buf : FrameBuffer) : t * FrameBuffer :=
  let '(act, dy_buf) := Backward (m_activation self) dy_buf in
  let '(bn, dy_buf) := Backward (m_batch_norm self) dy_buf in
  let '(lut, dy_buf) := Backward (m_lut self) dy_buf in
  ({| m_memory_saving := m_memory_saving self; m_lut := lut;
      m_batch_norm := bn; m_activation := act |}, dy_buf).

(** [Backward(dy_buf)] (lines 226-240). *)
Definition Backward (self : t) (dy_buf : FrameBuffer) : t * FrameBuffer :=
  let self := if m_memory_saving self then recompute self else self in
  propagate self dy_buf.

(** The same object with the memory-saving switch set to [b]. *)
Definition with_memory_saving (b : bool) (self : t) : t :=
  {| m_memory_saving := b; m_lut := m_lut self;
     m_batch_norm := m_batch_norm self; m_activation := m_activation self |}.

(** [ForwardNode(node, x_vec)] (lines 191-200). *)
Definition ForwardNode (self : t) (node : Z) (x_vec : list real)
  : outcome (list real) :=
  let input_size := lut_GetNodeInputSize (m_lut self) node in
  BB_ASSERT (input_size =? Z.of_nat (length x_vec));;
  let x_vec := ForwardNode (m_lut self) node x_vec in
  let x_vec := ForwardNode (m_batch_norm self) node x_vec in
  let x_vec := ForwardNode (m_activation self) node x_vec in
  Done x_vec.

(** [Save(os)] (lines 265-270): the bytes written so far are [os]. *)
Definition Save (self : t) (os : list Byte.byte) : list Byte.byte :=
  let os := Save (m_lut self) os in
  let os := Save (m_batch_norm self) os in
  Save (m_activation self) os.

(** [Load(is)] (lines 272-277): the bytes still to be read are [istream]. *)
Definition Load (self : t) (istream : list Byte.byte) : t * list Byte.byte :=
  let '(lut, istream) := Load (m_lut self) istream in
  let '(bn, istream) := Load (m_batch_norm self) istream in
  let '(act, istream) := Load (m_activation self) istream in
  ({| m_memory_saving := m_memory_saving self; m_lut := lut;
      m_batch_norm := bn; m_activation := act |}, istream).

End SparseLutN.

Section Shapes.
Context {Lut BatchNorm Activation : Type}.
Context `{!Shaped Lut} `{!Shaped BatchNorm} `{!Shaped Activation}.

(** [SetInputShape(shape)] (lines 148-154). *)
Definition SetInputShape (self : @t Lut BatchNorm Activation) (shape : list Z)
  : @t Lut BatchNorm Activation * list Z :=
  let '(lut, shape) := SetInputShape (m_lut self) shape in
  let '(bn, shape) := SetInputShape (m_batch_norm self) shape in
  let '(act, shape) := SetInputShape (m_activation self) shape in
  ({| m_memory_saving := m_memory_saving self; m_lut := lut;
      m_batch_norm := bn; m_activation := act |}, shape).

(** [GetInputShape()] (lines 161-164) and [GetOutputShape()] (lines
    171-174). *)
Definition GetInputShape (self : @t Lut BatchNorm Activation) : list Z :=
  GetInputShape (m_lut self).

Definition GetOutputShape (self : @t Lut BatchNorm Activation) : list Z :=
  GetOutputShape (m_activation self).

End Shapes.

(** The constructor and the three [Create] functions (lines 40-95), in terms
    of the constructors of the children ([StochasticLutN::Create], whose
    [create_t] has the same three members, and the objects that
    [StochasticBatchNormalization::Create(0.01f)] and
    [HardTanh::Create(0, 1)] return), which belong to headers that are not
    part of the sources. *)
Section Creation.
Context {Lut BatchNorm Activation : Type}.

Record create_t := {
  output_shape : list Z;
  connection : string;
  seed : Z;
}.

Variable StochasticLutN_Create : create_t → Lut.
Variable batch_norm_new : BatchNorm.
Variable activation_new : Activation.

(** [Create(create_t const &create)] (lines 79-82) and the constructor
    (lines 48-59). *)
Definition Create_from (create : create_t) : @t Lut BatchNorm Activation :=
  let lut_create :=
    {| output_shape := output_shape create; connection := connection create;
       seed := seed create |} in
  {| m_memory_saving := true; m_lut := StochasticLutN_Create lut_create;
     m_batch_norm := batch_norm_new; m_activation := activation_new |}.

(** [Create(indices_t output_shape, std::string connection, std::uint64_t
    seed)] (lines 84-90): [create.seed] is not assigned and keeps its
    initialiser 1. *)
Definition Create_shape (shape : list Z) (conn : string) (seed_arg : Z)
  : @t Lut BatchNorm Activation :=
  Create_from {| output_shape := shape; connection := conn; seed := 1 |}.

(** [Create(index_t output_node_size, std::string connection, std::uint64_t
    seed)] (lines 92-95). *)
Definition Create_size (output_node_size : Z) (conn : string) (seed_arg : Z)
  : @t Lut BatchNorm Activation :=
  Create_shape [output_node_size] conn seed_arg.

End Creation.
End SparseLutN.

(** ** [BinaryModulation] *)

Module BinaryModulation.

(** Modelled from the spec: [RealToBinary] and [BinaryToReal] are declared
    in headers that are not part of the sources. The expander is configured
    by a modulation size, a value generator, a framewise flag and an input
    value range (the fields of its [create_t] that the constructor of
    [BinaryModulation] fills in); the reducer by a modulation size and an
    output shape. Each setter replaces the one parameter it is named after.
    Whatever else the two objects hold (caches, the state of the generator)
    is kept apart from these parameters, and only their passes touch it. *)
Record RealToBinary_create_t (ValueGenerator RealType : Type) := {
  modulation_size : Z;
  value_generator : ValueGenerator;
  framewise : bool;
  input_range_lo : RealType;
  input_range_hi : RealType;
}.
Arguments modulation_size {_ _} _.
Arguments value_generator {_ _} _.
Arguments framewise {_ _} _.
Arguments input_range_lo {_ _} _.
Arguments input_range_hi {_ _} _.

Record BinaryToReal_create_t := {
  bin2real_modulation_size : Z;
  bin2real_output_shape : list Z;
}.

Section BinaryModulation.
Context `{Buffers} {ValueGenerator RealType : Type}.
Context {Inner : Type} `{!Model Inner}.
(** The part of the expander and of the reducer that is not a parameter. *)
Context {ExpanderState ReducerState : Type}.

Record RealToBinary_t := {
  real2bin_param : RealToBinary_create_t ValueGenerator RealType;
  real2bin_state : ExpanderState;
}.

Record BinaryToReal_t := {
  bin2real_param : BinaryToReal_create_t;
  bin2real_state : ReducerState;
}.

(** The passes and collections of the two converters, and the state they
    are created with. *)
Class Converters := {
  real2bin_init : ExpanderState;
  real2bin_Forward : RealToBinary_t → FrameBuffer → bool → RealToBinary_t * FrameBuffer;
  real2bin_Backward : RealToBinary_t → FrameBuffer → RealToBinary_t * FrameBuffer;
  real2bin_GetParameters : RealToBinary_t → list Tensor;
  real2bin_GetGradients : RealToBinary_t → list Tensor;
  bin2real_init : ReducerState;
  bin2real_Forward : BinaryToReal_t → FrameBuffer → bool → BinaryToReal_t * FrameBuffer;
  bin2real_Backward : BinaryToReal_t → FrameBuffer → BinaryToReal_t * FrameBuffer;
  bin2real_GetParameters : BinaryToReal_t → list Tensor;
  bin2real_GetGradients : BinaryToReal_t → list Tensor;
}.
Context `{!Converters}.

(** [RealToBinary::Create(create)] and
    [BinaryToReal::Create(modulation_size, output_shape)]. *)
Definition real2bin_Create (create : RealToBinary_create_t ValueGenerator RealType)
  : RealToBinary_t :=
  {| real2bin_param := create; real2bin_state := real2bin_init |}.

Definition bin2real_Create (size : Z) (shape : list Z) : BinaryToReal_t :=
  {| bin2real_param := {| bin2real_modulation_size := size;
                          bin2real_output_shape := shape |};
     bin2real_state := bin2real_init |}.

(** [RealToBinary::SetModulationSize], [RealToBinary::SetValueGenerator] and
    [BinaryToReal::SetModulationSize]. *)
Definition real2bin_SetModulationSize (size : Z) (r : RealToBinary_t) : RealToBinary_t :=
  {| real2bin_param :=
       {| modulation_size := size;
          value_generator := value_generator (real2bin_param r);
          framewise := framewise (real2bin_param r);
          input_range_lo := input_range_lo (real2bin_param r);
          input_range_hi := input_range_hi (real2bin_param r) |};
     real2bin_state := real2bin_state r |}.

Definition real2bin_SetValueGenerator (g : ValueGenerator) (r : RealToBinary_t)
  : RealToBinary_t :=
  {| real2bin_param :=
       {| modulation_size := modulation_size (real2bin_param r);
          value_generator := g;
          framewise := framewise (real2bin_param r);
          input_range_lo := input_range_lo (real2bin_param r);
          input_range_hi := input_range_hi (real2bin_param r) |};
     real2bin_state := real2bin_state r |}.

Definition bin2real_SetModulationSize (size : Z) (b : BinaryToReal_t) : BinaryToReal_t :=
  {| bin2real_param :=
       {| bin2real_modulation_size := size;
          bin2real_output_shape := bin2real_output_shape (bin2real_param b) |};
     bin2real_state := bin2real_state b |}.

(** [BinaryModulation::create_t] (lines 40-56). *)
Record create_t := {
  layer : Inner;
  output_shape : list Z;
  training_modulation_size : Z;
  training_value_generator : ValueGenerator;
  training_framewise : bool;
  training_input_range_lo : RealType;
  training_input_range_hi : RealType;
  inference_modulation_size : Z;
  inference_value_generator : ValueGenerator;
  inference_framewise : bool;
  inference_input_range_lo : RealType;
  inference_input_range_hi : RealType;
}.

Record t := {
  m_real2bin : RealToBinary_t;
  m_layer : Inner;
  m_bin2real : BinaryToReal_t;
  m_training : bool;
  m_training_create : RealToBinary_create_t ValueGenerator RealType;
  m_inference_create : RealToBinary_create_t ValueGenerator RealType;
}.

(** The constructor (lines 59-77). *)
Definition Create (create : create_t) : t :=
  let training :=
    {| modulation_size := training_modulation_size create;
       value_generator := training_value_generator create;
       framewise := training_framewise create;
       input_range_lo := training_input_range_lo create;
       input_range_hi := training_input_range_hi create |} in
  let inference :=
    {| modulation_size := inference_modulation_size create;
       value_generator := inference_value_generator create;
       framewise := inference_framewise create;
       input_range_lo := inference_input_range_lo create;
       input_range_hi := inference_input_range_hi create |} in
  {| m_real2bin := real2bin_Create training;
     m_layer := layer create;
     m_bin2real := bin2real_Create (training_modulation_size create)
                                   (output_shape create);
     m_training := true;
     m_training_create := training;
     m_inference_create := inference |}.

(** The body of both branches of the switch: the three setters, called with
    the members of [create], and the new value of [m_training]. *)
Definition reconfigure (create : RealToBinary_create_t ValueGenerator RealType)
    (training : bool) (self : t) : t :=
  {| m_real2bin :=
       real2bin_SetValueGenerator (value_generator create)
         (real2bin_SetModulationSize (modulation_size create) (m_real2bin self));
     m_layer := m_layer self;
     m_bin2real := bin2real_SetModulationSize (modulation_size create) (m_bin2real self);
     m_training := training;
     m_training_create := m_training_create self;
     m_inference_create := m_inference_create self |}.

(** The switch that opens [Forward] (lines 187-199). *)
Definition switch (train : bool) (self : t) : t :=
  if train && negb (m_training self)
  then reconfigure (m_training_create self) true self
  else if negb train && m_training self
       then reconfigure (m_inference_create self) false self
       else self.

(** [Forward(x, train)] (lines 185-205). *)
Definition Forward (self : t) (x : FrameBuffer) (train : bool) : t * FrameBuffer :=
  let self := switch train self in
  let '(real2bin, x) := real2bin_Forward (m_real2bin self) x train in
  let '(inner, x) := Forward (m_layer self) x train in
  let '(bin2real, x) := bin2real_Forward (m_bin2real self) x train in
  ({| m_real2bin := real2bin; m_layer := inner; m_bin2real := bin2real;
      m_training := m_training self;
      m_training_create := m_training_create self;
      m_inference_create := m_inference_create self |}, x).

(** [GetParameters()] (lines 115-122). *)
Definition GetParameters (self : t) : list Tensor :=
  let parameters := PushBack [] (real2bin_GetParameters (m_real2bin self)) in
  let parameters := PushBack parameters (GetParameters (m_layer self)) in
  PushBack parameters (bin2real_GetParameters (m_bin2real self)).

(** [GetGradients()] (lines 130-137). *)
Definition GetGradients (self : t) : list Tensor :=
  let gradients := PushBack [] (real2bin_GetGradients (m_real2bin self)) in
  let gradients := PushBack gradients (GetGradients (m_layer self)) in
  PushBack gradients (bin2real_GetGradients (m_bin2real self)).

(** [Backward(dy)] (lines 213-219). *)
Definition Backward (self : t) (dy : FrameBuffer) : t * FrameBuffer :=
  let '(bin2real, dy) := bin2real_Backward (m_bin2real self) dy in
  let '(inner, dy) := Backward (m_layer self) dy in
  let '(real2bin, dy) := real2bin_Backward (m_real2bin self) dy in
  ({| m_real2bin := real2bin; m_layer := inner; m_bin2real := bin2real;
      m_training := m_training self;
      m_training_create := m_training_create self;
      m_inference_create := m_inference_create self |}, dy).

(** A call of one of the two passes, and a sequence of such calls on one
    object. *)
Inductive pass :=
| pass_Forward (x : FrameBuffer) (train : bool)
| pass_Backward (dy : FrameBuffer).

Definition run_pass (self : t) (p : pass) : t :=
  match p with
  | pass_Forward x train => (Forward self x train).1
  | pass_Backward dy => (Backward self dy).1
  end.

Definition run_passes (passes : list pass) (self : t) : t :=
  fold_left run_pass passes self.

(** The [train] argument of the last forward pass of a sequence of calls on
    a new object ([m_training] starts out true). *)
Definition last_mode (passes : list pass) : bool :=
  fold_left (λ mode p, match p with
                       | pass_Forward _ train => train
                       | pass_Backward _ => mode
                       end) passes true.

(** An object created from [create] whose converters are configured for
    [mode]: the modulation size of the expander and of the reducer and the
    value generator of the expander are those [create] names for the mode;
    the framewise flag and the input range of the expander are those it
    names for training, whatever the mode; the output shape of the reducer
    and the two stored parameter sets are as the constructor set them. *)
Definition configured (create : create_t) (mode : bool) (self : t) : Prop :=
  m_training self = mode
  ∧ modulation_size (real2bin_param (m_real2bin self))
    = (if mode then training_modulation_size create
       else inference_modulation_size create)
  ∧ value_generator (real2bin_param (m_real2bin self))
    = (if mode then training_value_generator create
       else inference_value_generator create)
  ∧ bin2real_modulation_size (bin2real_param (m_bin2real self))
    = (if mode then training_modulation_size create
       else inference_modulation_size create)
  ∧ framewise (real2bin_param (m_real2bin self)) = training_framewise create
  ∧ input_range_lo (real2bin_param (m_real2bin self)) = training_input_range_lo create
  ∧ input_range_hi (real2bin_param (m_real2bin self)) = training_input_range_hi create
  ∧ bin2real_output_shape (bin2real_param (m_bin2real self)) = output_shape create
  ∧ m_training_create self = m_training_create (Create create)
  ∧ m_inference_create self = m_inference_create (Create create).

(** The expander that matches a parameter set: what the specification asks
    the switch to establish. *)
Definition expander_matches (create : RealToBinary_create_t ValueGenerator RealType)
    (self : t) : Prop :=
  real2bin_param (m_real2bin self) = create.

End BinaryModulation.

Section Shapes.
Context {ValueGenerator RealType Inner ExpanderState ReducerState : Type}.
Local Abbreviation modulation :=
  (@t ValueGenerator RealType Inner ExpanderState ReducerState).
Context `{!Shaped (@RealToBinary_t ValueGenerator RealType ExpanderState)}.
Context `{!Shaped Inner} `{!Shaped (@BinaryToReal_t ReducerState)}.

(** [SetInputShape(shape)] (lines 147-154). *)
Definition SetInputShape (self : modulation) (shape : list Z) : modulation * list Z :=
  let '(real2bin, shape) := SetInputShape (m_real2bin self) shape in
  let '(inner, shape) := SetInputShape (m_layer self) shape in
  let '(bin2real, shape) := SetInputShape (m_bin2real self) shape in
  ({| m_real2bin := real2bin; m_layer := inner; m_bin2real := bin2real;
      m_training := m_training self;
      m_training_create := m_training_create self;
      m_inference_create := m_inference_create self |}, shape).

(** [GetInputShape()] (lines 162-165) and [GetOutputShape()] (lines
    172-175). *)
Definition GetInputShape (self : modulation) : list Z :=
  GetInputShape (m_real2bin self).

Definition GetOutputShape (self : modulation) : list Z :=
  GetOutputShape (m_bin2real self).

End Shapes.
End BinaryModulation.

(** ** Contracts of the children, and a small layer to run the composites *)

(** The parameters [ps] and the gradients [gs] can be zipped: entry by
    entry, a gradient [pairs] with its parameter. *)
Definition zippable `{Buffers} (pairs : Tensor → Tensor → Prop)
    (ps gs : list Tensor) : Prop :=
  Forall2 pairs ps gs.

(** Modelled from the spec: the children of [SparseLutN] are declared in
    headers that are not part of the sources. The spec asks of the
    recomputation that it "reproduce bit-identical intermediates to the
    original Forward": a training-mode forward pass caches its input;
    running [ReForward] on that input, whatever the cache holds by then,
    returns the output of the forward pass and leaves the layer as the
    forward pass left it; the cache is a slot that [SetFrameBufferX]
    overwrites. *)
Class RecomputeLaws `{Buffers} (M : Type) `{!Model M} `{!SparseLutN.Recompute M}
  : Prop := {
  forward_caches_input : ∀ (m m' : M) (x y : FrameBuffer),
    Forward m x true = (m', y) → SparseLutN.GetFrameBufferX m' = x;
  reforward_reproduces : ∀ (m m' : M) (x y b : FrameBuffer),
    Forward m x true = (m', y) →
    SparseLutN.ReForward (SparseLutN.SetFrameBufferX m' b) x = (m', y);
  set_cached_input : ∀ (m : M),
    SparseLutN.SetFrameBufferX m (SparseLutN.GetFrameBufferX m) = m;
  set_set_input : ∀ (m : M) (a b : FrameBuffer),
    SparseLutN.SetFrameBufferX (SparseLutN.SetFrameBufferX m a) b
    = SparseLutN.SetFrameBufferX m b;
}.

(** Modelled from the spec: the layers are declared in headers that are not
    part of the sources. [SetInputShape] "initialises the internal
    variables, and from then on the value can be obtained with
    [GetOutputShape()]" (the comment on every [SetInputShape] of the
    sources): after it, [GetInputShape] reports the shape that was set and
    [GetOutputShape] the shape that was returned. *)
Class ShapeLaws (M : Type) `{!Shaped M} : Prop := {
  input_shape_set : ∀ (m : M) (shape : list Z),
    GetInputShape (SetInputShape m shape).1 = shape;
  output_shape_set : ∀ (m : M) (shape : list Z),
    GetOutputShape (SetInputShape m shape).1 = (SetInputShape m shape).2;
}.

(** Modelled from the spec: the children of the composites are declared in
    headers that are not part of the sources. The spec asks of the byte
    stream that it "round-trip: [Load(Save(x))] reproduces identical
    parameters": [Save] appends to the stream bytes that depend on the
    object alone; [Load], whatever the object it is called on, takes exactly
    these bytes from the stream, and the object it leaves has what [Save]
    wrote of the saved one -- [restored saved loaded]. *)
Class SerialLaws `{Buffers} (M : Type) `{!Model M} (restored : M → M → Prop)
  : Prop := {
  save_appends : ∀ (m : M) (os : list Byte.byte), Save m os = os ++ Save m [];
  load_reads_saved : ∀ (m m0 : M) (rest : list Byte.byte),
    (Load m0 (Save m [] ++ rest)).2 = rest
    ∧ restored m (Load m0 (Save m [] ++ rest)).1;
}.

(** Modelled from the spec: [RealToBinary] and [BinaryToReal] are declared
    in headers that are not part of the sources. Their passes work on their
    caches and on the state of the value generator; the parameters they were
    configured with are changed by the setters only. *)
Class ConverterLaws `{Buffers} {ValueGenerator RealType ExpanderState ReducerState : Type}
    `{!@BinaryModulation.Converters _ ValueGenerator RealType ExpanderState ReducerState}
  : Prop := {
  real2bin_Forward_param : ∀ r x train,
    BinaryModulation.real2bin_param (BinaryModulation.real2bin_Forward r x train).1
    = BinaryModulation.real2bin_param r;
  real2bin_Backward_param : ∀ r dy,
    BinaryModulation.real2bin_param (BinaryModulation.real2bin_Backward r dy).1
    = BinaryModulation.real2bin_param r;
  bin2real_Forward_param : ∀ b x train,
    BinaryModulation.bin2real_param (BinaryModulation.bin2real_Forward b x train).1
    = BinaryModulation.bin2real_param b;
  bin2real_Backward_param : ∀ b dy,
    BinaryModulation.bin2real_param (BinaryModulation.bin2real_Backward b dy).1
    = BinaryModulation.bin2real_param b;
}.

Module Demo.

(** Buffers of one integer, tensors of one integer. *)
Definition buffers : Buffers :=
  {| FrameBuffer := Z; FrameBuffer_empty := 0; Tensor := Z; real := Z |}.

(** An amplifier, a layer with one weight: it multiplies by the weight on the way forward
    and, where the cached input was positive, on the way back. *)
Record amp := { weight : Z; grad : Z; cached : Z }.

Definition amp_forward (g : amp) (x : @FrameBuffer buffers) (train : bool)
  : amp * @FrameBuffer buffers :=
  ({| weight := weight g; grad := grad g; cached := if train then x else cached g |},
   weight g * x : Z).

Definition amp_backward (g : amp) (dy : @FrameBuffer buffers)
  : amp * @FrameBuffer buffers :=
  ({| weight := weight g; grad := cached g * dy; cached := 0 |},
   if 0 <? cached g then weight g * dy else 0 : Z).

(** One byte per layer: the weight. *)
Definition byte_of (w : Z) : Byte.byte :=
  default Byte.x00 (Byte.of_N (Z.to_N (w `mod` 256))).

Definition amp_save (g : amp) (os : list Byte.byte) : list Byte.byte :=
  os ++ [byte_of (weight g)].

Definition amp_load (g : amp) (istream : list Byte.byte) : amp * list Byte.byte :=
  match istream with
  | b :: rest =>
      ({| weight := Z.of_N (Byte.to_N b); grad := grad g; cached := cached g |}, rest)
  | [] => (g, [])
  end.

(** What [amp_load] brings back of a saved amplifier: the byte of its
    weight. *)
Definition same_byte (saved loaded : amp) : Prop :=
  byte_of (weight loaded) = byte_of (weight saved).

#[global] Instance amp_model : @Model buffers amp :=
  @Build_Model buffers amp
    amp_forward amp_backward
    (λ g, [weight g]) (λ g, [grad g])
    (λ g _ x_vec, Z.mul (weight g) <$> x_vec)
    amp_save amp_load.

#[global] Instance amp_recompute : @SparseLutN.Recompute buffers amp :=
  @SparseLutN.Build_Recompute buffers amp
    cached
    (λ g x, {| weight := weight g; grad := grad g; cached := x |})
    (λ g x, amp_forward g x true).

Definition amp_of (w : Z) : amp := {| weight := w; grad := 0; cached := 0 |}.

(** The parameter and its gradient of an amplifier are both single integers. *)
Definition any_pair (p g : @Tensor buffers) : Prop := True.

(** A [SparseLutN] of three amplifiers. *)
Definition three_amps : @SparseLutN.t amp amp amp :=
  SparseLutN.Create (amp_of 2) (amp_of 3) (amp_of 5).

(** Converters for [BinaryModulation]: value generators are numbered, ranges
    are integers, the expander repeats its input [modulation_size] times
    (a buffer is its one integer: the sum of the frames), the reducer
    averages; both count their forward calls. *)
Definition converters : @BinaryModulation.Converters buffers Z Z Z Z :=
  @BinaryModulation.Build_Converters buffers Z Z Z Z
    0
    (λ r x _, ({| BinaryModulation.real2bin_param := BinaryModulation.real2bin_param r;
                  BinaryModulation.real2bin_state :=
                    BinaryModulation.real2bin_state r + 1 |},
               x * BinaryModulation.modulation_size (BinaryModulation.real2bin_param r)))
    (λ r dy, (r, dy))
    (λ _, []) (λ _, [])
    0
    (λ b x _, ({| BinaryModulation.bin2real_param := BinaryModulation.bin2real_param b;
                  BinaryModulation.bin2real_state :=
                    BinaryModulation.bin2real_state b + 1 |},
               x `div` BinaryModulation.bin2real_modulation_size
                         (BinaryModulation.bin2real_param b)))
    (λ b dy, (b, dy))
    (λ _, []) (λ _, []).

(** Training: one frame per input, generator 1, framewise, range [0, 1];
    inference: seven frames, generator 2, per element, range [-1, 1]. *)
Definition modulation : @BinaryModulation.create_t Z Z amp := {|
  BinaryModulation.layer := amp_of 3;
  BinaryModulation.output_shape := [10];
  BinaryModulation.training_modulation_size := 1;
  BinaryModulation.training_value_generator := 1;
  BinaryModulation.training_framewise := true;
  BinaryModulation.training_input_range_lo := 0;
  BinaryModulation.training_input_range_hi := 1;
  BinaryModulation.inference_modulation_size := 7;
  BinaryModulation.inference_value_generator := 2;
  BinaryModulation.inference_framewise := false;
  BinaryModulation.inference_input_range_lo := -1;
  BinaryModulation.inference_input_range_hi := 1;
|}.

(** The composite built from [modulation], and the same after one forward
    pass in inference mode. *)
Definition modulated : @BinaryModulation.t Z Z amp Z Z :=
  @BinaryModulation.Create buffers Z Z amp Z Z converters modulation.

Definition after_inference : @BinaryModulation.t Z Z amp Z Z :=
  (@BinaryModulation.Forward buffers Z Z amp _ Z Z converters modulated 6 false).1.

(** Layers for the shape contract: a layer that remembers the shape it was
    configured for and puts out [width] nodes, and one that puts out the
    shape it is given. *)
Record dense := { width : Z; dense_input : list Z }.

Definition dense_shaped : Shaped dense :=
  {| SetInputShape := λ d shape, ({| width := width d; dense_input := shape |}, [width d]);
     GetInputShape := dense_input;
     GetOutputShape := λ d, [width d] |}.

Definition plain_shaped : Shaped (list Z) :=
  {| SetInputShape := λ _ shape, (shape, shape);
     GetInputShape := λ m, m;
     GetOutputShape := λ m, m |}.

(** Converters for the shape contract: both keep the shape they were
    configured for as their state; the reducer puts out the output shape it
    was created with. *)
Definition expander_shaped : Shaped (@BinaryModulation.RealToBinary_t Z Z (list Z)) :=
  {| SetInputShape := λ r shape,
       ({| BinaryModulation.real2bin_param := BinaryModulation.real2bin_param r;
           BinaryModulation.real2bin_state := shape |}, shape);
     GetInputShape := BinaryModulation.real2bin_state;
     GetOutputShape := BinaryModulation.real2bin_state |}.

Definition reducer_shaped : Shaped (@BinaryModulation.BinaryToReal_t (list Z)) :=
  {| SetInputShape := λ b shape,
       ({| BinaryModulation.bin2real_param := BinaryModulation.bin2real_param b;
           BinaryModulation.bin2real_state := shape |},
        BinaryModulation.bin2real_output_shape (BinaryModulation.bin2real_param b));
     GetInputShape := BinaryModulation.bin2real_state;
     GetOutputShape := λ b,
       BinaryModulation.bin2real_output_shape (BinaryModulation.bin2real_param b) |}.

(** A [BinaryModulation] around a [dense] layer. *)
Definition shaped_modulation : @BinaryModulation.t Z Z dense (list Z) (list Z) :=
  {| BinaryModulation.m_real2bin :=
       {| BinaryModulation.real2bin_param :=
            {| BinaryModulation.modulation_size := 1;
               BinaryModulation.value_generator := 1;
               BinaryModulation.framewise := true;
               BinaryModulation.input_range_lo := 0;
               BinaryModulation.input_range_hi := 1 |};
          BinaryModulation.real2bin_state := [] |};
     BinaryModulation.m_layer := {| width := 6; dense_input := [] |};
     BinaryModulation.m_bin2real :=
       {| BinaryModulation.bin2real_param :=
            {| BinaryModulation.bin2real_modulation_size := 1;
               BinaryModulation.bin2real_output_shape := [10] |};
          BinaryModulation.bin2real_state := [] |};
     BinaryModulation.m_training := true;
     BinaryModulation.m_training_create :=
       {| BinaryModulation.modulation_size := 1;
          BinaryModulation.value_generator := 1;
          BinaryModulation.framewise := true;
          BinaryModulation.input_range_lo := 0;
          BinaryModulation.input_range_hi := 1 |};
     BinaryModulation.m_inference_create :=
       {| BinaryModulation.modulation_size := 7;
          BinaryModulation.value_generator := 2;
          BinaryModulation.framewise := false;
          BinaryModulation.input_range_lo := -1;
          BinaryModulation.input_range_hi := 1 |} |}.

End Demo.

(** ** [NeuralNet] *)

Module NeuralNet.

(** Modelled from the spec: the base class [NeuralNetGroup], the layers it
    holds, [NeuralNetBuffer], the loss function and the accuracy function
    are declared in headers that are not part of the sources. The layers of
    a group pass their signals on through buffers that they share, so a call
    on one layer is a step on the state [World] of the whole group, its
    layers and their buffers; a layer is named by its address. The targets
    [y] are read through the iterator [it_y], an offset into [y]. *)
Class GroupOps (World T : Type) := {
  NeuralNetBuffer : Type;
  NeuralNetBuffer_empty : NeuralNetBuffer;
  layer_Forward : nat → bool → World → World;         (* layer->Forward(train) *)
  layer_Backward : nat → World → World;               (* layer->Backward() *)
  layer_Update : nat → World → World;                 (* layer->Update() *)
  Group_SetBatchSize : Z → World → World;     (* NeuralNetGroup::SetBatchSize *)
  CreateInputSignalBuffer : nat → World → NeuralNetBuffer;
  CreateInputErrorBuffer : nat → World → NeuralNetBuffer;
  CreateOutputSignalBuffer : nat → World → NeuralNetBuffer;
  CreateOutputErrorBuffer : nat → World → NeuralNetBuffer;
  SetInputSignalBuffer : nat → NeuralNetBuffer → World → World;
  SetInputErrorBuffer : nat → NeuralNetBuffer → World → World;
  SetOutputSignalBuffer : nat → NeuralNetBuffer → World → World;
  SetOutputErrorBuffer : nat → NeuralNetBuffer → World → World;
  (* GetInputSignalBuffer().Set<T>(frame, node, value) *)
  in_sig_buf_Set : Z → Z → T → World → World;
  double : Type;
  double_zero : double;
  double_add : double → double → double;
  double_div_index : double → Z → double;             (* accuracy / x_size *)
  (* lossFunc->CalculateLoss(out_sig_buf, out_err_buf, it_y) *)
  CalculateLoss : list (list T) → Z → World → World * double;
  (* accFunc->CalculateAccuracy(out_sig_buf, it_y) *)
  CalculateAccuracy : list (list T) → Z → World → double;
}.

Section NeuralNet.
Context {World T : Type} `{!GroupOps World T}.

(** The members of a [NeuralNet], those it inherits from [NeuralNetGroup]
    included, and the state of the layers and buffers they point to. *)
Record t := {
  m_batch_size : Z;
  m_input_signal_buffers : NeuralNetBuffer;
  m_output_signal_buffers : NeuralNetBuffer;
  m_input_error_buffers : NeuralNetBuffer;
  m_output_error_buffers : NeuralNetBuffer;
  m_layers : list nat;
  m_firstLayer : nat;
  m_lastLayer : nat;
  world : World;
}.

(** The same object after a step of its layers and buffers. *)
Definition set_world (w : World) (self : t) : t :=
  {| m_batch_size := m_batch_size self;
     m_input_signal_buffers := m_input_signal_buffers self;
     m_output_signal_buffers := m_output_signal_buffers self;
     m_input_error_buffers := m_input_error_buffers self;
     m_output_error_buffers := m_output_error_buffers self;
     m_layers := m_layers self;
     m_firstLayer := m_firstLayer self;
     m_lastLayer := m_lastLayer self;
     world := w |}.

(** [SetBatchSize(batch_size)] (lines 51-71). *)
Definition SetBatchSize (batch_size : Z) (self : t) : t :=
  let self := set_world (Group_SetBatchSize batch_size (world self)) self in
  if m_batch_size self =? batch_size then self
  else
    let w := world self in
    let input_signal := CreateInputSignalBuffer (m_firstLayer self) w in
    let input_error := CreateInputErrorBuffer (m_firstLayer self) w in
    let output_signal := CreateOutputSignalBuffer (m_lastLayer self) w in
    let output_error := CreateOutputErrorBuffer (m_lastLayer self) w in
    let w := SetInputSignalBuffer (m_firstLayer self) input_signal w in
    let w := SetInputErrorBuffer (m_firstLayer self) input_error w in
    let w := SetOutputSignalBuffer (m_lastLayer self) output_signal w in
    let w := SetOutputErrorBuffer (m_lastLayer self) output_error w in
    {| m_batch_size := batch_size;
       m_input_signal_buffers := input_signal;
       m_output_signal_buffers := output_signal;
       m_input_error_buffers := input_error;
       m_output_error_buffers := output_error;
       m_layers := m_layers self;
       m_firstLayer := m_firstLayer self;
       m_lastLayer := m_lastLayer self;
       world := w |}.

(** [Forward(train, start_layer)] (lines 73-80). *)
Definition Forward (train : bool) (start_layer : Z) (self : t) : outcome t :=
  let layer_size := Z.of_nat (length (m_layers self)) in
  w ← for_range start_layer layer_size (λ layer w,
        l ← vec_at (m_layers self) layer;
        Done (layer_Forward l train w)) (world self);
  Done (set_world w self).

(** [Backward()] (lines 82-87): from [rbegin()] to [rend()]. *)
Definition Backward (self : t) : t :=
  set_world (fold_left (λ w l, layer_Backward l w) (rev (m_layers self)) (world self))
            self.

(** [Update()] (lines 89-94). *)
Definition Update (self : t) : t :=
  set_world (fold_left (λ w l, layer_Update l w) (m_layers self) (world self)) self.

(** [RunCalculation(x, y, max_batch_size, accFunc, lossFunc, train,
    print_progress)] (lines 132-217). [accFunc] and [lossFunc] say whether
    the respective pointer is not null. What the function prints is left
    out. [INDEX] is [size_t]: the index arithmetic is done modulo 2^64. *)
Section RunCalculation.
Variables (x y : list (list T)) (max_batch_size : Z).
Variables (accFunc lossFunc train : bool).

Definition x_size : Z := Z.of_nat (length x).

(** [std::min(max_batch_size, x.size() - x_index)] (line 148). *)
Definition batch_size_at (x_index : Z) : Z :=
  Z.min max_batch_size ((Z.of_nat (length x) - x_index) `mod` 2 ^ 64).

(** The body of the loop (lines 147-205), for the batch that starts at
    sample [x_index] and at target [it_y]. *)
Definition batch (x_index it_y : Z) (st : t * double) : outcome (t * double) :=
  let '(self, accuracy) := st in
  let batch_size := batch_size_at x_index in
  x0 ← vec_at x 0;
  let node_size := Z.of_nat (length x0) in
  let self := SetBatchSize batch_size self in
  w ← for_range 0 batch_size (λ frame w,
        for_range 0 node_size (λ node w,
          row ← vec_at x (x_index + frame);
          v ← vec_at row node;
          Done (in_sig_buf_Set frame node v w)) w) (world self);
  self ← Forward train 0 (set_world w self);
  let self :=
    if lossFunc then set_world (CalculateLoss y it_y (world self)).1 self
    else self in
  let accuracy :=
    if accFunc then double_add accuracy (CalculateAccuracy y it_y (world self))
    else accuracy in
  let self := if train then Update (Backward self) else self in
  Done (self, accuracy).

(** The loop (line 146), with [it_y += batch_size] (line 208). *)
Fixpoint batches (fuel : nat) (x_index it_y : Z) (st : t * double)
  : outcome (t * double) :=
  match fuel with
  | O => OutOfFuel
  | S fuel' =>
      if x_index <? x_size
      then st ← batch x_index it_y st;
           batches fuel' ((x_index + max_batch_size) `mod` 2 ^ 64)
                   (it_y + batch_size_at x_index) st
      else Done st
  end.

Definition RunCalculation (fuel : nat) (self : t) : outcome (t * double) :=
  '(self, accuracy) ← batches fuel 0 0 (self, double_zero);
  Done (self, double_div_index accuracy x_size).

(** The number of batches: [x_size / max_batch_size], rounded up. *)
Definition batch_count : Z := (x_size + max_batch_size - 1) `div` max_batch_size.

End RunCalculation.

End NeuralNet.

(** A stand-in group to run the net: the state of the group is the list of
    the batches its layers were run on, each batch the list of the values
    stored in the input buffer; the accuracy function reports the offset of
    the targets it is given. *)
Definition logging_group : GroupOps (list (list Z)) Z :=
  @Build_GroupOps (list (list Z)) Z
    unit tt
    (λ _ _ w, w) (λ _ w, w) (λ _ w, w)
    (λ _ w, [] :: w)
    (λ _ _, tt) (λ _ _, tt) (λ _ _, tt) (λ _ _, tt)
    (λ _ _ w, w) (λ _ _ w, w) (λ _ _ w, w) (λ _ _ w, w)
    (λ _ _ v w, match w with
                | b :: w' => (b ++ [v]) :: w'
                | [] => [[v]]
                end)
    (list Z) [] (λ a b, a ++ b) (λ a _, a)
    (λ _ _ w, (w, []))
    (λ _ it_y _, [it_y]).

(** A net of two layers that has not run yet. *)
Definition new_net : @t (list (list Z)) Z logging_group :=
  @Build_t (list (list Z)) Z logging_group 0 tt tt tt tt [0; 1]%nat 0%nat 1%nat [].

(** Five samples of one value each, and their targets. *)
Definition five_samples : list (list Z) := [[10]; [11]; [12]; [13]; [14]].

End NeuralNet.

(** * Properties: outcomes and loops *)

Lemma bind_Done {A B} (m : outcome A) (f : A → outcome B) (b : B) :
  m ≫= f = Done b → ∃ a, m = Done a ∧ f a = Done b.
Proof. destruct m; simpl; intros; try discriminate. eauto. Qed.

Lemma BB_ASSERT_Done (v : bool) (u : unit) : BB_ASSERT v = Done u → v = true.
Proof. by destruct v. Qed.

Lemma vec_at_Done {A} (v : list A) (i : Z) (x : A) :
  vec_at v i = Done x → 0 ≤ i ∧ v !! Z.to_nat i = Some x.
Proof.
  unfold vec_at. destruct (Z.ltb_spec i 0); [done|].
  destruct (v !! Z.to_nat i); [|done]. intros [= ->]. done.
Qed.

(** Decompose a hypothesis [m ≫= f = Done b] as far as it goes. *)
Ltac inv_done H :=
  repeat match type of H with
  | (BB_ASSERT ?v ≫= _) = Done _ =>
      let u := fresh "u" in let Hv := fresh "Hassert" in
      apply bind_Done in H as (u & Hv & H); apply BB_ASSERT_Done in Hv
  | (_ ≫= _) = Done _ =>
      let a := fresh "a" in let Ha := fresh "Hrun" in
      apply bind_Done in H as (a & Ha & H)
  end.

Lemma for_each_ext {S} (l : list Z) (body1 body2 : Z → S → outcome S) (s : S) :
  (∀ i s, i ∈ l → body1 i s = body2 i s) →
  for_each l body1 s = for_each l body2 s.
Proof.
  revert s. induction l as [|i l IH]; intros s Hext; simpl; [done|].
  rewrite Hext by left. destruct (body2 i s); simpl; try done.
  apply IH. intros. apply Hext. by right.
Qed.

(** The invariant rule: [P done s] speaks about the iterations [done] already
    run, in order. *)
Lemma for_range_ind {S} (P : Z → S → Prop) (lo hi : Z)
    (body : Z → S → outcome S) (s s' : S) :
  P lo s →
  (∀ i s s', lo ≤ i < hi → P i s → body i s = Done s' → P (i + 1) s') →
  for_range lo hi body s = Done s' → P (Z.max lo hi) s'.
Proof.
  unfold for_range. remember (Z.to_nat (hi - lo)) as n eqn:Hn.
  revert lo s Hn. induction n as [|n IH]; intros lo s Hn H0 Hstep Hrun.
  - rewrite seqZ_nil in Hrun by lia. injection Hrun as <-.
    by replace (Z.max lo hi) with lo by lia.
  - rewrite seqZ_cons in Hrun by lia. simpl in Hrun.
    apply bind_Done in Hrun as (s1 & Hb & Hrun).
    replace (Z.max lo hi) with (Z.max (Z.succ lo) hi) by lia.
    apply (IH (Z.succ lo) s1); [lia| | |].
    + replace (Z.succ lo) with (lo + 1) by lia. eapply Hstep; eauto. lia.
    + intros i s2 s3 Hi. apply Hstep. lia.
    + by replace (hi - Z.succ lo) with (Z.pred (hi - lo)) by lia.
Qed.

(** A loop whose body always returns, returns. *)
Lemma for_range_total {S} (lo hi : Z) (body : Z → S → outcome S) (s : S) :
  (∀ i s, lo ≤ i < hi → ∃ s', body i s = Done s') →
  ∃ s', for_range lo hi body s = Done s'.
Proof.
  unfold for_range. intros Hb.
  assert (Hl : ∀ i, i ∈ seqZ lo (hi - lo) → lo ≤ i < hi)
    by (intros i Hi%elem_of_seqZ; lia).
  revert s Hl. induction (seqZ lo (hi - lo)) as [|i l IH]; intros s Hl; simpl; [eauto|].
  destruct (Hb i s) as [s1 ->]; [apply Hl; left|]. simpl.
  apply IH. intros. apply Hl. by right.
Qed.

Lemma for_range_ext {S} (lo hi : Z) (body1 body2 : Z → S → outcome S) (s : S) :
  (∀ i s, lo ≤ i < hi → body1 i s = body2 i s) →
  for_range lo hi body1 s = for_range lo hi body2 s.
Proof.
  intros Hext. apply for_each_ext. intros i s0 Hi%elem_of_seqZ. apply Hext. lia.
Qed.



Lemma vec_at_lookup {A : Type} (l : list A) (i : nat) (a : A) :
  l !! i = Some a → vec_at l (Z.of_nat i) = Done a.
Proof.
  intros Hi. unfold vec_at. destruct (Z.ltb_spec (Z.of_nat i) 0); [lia|].
  by rewrite Nat2Z.id, Hi.
Qed.

(** * Properties of the sparse connectivity generator *)

Module SparseLayerProofs.
Import SparseLayer.

Lemma row_ok_valid (L : layer) (t : table) (node : Z) :
  row_ok L t node → valid_row L t node.
Proof.
  intros [Hslots Hinj]. unfold valid_row, NodeInputs, GetNodeInput.
  set (n := GetNodeInputSize L node) in *.
  destruct (mapM (λ i, t !! (node, i)) (seqZ 0 n)) as [row|] eqn:Hrow.
  - apply mapM_Some in Hrow. exists row. split; [done|].
    split; [by rewrite <- (Forall2_length _ _ _ Hrow), length_seqZ|]. split.
    + apply Forall_forall. intros v [k Hk]%list_elem_of_lookup.
      destruct (Forall2_lookup_r _ _ _ _ _ Hrow Hk) as (i & Hi & Hv).
      apply lookup_seqZ in Hi as [-> Hlt].
      destruct (Hslots (0 + Z.of_nat k)) as (v' & Hv' & Hr); [lia|]. congruence.
    + apply NoDup_alt. intros k1 k2 v H1 H2.
      destruct (Forall2_lookup_r _ _ _ _ _ Hrow H1) as (i1 & Hi1 & Hv1).
      destruct (Forall2_lookup_r _ _ _ _ _ Hrow H2) as (i2 & Hi2 & Hv2).
      apply lookup_seqZ in Hi1 as [-> ?]. apply lookup_seqZ in Hi2 as [-> ?].
      assert (0 + Z.of_nat k1 = 0 + Z.of_nat k2) by (eapply Hinj; eauto; lia). lia.
  - exfalso. assert (Hsome : is_Some (mapM (λ i, t !! (node, i)) (seqZ 0 n))).
    { apply mapM_is_Some, Forall_forall. intros i Hi%elem_of_seqZ.
      destruct (Hslots i) as (v & Hv & _); [lia|]. simpl. rewrite Hv. eauto. }
    rewrite Hrow in Hsome. by destruct Hsome.
Qed.

Lemma row_ok_local (L : layer) : row_local (row_ok L).
Proof.
  intros node node' t t' Hkeep Hne [Hslots Hinj]. split.
  - intros i Hi. rewrite Hkeep by done. auto.
  - intros i j v Hi Hj. rewrite !Hkeep by done. eauto.
Qed.

Lemma other_rows_kept_refl (node : Z) (t : table) : other_rows_kept node t t.
Proof. by intros k _. Qed.

Lemma other_rows_kept_trans (node : Z) (t1 t2 t3 : table) :
  other_rows_kept node t1 t2 → other_rows_kept node t2 t3 →
  other_rows_kept node t1 t3.
Proof. intros H12 H23 k Hk. by rewrite H23, H12. Qed.

Lemma other_rows_kept_set (node i v : Z) (t : table) :
  other_rows_kept node t (SetNodeInput node i v t).
Proof.
  intros [n j] Hk. unfold SetNodeInput. apply lookup_insert_ne.
  intros [= -> ->]. by apply Hk.
Qed.

Lemma row_filled_local (L : layer) : row_local (row_filled L).
Proof.
  intros node node' t t' Hkeep Hne Hfilled i Hi. rewrite Hkeep by done. auto.
Qed.

Lemma rows_kept_refl (R : table → Z → Prop) (t : table) : rows_kept R t t.
Proof. by intros n. Qed.

Lemma rows_kept_trans (R : table → Z → Prop) (t1 t2 t3 : table) :
  rows_kept R t1 t2 → rows_kept R t2 t3 → rows_kept R t1 t3.
Proof. intros H12 H23 n Hn. auto. Qed.

(** Writing one row so that [R] holds of it keeps [R] wherever it held. *)
Lemma rows_kept_fill (R : table → Z → Prop) (node : Z) (t t' : table) :
  row_local R → other_rows_kept node t t' → R t' node → rows_kept R t t'.
Proof.
  intros Hlocal Hkeep Hnode n Hn. destruct (decide (n = node)) as [->|Hne]; [done|].
  eapply Hlocal; eauto.
Qed.

(** ** The serial strategy *)

Lemma foldr_add_init (a : Z) (l : list Z) :
  foldr Z.add a l = foldr Z.add 0 l + a.
Proof. induction l as [|x l IH]; simpl; lia. Qed.

Lemma serial_offset_succ (L : layer) (n : Z) :
  0 ≤ n →
  serial_offset L (n + 1) = serial_offset L n + Z.max 0 (GetNodeInputSize L n).
Proof.
  intros Hn. unfold serial_offset. rewrite seqZ_app by lia.
  rewrite fmap_app, foldr_app, foldr_add_init.
  rewrite (seqZ_cons (0 + n) 1) by lia. rewrite (seqZ_nil _ (Z.pred 1)) by lia.
  simpl. replace (0 + n) with n by lia. lia.
Qed.

Lemma serial_offset_nonneg (L : layer) (n : Z) : 0 ≤ serial_offset L n.
Proof.
  unfold serial_offset. induction (seqZ 0 n) as [|x l IH]; [done|].
  rewrite fmap_cons. cbn [foldr]. lia.
Qed.

Lemma serial_offset_const (L : layer) (N n : Z) :
  (∀ node, GetNodeInputSize L node = N) → 0 ≤ N → 0 ≤ n →
  serial_offset L n = n * N.
Proof.
  intros Hconst HN Hn. pattern n. apply natlike_ind; [done| |done].
  intros x Hx IH. unfold Z.succ. rewrite serial_offset_succ, IH, Hconst by done. lia.
Qed.

Lemma serial_row (L : layer) (node c0 : Z) (t : table) (st : Z * table) :
  for_range 0 (GetNodeInputSize L node) (λ i '(input_node, t),
      Done (input_node + 1,
            SetNodeInput node i (Z.rem input_node (input_count L)) t)) (c0, t)
    = Done st →
  st.1 = c0 + Z.max 0 (GetNodeInputSize L node)
  ∧ (∀ i, 0 ≤ i < GetNodeInputSize L node →
          st.2 !! (node, i) = Some (Z.rem (c0 + i) (input_count L)))
  ∧ other_rows_kept node t st.2.
Proof.
  intros Hrun.
  apply (for_range_ind (λ i (st : Z * table),
           st.1 = c0 + i
           ∧ (∀ j, 0 ≤ j < i → st.2 !! (node, j) = Some (Z.rem (c0 + j) (input_count L)))
           ∧ other_rows_kept node t st.2)) in Hrun.
  - destruct Hrun as (Hc & Hslots & Hkeep). split; [lia|]. split; [|done].
    intros i Hi. apply Hslots. lia.
  - simpl. split; [lia|]. split; [intros; lia | apply other_rows_kept_refl].
  - intros i [c t1] [c' t2] Hi (Hc & Hslots & Hkeep) [= <- <-]. simpl in *. subst c.
    split; [lia|]. split.
    + intros j Hj. unfold SetNodeInput. destruct (decide (j = i)) as [->|Hne].
      * by rewrite lookup_insert_eq.
      * rewrite lookup_insert_ne by congruence. apply Hslots. lia.
    + eapply other_rows_kept_trans; [done|apply other_rows_kept_set].
Qed.

Lemma connect_serial_slots (L : layer) (t0 t : table) :
  connect_serial L t0 = Done t →
  ∀ node i, 0 ≤ node < output_count L → 0 ≤ i < GetNodeInputSize L node →
    GetNodeInput t node i = Some (Z.rem (serial_offset L node + i) (input_count L)).
Proof.
  unfold connect_serial. cbv zeta. intros Hrun.
  apply bind_Done in Hrun as ([c t1] & Hrun & [= ->]).
  apply (for_range_ind (λ n (st : Z * table),
           st.1 = serial_offset L n
           ∧ ∀ node i, 0 ≤ node < n → 0 ≤ i < GetNodeInputSize L node →
               st.2 !! (node, i)
               = Some (Z.rem (serial_offset L node + i) (input_count L)))) in Hrun.
  - destruct Hrun as [_ Hslots]. intros node i Hnode Hi. apply Hslots; [|done].
    unfold output_count in Hnode. lia.
  - split; [done|]. intros; lia.
  - intros n [c1 t1'] st' Hn [Hc Hslots] Hrow. simpl in Hc. subst c1.
    apply serial_row in Hrow as (Hc' & Hnew & Hkeep). split.
    + rewrite Hc', serial_offset_succ; lia.
    + intros node i Hnode Hi. destruct (decide (node = n)) as [->|Hne].
      * by apply Hnew.
      * rewrite Hkeep by done. apply Hslots; [lia|done].
Qed.

Lemma connect_serial_returns (L : layer) (t0 : table) :
  ∃ t, connect_serial L t0 = Done t.
Proof.
  unfold connect_serial. cbv zeta.
  edestruct (for_range_total (S := Z * table)) as [[c t] ->]; [|by eexists].
  intros node st _. apply for_range_total. intros i [c t] _. eauto.
Qed.

(** ** Strategies that draw from a [ShuffleSet] *)

(** The inner loop shared by the strategies: slot [i] of [node] receives the
    value computed by [val i]. *)
Lemma fill_row (node n : Z) (val : Z → outcome Z) (t t' : table) :
  for_range 0 n (λ i t, v ← val i; Done (SetNodeInput node i v t)) t = Done t' →
  (∀ i, 0 ≤ i < n → ∃ v, val i = Done v ∧ t' !! (node, i) = Some v)
  ∧ other_rows_kept node t t'.
Proof.
  intros Hrun.
  apply (for_range_ind (λ k (t1 : table),
           (∀ i, 0 ≤ i < k → ∃ v, val i = Done v ∧ t1 !! (node, i) = Some v)
           ∧ other_rows_kept node t t1)) in Hrun.
  - destruct Hrun as [Hslots Hkeep]. split; [|done]. intros i Hi. apply Hslots. lia.
  - split; [intros; lia|apply other_rows_kept_refl].
  - intros k t1 t2 Hk [Hslots Hkeep] Hbody.
    apply bind_Done in Hbody as (v & Hv & [= <-]). split.
    + intros i Hi. unfold SetNodeInput. destruct (decide (i = k)) as [->|Hne].
      * exists v. by rewrite lookup_insert_eq.
      * rewrite lookup_insert_ne by congruence. apply Hslots. lia.
    + eapply other_rows_kept_trans; [done|apply other_rows_kept_set].
Qed.

(** A row filled from a set of distinct members of the pool through an
    injective map into the input nodes is a valid row. *)
Lemma row_from_set (L : layer) (node pool : Z) (g : Z → Z) (set : list Z)
    (t : table) :
  (∀ i, 0 ≤ i < GetNodeInputSize L node →
        ∃ ri, set !! Z.to_nat i = Some ri ∧ t !! (node, i) = Some (g ri)) →
  NoDup set → Forall (λ v, 0 ≤ v < pool) set →
  (∀ r, 0 ≤ r < pool → 0 ≤ g r < input_count L) →
  (∀ r r', 0 ≤ r < pool → 0 ≤ r' < pool → g r = g r' → r = r') →
  row_ok L t node.
Proof.
  intros Hslots Hnodup Hpool Hrange Hinj.
  assert (Hin : ∀ k r, set !! k = Some r → 0 ≤ r < pool).
  { intros k r Hk. eapply (proj1 (Forall_lookup _ _)) in Hpool; eauto. }
  split.
  - intros i Hi. destruct (Hslots i Hi) as (ri & Hri & Ht).
    exists (g ri). split; [done|]. eauto.
  - intros i j v Hi Hj Hti Htj.
    destruct (Hslots i Hi) as (ri & Hri & Ht1).
    destruct (Hslots j Hj) as (rj & Hrj & Ht2).
    assert (ri = rj) as <-. { apply Hinj; eauto. congruence. }
    assert (Z.to_nat i = Z.to_nat j) by (eapply NoDup_lookup; eauto). lia.
Qed.

(** One node served from a [ShuffleSet]: request a set, fill the row. *)
Lemma shuffled_node `{ShuffleSetOps} `{!ShuffleSetLaws} (L : layer)
    (node pool : Z) (g : Z → Z) (val : Z → outcome Z)
    (body : Z → table → outcome table) (ss : ShuffleSet) (t t' : table) :
  (∀ i t, body i t = v ← val i; Done (SetNodeInput node i v t)) →
  (∀ i v, val i = Done v →
     0 ≤ i ∧ ∃ ri, (GetRandomSet ss (GetNodeInputSize L node)).1 !! Z.to_nat i = Some ri
                   ∧ v = g ri) →
  (∀ r, 0 ≤ r < pool → 0 ≤ g r < input_count L) →
  (∀ r r', 0 ≤ r < pool → 0 ≤ r' < pool → g r = g r' → r = r') →
  ss_reachable pool ss → 0 ≤ GetNodeInputSize L node ≤ pool →
  for_range 0 (GetNodeInputSize L node) body t = Done t' →
  ss_reachable pool (GetRandomSet ss (GetNodeInputSize L node)).2
  ∧ rows_kept (row_ok L) t t' ∧ row_ok L t' node.
Proof.
  intros Hbody Hval Hrange Hinj Hreach Hfan Hrun.
  rewrite (for_range_ext _ _ _ _ _ (λ i t _, Hbody i t)) in Hrun.
  apply fill_row in Hrun as [Hslots Hkeep].
  destruct (random_set_distinct pool ss _ Hreach Hfan) as (Hlen & Hnodup & Hpool).
  assert (Hrow : row_ok L t' node).
  { eapply row_from_set; eauto. intros i Hi.
    destruct (Hslots i Hi) as (v & Hv & Ht).
    apply Hval in Hv as (_ & ri & Hri & ->). eauto. }
  split; [by constructor|]. split; [|done].
  apply (rows_kept_fill _ node); [apply row_ok_local|done|done].
Qed.

(** Loops over nodes: every iteration keeps the valid rows valid and makes
    the rows it covers valid. *)
Lemma for_range_cover {S : Type} (R : table → Z → Prop) (tbl : S → table)
    (Inv : S → Prop) (C : Z → Z → Prop) (lo hi : Z)
    (body : Z → S → outcome S) (s s' : S) :
  (∀ i s s', lo ≤ i < hi → Inv s → body i s = Done s' →
     Inv s' ∧ rows_kept R (tbl s) (tbl s') ∧ ∀ n, C i n → R (tbl s') n) →
  Inv s → for_range lo hi body s = Done s' →
  Inv s' ∧ rows_kept R (tbl s) (tbl s')
  ∧ ∀ i n, lo ≤ i < hi → C i n → R (tbl s') n.
Proof.
  intros Hstep H0 Hrun.
  apply (for_range_ind (λ k (st : S),
           Inv st ∧ rows_kept R (tbl s) (tbl st)
           ∧ ∀ i n, lo ≤ i < k → C i n → R (tbl st) n)) in Hrun.
  - destruct Hrun as (HI & Hkeep & Hcov). split; [done|]. split; [done|].
    intros i n Hi. apply Hcov. lia.
  - split; [done|]. split; [apply rows_kept_refl|intros; lia].
  - intros k s1 s2 Hk (HI & Hkeep & Hcov) Hbody.
    destruct (Hstep k s1 s2 Hk HI Hbody) as (HI' & Hkeep' & Hnew).
    split; [done|]. split; [eapply rows_kept_trans; eauto|].
    intros i n Hi HC. destruct (decide (i = k)) as [->|Hne]; [auto|].
    apply Hkeep'. apply (Hcov i n); [lia|done].
Qed.

Section Random.
Context `{Numerics} `{ShuffleSetOps} `{!ShuffleSetLaws}.

Lemma connect_random_rows (L : layer) (seed : Z) (t0 t : table) :
  (∀ node, 0 ≤ node < output_count L →
           0 ≤ GetNodeInputSize L node ≤ input_count L) →
  connect_random L seed t0 = Done t →
  ∀ node, 0 ≤ node < output_count L → row_ok L t node.
Proof.
  intros Hfan. unfold connect_random. cbv zeta. intros Hrun.
  apply bind_Done in Hrun as ([ss t1] & Hrun & [= ->]).
  intros node Hnode.
  apply (for_range_cover (row_ok L) snd (λ st, ss_reachable (input_count L) st.1)
           (λ i n, n = i)) in Hrun.
  - destruct Hrun as (_ & _ & Hcov). by apply (Hcov node).
  - intros n [ss1 t1] [ss2 t2] Hn Hreach Hbody. simpl in *.
    destruct (GetRandomSet ss1 (GetNodeInputSize L n)) as [set ss'] eqn:Hget.
    apply bind_Done in Hbody as (t3 & Hfill & [= <- <-]).
    assert (Hfan' : 0 ≤ GetNodeInputSize L n ≤ input_count L)
      by (apply Hfan; unfold output_count; lia).
    eapply (shuffled_node L n (input_count L) (λ r, r) (λ i, vec_at set i))
      in Hfill as (Hreach' & Hkeep & Hrow); [|done| |lia|lia|done|done].
    { rewrite Hget in Hreach'. split; [done|]. split; [done|]. by intros ? ->. }
    rewrite Hget. intros i v Hv. apply vec_at_Done in Hv as [? ?]. eauto.
  - simpl. constructor.
Qed.

End Random.

(** ** Three-dimensional shapes *)

Lemma shape3_inv (shape : list Z) :
  (length shape =? 3)%nat = true → ∃ a b c, shape = [a; b; c].
Proof.
  intros Hlen%Nat.eqb_eq. destruct shape as [|a [|b [|c [|]]]]; try discriminate.
  eauto.
Qed.

Lemma shape3_size (a b c : Z) : GetShapeSize [a; b; c] = a * b * c.
Proof. simpl. ring. Qed.

Lemma shape3_index (a b c x y z : Z) :
  GetShapeIndex [x; y; z] [a; b; c] = x + a * y + a * b * z.
Proof. simpl. ring. Qed.

Lemma shape3_cover (a b c node : Z) :
  0 ≤ a → 0 ≤ b → 0 ≤ c → 0 ≤ node < GetShapeSize [a; b; c] →
  ∃ x y z, 0 ≤ x < a ∧ 0 ≤ y < b ∧ 0 ≤ z < c
           ∧ node = GetShapeIndex [x; y; z] [a; b; c].
Proof.
  rewrite shape3_size. setoid_rewrite shape3_index. intros Ha Hb Hc Hnode.
  assert (0 < a) by (destruct (decide (a = 0)) as [->|]; lia).
  assert (0 < b) by (destruct (decide (b = 0)) as [->|]; lia).
  exists (node `mod` a), ((node `div` a) `mod` b), ((node `div` a) `div` b).
  pose proof (Z.mod_pos_bound node a ltac:(lia)).
  pose proof (Z.mod_pos_bound (node `div` a) b ltac:(lia)).
  pose proof (Z.div_mod node a ltac:(lia)).
  pose proof (Z.div_mod (node `div` a) b ltac:(lia)).
  assert (0 ≤ node `div` a) by (apply Z.div_pos; lia).
  assert (0 ≤ (node `div` a) `div` b) by (apply Z.div_pos; lia).
  assert ((node `div` a) `div` b < c).
  { apply Z.div_lt_upper_bound; [lia|]. apply Z.div_lt_upper_bound; [lia|]. lia. }
  repeat split; lia.
Qed.

Lemma shape3_range (a b c x y z : Z) :
  0 ≤ x < a → 0 ≤ y < b → 0 ≤ z < c →
  0 ≤ GetShapeIndex [x; y; z] [a; b; c] < GetShapeSize [a; b; c].
Proof.
  rewrite shape3_size, shape3_index. intros Hx Hy Hz.
  assert (0 ≤ a * y) by (apply Z.mul_nonneg_nonneg; lia).
  assert (a * y ≤ a * (b - 1)) by (apply Z.mul_le_mono_nonneg_l; lia).
  assert (0 ≤ a * b) by (apply Z.mul_nonneg_nonneg; lia).
  assert (0 ≤ a * b * z) by (apply Z.mul_nonneg_nonneg; lia).
  assert (a * b * z ≤ a * b * (c - 1)) by (apply Z.mul_le_mono_nonneg_l; lia).
  lia.
Qed.

Lemma shape3_channel_inj (a b c x y z z' : Z) :
  0 ≤ x < a → 0 ≤ y < b →
  GetShapeIndex [x; y; z] [a; b; c] = GetShapeIndex [x; y; z'] [a; b; c] →
  z = z'.
Proof.
  rewrite !shape3_index. intros Hx Hy Heq.
  assert (0 < a * b) by (apply Z.mul_pos_pos; lia).
  assert (a * b * z = a * b * z') as Hz by lia.
  apply Z.mul_reg_l in Hz; lia.
Qed.

(** The depthwise generator decodes a flattened spatial position. *)
Lemma shape3_spatial (a b c r z : Z) :
  0 < a → 0 ≤ r →
  GetShapeIndex [Z.rem r a; Z.quot r a; z] [a; b; c] = r + a * b * z.
Proof.
  rewrite shape3_index. intros Ha Hr.
  rewrite Z.rem_mod_nonneg, Z.quot_div_nonneg by lia.
  pose proof (Z.div_mod r a ltac:(lia)). lia.
Qed.

Section Shuffled3D.
Context `{Numerics} `{ShuffleSetOps} `{!ShuffleSetLaws}.

Lemma connect_pointwise_rows (L : layer) (seed : Z) (t0 t : table) :
  Forall (Z.le 0) (GetOutputShape L) →
  (∀ node, 0 ≤ node < output_count L →
           0 ≤ GetNodeInputSize L node ≤ nth 2 (GetInputShape L) 0) →
  connect_pointwise L seed t0 = Done t →
  ∀ node, 0 ≤ node < output_count L → row_ok L t node.
Proof.
  unfold connect_pointwise, output_count, SetNodeInput_indices. cbv zeta.
  intros Hnonneg Hfan Hrun. inv_done Hrun.
  apply shape3_inv in Hassert as (in0 & in1 & in2 & Hin).
  apply shape3_inv in Hassert0 as (out0 & out1 & out2 & Hout).
  rewrite Hin, Hout in *.
  repeat match goal with
         | Hv : vec_at _ _ = Done _ |- _ => apply vec_at_Done in Hv as [_ [= <-]]
         end.
  apply Z.eqb_eq in Hassert1, Hassert2. subst out0 out1.
  match goal with
  | Hl : for_range 0 _ _ _ = Done ?a |- _ => rename Hl into Hloop; destruct a as [mt t1]
  end.
  injection Hrun as ->.
  apply Forall_cons in Hnonneg as [Hd0 Hnonneg].
  apply Forall_cons in Hnonneg as [Hd1 Hnonneg].
  apply Forall_cons in Hnonneg as [Hd2 _].
  intros node Hnode.
  destruct (shape3_cover in0 in1 out2 node) as (x & y & c & Hx & Hy & Hc & ->);
    [done..|].
  simpl (nth _ _ _) in Hfan.
  apply (for_range_cover (row_ok L) snd (λ _, True)
           (λ y n, ∃ x c, 0 ≤ x < in0 ∧ 0 ≤ c < out2
                          ∧ n = GetShapeIndex [x; y; c] [in0; in1; out2]))
    in Hloop.
  { destruct Hloop as (_ & _ & Hcov). apply (Hcov y); [lia|]. eauto. }
  2: done.
  clear x y c Hx Hy Hc Hnode Hloop.
  intros y s s' Hy _ Hrun.
  apply (for_range_cover (row_ok L) snd (λ _, True)
           (λ x n, ∃ c, 0 ≤ c < out2
                        ∧ n = GetShapeIndex [x; y; c] [in0; in1; out2])) in Hrun.
  { destruct Hrun as (_ & Hkeep & Hcov). split; [done|]. split; [done|].
    intros n (x & c & Hx & Hc & ->). apply (Hcov x); [lia|]. eauto. }
  2: done.
  clear Hrun. intros x [mt2 t2] [mt' t'] Hx _ Hrun.
  destruct (mt_next mt2) as [r mt3].
  apply bind_Done in Hrun as ([ss t4] & Hrun & [= <- <-]). simpl.
  apply (for_range_cover (row_ok L) snd (λ st, ss_reachable in2 st.1)
           (λ c n, n = GetShapeIndex [x; y; c] [in0; in1; out2])) in Hrun.
  { destruct Hrun as (_ & Hkeep & Hcov). split; [done|]. split; [done|].
    intros n (c & Hc & ->). by apply (Hcov c). }
  2: constructor.
  clear Hrun. intros c [ss3 t3] [ss' t''] Hc Hreach Hrun. simpl in *.
  set (node := x + in0 * (y + in1 * (c + out2 * 0))) in *.
  destruct (GetRandomSet ss3 (GetNodeInputSize L node)) as [set ss4] eqn:Hget.
  apply bind_Done in Hrun as (t5 & Hfill & [= <- <-]).
  assert (Hfan' : 0 ≤ GetNodeInputSize L node ≤ in2).
  { apply Hfan. apply (shape3_range in0 in1 out2 x y c); lia. }
  eapply (shuffled_node L node in2
            (λ r, GetShapeIndex [x; y; r] [in0; in1; in2])
            (λ i, ri ← vec_at set i; Done (GetShapeIndex [x; y; ri] [in0; in1; in2])))
    in Hfill as (Hreach' & Hkeep & Hrow); [| | |..|done|done].
  - rewrite Hget in Hreach'. split; [done|]. split; [done|]. by intros ? ->.
  - intros i tx. by destruct (vec_at set i).
  - rewrite Hget. intros i v Hv. apply bind_Done in Hv as (ri & Hri & [= <-]).
    apply vec_at_Done in Hri as [? ?]. eauto.
  - intros q Hq. unfold input_count. rewrite Hin.
    apply (shape3_range in0 in1 in2 x y q); lia.
  - intros q q' _ _. apply shape3_channel_inj; lia.
Qed.

Lemma connect_depthwise_rows (L : layer) (seed : Z) (t0 t : table) :
  Forall (Z.le 0) (GetInputShape L) →
  Forall (Z.le 0) (GetOutputShape L) →
  (∀ node, 0 ≤ node < output_count L →
           0 ≤ GetNodeInputSize L node
             ≤ nth 0 (GetInputShape L) 0 * nth 1 (GetInputShape L) 0) →
  connect_depthwise L seed t0 = Done t →
  ∀ node, 0 ≤ node < output_count L → row_ok L t node.
Proof.
  unfold connect_depthwise, output_count. cbv zeta.
  intros Hnonneg_in Hnonneg Hfan Hrun. inv_done Hrun.
  apply shape3_inv in Hassert as (in0 & in1 & in2 & Hin).
  apply shape3_inv in Hassert0 as (out0 & out1 & out2 & Hout).
  rewrite Hin, Hout in *.
  repeat match goal with
         | Hv : vec_at _ _ = Done _ |- _ => apply vec_at_Done in Hv as [_ [= <-]]
         end.
  apply Z.eqb_eq in Hassert1. subst out2.
  match goal with
  | Hl : for_range 0 _ _ _ = Done ?a |- _ => rename Hl into Hloop; destruct a as [mt t1]
  end.
  injection Hrun as ->.
  apply Forall_cons in Hnonneg as [Hd0 Hnonneg].
  apply Forall_cons in Hnonneg as [Hd1 Hnonneg].
  apply Forall_cons in Hnonneg as [Hd2 _].
  apply Forall_cons in Hnonneg_in as [Hi0 Hnonneg_in].
  apply Forall_cons in Hnonneg_in as [Hi1 _].
  intros node Hnode.
  destruct (shape3_cover out0 out1 in2 node) as (x & y & c & Hx & Hy & Hc & ->);
    [done..|].
  simpl (nth _ _ _) in Hfan.
  apply (for_range_cover (row_ok L) snd (λ _, True)
           (λ c n, ∃ x y, 0 ≤ x < out0 ∧ 0 ≤ y < out1
                          ∧ n = GetShapeIndex [x; y; c] [out0; out1; in2]))
    in Hloop.
  { destruct Hloop as (_ & _ & Hcov). apply (Hcov c); [lia|]. eauto. }
  2: done.
  clear x y c Hx Hy Hc Hnode Hloop.
  intros c [mt2 t2] [mt' t'] Hc _ Hrun.
  destruct (mt_next mt2) as [r mt3].
  apply bind_Done in Hrun as ([ss t4] & Hrun & [= <- <-]). simpl.
  apply (for_range_cover (row_ok L) snd (λ st, ss_reachable (in0 * in1) st.1)
           (λ y n, ∃ x, 0 ≤ x < out0
                        ∧ n = GetShapeIndex [x; y; c] [out0; out1; in2])) in Hrun.
  { destruct Hrun as (_ & Hkeep & Hcov). split; [done|]. split; [done|].
    intros n (x & y & Hx & Hy & ->). apply (Hcov y); [lia|]. eauto. }
  2: constructor.
  clear Hrun. intros y s s' Hy Hreach Hrun.
  apply (for_range_cover (row_ok L) snd (λ st, ss_reachable (in0 * in1) st.1)
           (λ x n, n = GetShapeIndex [x; y; c] [out0; out1; in2])) in Hrun.
  { destruct Hrun as (Hreach' & Hkeep & Hcov). split; [done|]. split; [done|].
    intros n (x & Hx & ->). by apply (Hcov x). }
  2: done.
  clear Hrun Hreach. intros x [ss3 t3] [ss' t''] Hx Hreach Hrun. simpl in Hreach.
  set (node := GetShapeIndex [x; y; c] [out0; out1; in2]) in *.
  destruct (GetRandomSet ss3 (GetNodeInputSize L node)) as [set ss4] eqn:Hget.
  apply bind_Done in Hrun as (t5 & Hfill & [= <- <-]).
  assert (Hfan' : 0 ≤ GetNodeInputSize L node ≤ in0 * in1).
  { apply Hfan. apply (shape3_range out0 out1 in2 x y c); lia. }
  eapply (shuffled_node L node (in0 * in1)
            (λ q, GetShapeIndex [Z.rem q in0; Z.quot q in0; c] [in0; in1; in2])
            (λ i, ri ← vec_at set i;
                  BB_ASSERT ((0 <=? node) && (node <? GetShapeSize [out0; out1; in2]));;
                  BB_ASSERT
                    ((0 <=? GetShapeIndex [Z.rem ri in0; Z.quot ri in0; c] [in0; in1; in2])
                     && (GetShapeIndex [Z.rem ri in0; Z.quot ri in0; c] [in0; in1; in2]
                         <? GetShapeSize [in0; in1; in2]));;
                  Done (GetShapeIndex [Z.rem ri in0; Z.quot ri in0; c] [in0; in1; in2])))
    in Hfill as (Hreach' & Hkeep & Hrow); [| | |..|done|done].
  - rewrite Hget in Hreach'. split; [done|]. split; [done|]. by intros ? ->.
  - intros i tx. destruct (vec_at set i); simpl; try done.
    repeat (destruct (BB_ASSERT _); simpl; try done).
  - rewrite Hget. intros i v Hv. apply bind_Done in Hv as (ri & Hri & Hv).
    inv_done Hv. injection Hv as <-.
    apply vec_at_Done in Hri as [? ?]. eauto.
  - intros q Hq. unfold input_count. rewrite Hin.
    assert (0 < in0) by (destruct (decide (in0 = 0)) as [->|]; lia).
    rewrite shape3_spatial, shape3_size by lia.
    assert (in0 * in1 * c ≤ in0 * in1 * (in2 - 1))
      by (apply Z.mul_le_mono_nonneg_l; lia).
    assert (0 ≤ in0 * in1 * c) by (apply Z.mul_nonneg_nonneg; lia).
    lia.
  - intros q q' Hq Hq'.
    assert (0 < in0) by (destruct (decide (in0 = 0)) as [->|]; lia).
    rewrite !shape3_spatial by lia. lia.
Qed.

End Shuffled3D.

(** ** Coordinates inside a shape *)

Lemma GetShapeSize_nonneg (shape : list Z) :
  Forall (Z.le 0) shape → 0 ≤ GetShapeSize shape.
Proof.
  induction 1 as [|d shape Hd _ IH]; simpl; [lia|].
  apply Z.mul_nonneg_nonneg; lia.
Qed.

Lemma shape_positive (shape : list Z) :
  Forall (Z.le 0) shape → 0 < GetShapeSize shape → Forall (Z.lt 0) shape.
Proof.
  induction 1 as [|d shape Hd Hrest IH]; simpl; intros Hpos; [constructor|].
  pose proof (GetShapeSize_nonneg shape Hrest).
  assert (0 < d) by (destruct (decide (d = 0)) as [->|]; lia).
  constructor; [done|]. apply IH.
  destruct (decide (GetShapeSize shape = 0)) as [Hz|]; [|lia].
  rewrite Hz in Hpos. lia.
Qed.

Lemma GetShapeIndex_range (indices shape : list Z) :
  valid_indices indices shape →
  0 ≤ GetShapeIndex indices shape < GetShapeSize shape.
Proof.
  induction 1 as [|i d indices shape Hi _ IH]; simpl; [lia|].
  assert (0 ≤ d * GetShapeIndex indices shape) by (apply Z.mul_nonneg_nonneg; lia).
  assert (d * GetShapeIndex indices shape ≤ d * (GetShapeSize shape - 1))
    by (apply Z.mul_le_mono_nonneg_l; lia).
  lia.
Qed.

Lemma origin_valid (shape : list Z) :
  Forall (Z.lt 0) shape → valid_indices (replicate (length shape) 0) shape.
Proof. induction 1; simpl; constructor; [lia|done]. Qed.

Lemma origin_index (n : nat) (shape : list Z) :
  GetShapeIndex (replicate n 0) shape = 0.
Proof.
  revert shape. induction n as [|n IH]; intros [|d shape]; simpl; try done.
  rewrite IH. lia.
Qed.

Lemma GetNextIndices_more (indices shape next : list Z) :
  valid_indices indices shape →
  GetNextIndices indices shape = (true, next) →
  valid_indices next shape
  ∧ GetShapeIndex next shape = GetShapeIndex indices shape + 1.
Proof.
  intros Hvalid. revert next.
  induction Hvalid as [|i d indices shape Hi Hvalid IH]; intros next; simpl; [done|].
  destruct (Z.ltb_spec (i + 1) d).
  - intros [= <-]. split; [constructor; [lia|done]|]. simpl. lia.
  - destruct (GetNextIndices indices shape) as [more next'].
    intros [= -> <-]. destruct (IH next' eq_refl) as [Hv Hidx].
    split; [constructor; [lia|done]|]. simpl. rewrite Hidx. lia.
Qed.

Lemma GetNextIndices_last (indices shape next : list Z) :
  valid_indices indices shape →
  GetNextIndices indices shape = (false, next) →
  GetShapeIndex indices shape = GetShapeSize shape - 1.
Proof.
  intros Hvalid. revert next.
  induction Hvalid as [|i d indices shape Hi Hvalid IH]; intros next; simpl; [done|].
  destruct (Z.ltb_spec (i + 1) d); [done|].
  destruct (GetNextIndices indices shape) as [more next'].
  intros [= -> <-]. rewrite (IH next' eq_refl). lia.
Qed.

(** ** The gauss strategy *)

Section Gauss.
Context `{Numerics} `{!RegurerlizeLaws}.
Variable L : layer.

Lemma gauss_step_sigma_length (ins outs : list Z) (ss : list (double * double)) :
  gauss_step_sigma ins outs = Done ss → length ss = length ins.
Proof.
  revert outs ss. induction ins as [|a ins IH]; intros outs ss; simpl.
  - by intros [= <-].
  - destruct outs as [|b outs]; [done|]. intros Hrun.
    apply bind_Done in Hrun as (rest & Hrest & [= <-]). simpl. f_equal. eauto.
Qed.

Lemma gauss_position_length (input_offset sigma : list double) (ns : normal_state) :
  length input_offset = length sigma →
  length (gauss_position input_offset sigma ns).1 = length sigma.
Proof.
  revert sigma ns. induction input_offset as [|o os IH]; intros [|sg sgs] ns;
    simpl; try done.
  intros [= Hlen]. destruct (norm_dist ns) as [z ns1].
  specialize (IH sgs ns1 Hlen).
  destruct (gauss_position os sgs ns1) as [rest ns2]. simpl in *. by f_equal.
Qed.

Lemma gauss_pick_fresh (fuel : nat) (s : gset Z) (input_offset sigma : list double)
    (ns ns' : normal_state) (v : Z) :
  length input_offset = length sigma →
  length sigma = length (GetInputShape L) →
  Forall (Z.lt 0) (GetInputShape L) →
  gauss_pick L fuel s input_offset sigma ns = Done (v, ns') →
  (v ∉ s) ∧ (0 ≤ v < input_count L).
Proof.
  intros Hlen1 Hlen2 Hpos. revert ns.
  induction fuel as [|fuel IH]; intros ns; simpl; [done|].
  pose proof (gauss_position_length input_offset sigma ns Hlen1) as Hlen.
  destruct (gauss_position input_offset sigma ns) as [position ns1].
  simpl in Hlen. case_decide as Hin; [by apply IH|].
  intros [= <- <-]. split; [done|].
  apply GetShapeIndex_range, regurerlize_valid; [congruence|done].
Qed.

Lemma gauss_node_row (fuel : nat) (step sigma : list double)
    (output_index : list Z) (st st' : normal_state * table) :
  length output_index = length step →
  length step = length sigma →
  length sigma = length (GetInputShape L) →
  Forall (Z.le 0) (GetInputShape L) →
  GetNodeInputSize L (GetShapeIndex output_index (GetOutputShape L)) ≤ input_count L →
  gauss_node L fuel step sigma output_index st = Done st' →
  rows_kept (row_ok L) st.2 st'.2
  ∧ row_ok L st'.2 (GetShapeIndex output_index (GetOutputShape L)).
Proof.
  intros Hlen0 Hlen1 Hlen2 Hnonneg Hfan. unfold gauss_node. cbv zeta.
  set (node := GetShapeIndex output_index (GetOutputShape L)) in *.
  set (offs := zip_with _ output_index step).
  assert (Hoffs : length offs = length sigma).
  { unfold offs. rewrite length_zip_with. lia. }
  intros Hrun. apply bind_Done in Hrun as ([[ns s] t'] & Hrun & [= <-]). simpl.
  apply (for_range_ind (λ k (x : normal_state * gset Z * table),
           (∀ i, 0 ≤ i < k → ∃ v, x.2 !! (node, i) = Some v ∧ v ∈ x.1.2
                                  ∧ 0 ≤ v < input_count L)
           ∧ (∀ i j v, 0 ≤ i < k → 0 ≤ j < k →
                x.2 !! (node, i) = Some v → x.2 !! (node, j) = Some v → i = j)
           ∧ other_rows_kept node st.2 x.2)) in Hrun.
  - simpl in Hrun. destruct Hrun as (Hslots & Hinj & Hkeep).
    assert (Hrow : row_ok L t' node).
    { split.
      - intros i Hi. destruct (Hslots i) as (v & Hv & _ & Hr); [lia|]. eauto.
      - intros i j v Hi Hj. apply Hinj; lia. }
    split; [|done]. apply (rows_kept_fill _ node); [apply row_ok_local|done|done].
  - simpl. split; [intros; lia|]. split; [intros; lia|apply other_rows_kept_refl].
  - intros k [[ns1 s1] t1] x' Hk (Hslots & Hinj & Hkeep) Hbody. simpl in *.
    apply bind_Done in Hbody as ([v ns2] & Hpick & [= <-]). simpl.
    apply gauss_pick_fresh in Hpick as [Hfresh Hrange]; [|done|done|].
    2:{ apply shape_positive; [done|]. unfold input_count in Hfan. lia. }
    unfold SetNodeInput. split; [|split].
    + intros i Hi. destruct (decide (i = k)) as [->|Hne].
      * exists v. rewrite lookup_insert_eq. split; [done|].
        split; [apply elem_of_union_l; by apply elem_of_singleton|done].
      * rewrite lookup_insert_ne by congruence.
        destruct (Hslots i) as (w & Hw & Hws & Hwr); [lia|].
        exists w. split; [done|]. split; [by apply elem_of_union_r|done].
    + intros i j w Hi Hj.
      destruct (decide (i = k)) as [->|Hi'], (decide (j = k)) as [->|Hj'];
        rewrite ?lookup_insert_eq, ?lookup_insert_ne by congruence; [done| | |].
      * intros [= <-] Hj2. destruct (Hslots j) as (w & Hw & Hws & _); [lia|].
        congruence.
      * intros Hi2 [= <-]. destruct (Hslots i) as (w & Hw & Hws & _); [lia|].
        congruence.
      * apply Hinj; lia.
    + eapply other_rows_kept_trans; [done|]. apply (other_rows_kept_set node k v t1).
Qed.

Lemma gauss_nodes_rows (fuel : nat) (step sigma : list double)
    (output_index : list Z) (st st' : normal_state * table) :
  length output_index = length step →
  length step = length sigma →
  length sigma = length (GetInputShape L) →
  Forall (Z.le 0) (GetInputShape L) →
  (∀ node, 0 ≤ node < output_count L → GetNodeInputSize L node ≤ input_count L) →
  valid_indices output_index (GetOutputShape L) →
  gauss_nodes L fuel step sigma output_index st = Done st' →
  rows_kept (row_ok L) st.2 st'.2
  ∧ ∀ node, GetShapeIndex output_index (GetOutputShape L) ≤ node < output_count L →
            row_ok L st'.2 node.
Proof.
  intros Hlen0 Hlen1 Hlen2 Hnonneg Hfan. revert output_index st Hlen0.
  induction fuel as [|fuel IH]; intros output_index st Hlen0 Hvalid; simpl; [done|].
  intros Hrun. apply bind_Done in Hrun as (st1 & Hnode & Hrun).
  pose proof (GetShapeIndex_range _ _ Hvalid) as Hrange.
  apply gauss_node_row in Hnode as [Hkeep Hrow]; [|done..|by apply Hfan].
  destruct (GetNextIndices output_index (GetOutputShape L)) as [[] next] eqn:Hnext.
  - apply GetNextIndices_more in Hnext as [Hvalid' Hidx]; [|done].
    apply IH in Hrun as [Hkeep' Hcov]; [| |done].
    2:{ apply Forall2_length in Hvalid, Hvalid'. congruence. }
    split; [eapply rows_kept_trans; eauto|].
    intros node Hn.
    destruct (decide (node = GetShapeIndex output_index (GetOutputShape L)))
      as [->|Hne]; [by apply Hkeep'|].
    apply Hcov. lia.
  - injection Hrun as <-. apply GetNextIndices_last in Hnext; [|done].
    split; [done|]. intros node Hn. unfold output_count in Hn.
    by replace node with (GetShapeIndex output_index (GetOutputShape L)) by lia.
Qed.

Lemma connect_gauss_rows (fuel : nat) (seed : Z) (t0 t : table) :
  length (GetInputShape L) = length (GetOutputShape L) →
  Forall (Z.le 0) (GetInputShape L) →
  Forall (Z.le 0) (GetOutputShape L) →
  (∀ node, 0 ≤ node < output_count L → GetNodeInputSize L node ≤ input_count L) →
  connect_gauss L fuel seed t0 = Done t →
  ∀ node, 0 ≤ node < output_count L → row_ok L t node.
Proof.
  intros Hrank Hin Hout Hfan. unfold connect_gauss. cbv zeta. intros Hrun.
  apply bind_Done in Hrun as (ss & Hss & Hrun).
  apply bind_Done in Hrun as ([ns t1] & Hrun & [= ->]).
  apply gauss_step_sigma_length in Hss.
  intros node Hnode.
  assert (Hpos : Forall (Z.lt 0) (GetOutputShape L)).
  { apply shape_positive; [done|]. unfold output_count in Hnode. lia. }
  apply gauss_nodes_rows in Hrun as [_ Hcov];
    rewrite ?length_fmap, ?length_replicate; try done.
  - apply Hcov. rewrite origin_index. lia.
  - rewrite Hrank. by apply origin_valid.
Qed.

End Gauss.

(** ** Consecutive residues *)

Lemma mod_window_inj (a i j M : Z) :
  0 < M → - M < i - j < M → (a + i) `mod` M = (a + j) `mod` M → i = j.
Proof.
  intros HM Hwin Heq.
  pose proof (Z.div_mod (a + i) M ltac:(lia)) as Hi.
  pose proof (Z.div_mod (a + j) M ltac:(lia)) as Hj.
  rewrite Heq in Hi.
  assert (i - j = M * ((a + i) `div` M - (a + j) `div` M)) as Hd by lia.
  assert ((a + i) `div` M - (a + j) `div` M = 0) by nia.
  lia.
Qed.

Lemma connect_serial_rows (L : layer) (t0 t : table) :
  (∀ node, 0 ≤ node < output_count L → GetNodeInputSize L node ≤ input_count L) →
  connect_serial L t0 = Done t →
  ∀ node, 0 ≤ node < output_count L → row_ok L t node.
Proof.
  intros Hfan Hrun node Hnode.
  pose proof (connect_serial_slots L t0 t Hrun node) as Hslots.
  unfold GetNodeInput in Hslots. specialize (Hfan node Hnode).
  pose proof (serial_offset_nonneg L node) as Hoff.
  split.
  - intros i Hi. eexists. split; [by apply Hslots|].
    rewrite Z.rem_mod_nonneg by lia. apply Z.mod_pos_bound. lia.
  - intros i j v Hi Hj. rewrite !Hslots by done. intros [= <-].
    rewrite !Z.rem_mod_nonneg by lia. intros [= Heq].
    symmetry in Heq. apply mod_window_inj in Heq; lia.
Qed.

(** ** Connection-table validity *)

(** The stand-in instances meet the contracts. *)

Lemma rotating_size (size : Z) (ss : Z * Z) :
  @ss_reachable rotating_shuffle size ss → ss.1 = size.
Proof. induction 1; done. Qed.

#[local] Instance rotating_shuffle_laws : @ShuffleSetLaws rotating_shuffle.
Proof.
  intros size ss n Hreach Hn. apply rotating_size in Hreach.
  destruct ss as [sz off]. simpl in *. subst sz. unfold rotating_get. simpl.
  split; [by rewrite length_fmap, length_seqZ|]. split.
  - apply NoDup_fmap_2_strong; [|apply NoDup_seqZ].
    intros i j Hi%elem_of_seqZ Hj%elem_of_seqZ Heq.
    apply mod_window_inj in Heq; lia.
  - apply Forall_fmap, Forall_seqZ. intros k Hk. simpl.
    apply Z.mod_pos_bound. lia.
Qed.

#[local] Instance lcg_random_laws : @RegurerlizeLaws lcg_random.
Proof.
  intros position shape Hlen Hpos. simpl. revert position Hlen.
  induction Hpos as [|d shape Hd _ IH]; intros [|p position]; simpl; try done.
  - constructor.
  - intros [= Hlen]. constructor; [unfold clamp_index; lia|by apply IH].
Qed.

(** C1 (as amended): whatever the strategy, once [InitializeNodeInput] has
    returned, the row of every output node has exactly as many entries as
    the node's fan-in, every entry is an input node, and no entry occurs
    twice -- provided the shapes have non-negative extents, no node's fan-in
    exceeds the number of candidates its strategy draws from, and gauss is
    given input and output shapes of the same rank. *)
Theorem connection_table_valid `{Numerics} `{ShuffleSetOps}
    `{!ShuffleSetLaws} `{!RegurerlizeLaws}
    (L : layer) (fuel : nat) (seed : Z) (connection : string) (t0 t : table) :
  Forall (Z.le 0) (GetInputShape L) →
  Forall (Z.le 0) (GetOutputShape L) →
  (argv0_is (SplitString connection) "gauss" = true →
   length (GetInputShape L) = length (GetOutputShape L)) →
  (∀ node, 0 ≤ node < output_count L →
           0 ≤ GetNodeInputSize L node ≤ draw_pool L connection) →
  InitializeNodeInput L fuel seed connection t0 = Done t →
  ∀ node, 0 ≤ node < output_count L → valid_row L t node.
Proof.
  intros Hin Hout Hrank Hfan Hrun node Hnode. apply row_ok_valid.
  revert Hfan Hrun. unfold InitializeNodeInput, draw_pool. cbv zeta.
  destruct (argv0_is _ "pointwise").
  { intros Hfan Hrun. eapply connect_pointwise_rows; eauto. }
  destruct (argv0_is _ "depthwise").
  { intros Hfan Hrun. eapply connect_depthwise_rows; eauto. }
  destruct (argv0_is _ "gauss").
  { intros Hfan Hrun. eapply connect_gauss_rows; eauto.
    intros n Hn. by apply Hfan. }
  destruct (argv0_is _ "serial").
  { intros Hfan Hrun. eapply connect_serial_rows; eauto.
    intros n Hn. by apply Hfan. }
  destruct (_ || _); [|done].
  intros Hfan Hrun. eapply connect_random_rows; eauto.
Qed.

(** Six inputs, three nodes of fan-in two, wired by the gauss strategy with
    the stand-in instances: the generator returns, and the row of node 1 is
    valid. *)
Lemma connection_table_valid_witness :
  ∃ t, @InitializeNodeInput lcg_random rotating_shuffle (flat_layer 6 3 2) 64 7 "gauss" ∅
       = Done t
       ∧ valid_row (flat_layer 6 3 2) t 1.
Proof.
  eexists. split; [vm_compute; reflexivity|].
  apply (@connection_table_valid lcg_random rotating_shuffle
           rotating_shuffle_laws lcg_random_laws
           (flat_layer 6 3 2) 64 7 "gauss" ∅).
  - repeat constructor; lia.
  - repeat constructor; lia.
  - reflexivity.
  - intros node _. vm_compute. split; discriminate.
  - vm_compute. reflexivity.
  - vm_compute. split; [discriminate|reflexivity].
Defined.

(** C1 as stated fails for serial when the fan-in exceeds the number of
    input nodes: with one input node and fan-in two, both slots of node 0
    receive input 0. *)
Lemma serial_repeats_inputs :
  ∃ t, @InitializeNodeInput lcg_random rotating_shuffle (flat_layer 1 1 2) 0 1 "serial" ∅
       = Done t
       ∧ NodeInputs (flat_layer 1 1 2) t 0 = Some [0; 0]
       ∧ ¬ valid_row (flat_layer 1 1 2) t 0.
Proof.
  eexists. split; [vm_compute; reflexivity|]. split; [vm_compute; reflexivity|].
  intros (row & Hrow & _ & _ & Hnodup).
  vm_compute in Hrow. injection Hrow as <-.
  apply NoDup_cons in Hnodup as [Hnotin _]. apply Hnotin. left.
Qed.

(** ** Strategy selection *)

Section Selection.
Context `{Numerics} `{ShuffleSetOps}.

Lemma select_serial (L : layer) (fuel : nat) (seed : Z) (t : table) :
  InitializeNodeInput L fuel seed "serial" t = connect_serial L t.
Proof. reflexivity. Qed.

Lemma select_random (L : layer) (fuel : nat) (seed : Z) (t : table) :
  InitializeNodeInput L fuel seed "random" t = connect_random L seed t.
Proof. reflexivity. Qed.

End Selection.

(** C7: the serial strategy on four inputs and two nodes of fan-in two gives
    node 0 the inputs [0; 1] and node 1 the inputs [2; 3] -- on an empty
    table these four entries are the whole table -- whatever the seed, the
    random sources and the iteration budget. In general the strategy returns
    and hands out the input indices cyclically, in row-major order of
    (node, slot): slot [i] of [node] receives
    [(serial_offset node + i) mod input_count], where [serial_offset node]
    counts the slots of the nodes before [node]; with the same fan-in [N] at
    every node this is [(node * N + i) mod input_count]. *)
Theorem serial_connection_table `{Numerics} `{ShuffleSetOps} :
  (∀ (fuel : nat) (seed : Z),
     InitializeNodeInput (flat_layer 4 2 2) fuel seed "serial" ∅
     = Done (list_to_map [((0, 0), 0); ((0, 1), 1); ((1, 0), 2); ((1, 1), 3)]))
  ∧ (∀ (fuel : nat) (seed : Z) (t0 : table),
       ∃ t, InitializeNodeInput (flat_layer 4 2 2) fuel seed "serial" t0 = Done t
            ∧ NodeInputs (flat_layer 4 2 2) t 0 = Some [0; 1]
            ∧ NodeInputs (flat_layer 4 2 2) t 1 = Some [2; 3])
  ∧ (∀ (L : layer) (fuel : nat) (seed : Z) (t0 : table),
       0 < input_count L →
       ∃ t, InitializeNodeInput L fuel seed "serial" t0 = Done t
            ∧ ∀ node i, 0 ≤ node < output_count L →
                0 ≤ i < GetNodeInputSize L node →
                GetNodeInput t node i
                = Some ((serial_offset L node + i) `mod` input_count L))
  ∧ (∀ (L : layer) (N : Z) (fuel : nat) (seed : Z) (t0 : table),
       (∀ node, GetNodeInputSize L node = N) →
       0 < input_count L →
       ∃ t, InitializeNodeInput L fuel seed "serial" t0 = Done t
            ∧ ∀ node i, 0 ≤ node < output_count L → 0 ≤ i < N →
                GetNodeInput t node i = Some ((node * N + i) `mod` input_count L)).
Proof.
  assert (Hany : ∀ (L : layer) (fuel : nat) (seed : Z) (t0 : table),
       0 < input_count L →
       ∃ t, InitializeNodeInput L fuel seed "serial" t0 = Done t
            ∧ ∀ node i, 0 ≤ node < output_count L →
                0 ≤ i < GetNodeInputSize L node →
                GetNodeInput t node i
                = Some ((serial_offset L node + i) `mod` input_count L)).
  { intros L fuel seed t0 Hinputs. rewrite select_serial.
    destruct (connect_serial_returns L t0) as [t Hrun]. exists t. split; [done|].
    intros node i Hnode Hi.
    rewrite (connect_serial_slots L t0 t Hrun) by done.
    pose proof (serial_offset_nonneg L node).
    by rewrite Z.rem_mod_nonneg by lia. }
  assert (Hconst : ∀ (L : layer) (N : Z) (fuel : nat) (seed : Z) (t0 : table),
       (∀ node, GetNodeInputSize L node = N) →
       0 < input_count L →
       ∃ t, InitializeNodeInput L fuel seed "serial" t0 = Done t
            ∧ ∀ node i, 0 ≤ node < output_count L → 0 ≤ i < N →
                GetNodeInput t node i = Some ((node * N + i) `mod` input_count L)).
  { intros L N fuel seed t0 HN Hinputs.
    destruct (Hany L fuel seed t0 Hinputs) as (t & Hrun & Hslots).
    exists t. split; [done|]. intros node i Hnode Hi.
    rewrite Hslots by (rewrite ?HN; done).
    by rewrite (serial_offset_const L N) by (done || lia). }
  split; [|split; [|split; [exact Hany|exact Hconst]]].
  - intros fuel seed. rewrite select_serial. vm_compute. reflexivity.
  - intros fuel seed t0.
    destruct (Hconst (flat_layer 4 2 2) 2 fuel seed t0) as (t & Hrun & Hslots);
      [done|done|].
    exists t. split; [done|].
    unfold NodeInputs. simpl GetNodeInputSize.
    change (seqZ 0 2) with [0; 1]. cbn [mapM].
    rewrite !Hslots by (vm_compute; split; (discriminate || reflexivity)).
    split; reflexivity.
Qed.

Lemma serial_connection_table_witness :
  ∃ t, @InitializeNodeInput lcg_random rotating_shuffle (flat_layer 4 2 2) 0 9 "serial" ∅
       = Done t
       ∧ GetNodeInput t 1 1 = Some 3.
Proof.
  destruct (proj2 (proj2 (proj2 (@serial_connection_table lcg_random rotating_shuffle)))
              (flat_layer 4 2 2) 2 0%nat 9 ∅) as (t & Hrun & Hslots).
  - intros node. reflexivity.
  - reflexivity.
  - exists t. split; [exact Hrun|].
    apply (Hslots 1 1); split; (discriminate || reflexivity).
Defined.

(** ** The random strategy depends on the seed only *)

Lemma for_each_frame {S : Type} (F : S → S) (l : list Z)
    (body : Z → S → outcome S) (s : S) :
  (∀ i s, body i (F s) = F <$> body i s) →
  for_each l body (F s) = F <$> for_each l body s.
Proof.
  intros Hframe. revert s. induction l as [|i l IH]; intros s; simpl; [done|].
  rewrite Hframe. destruct (body i s); simpl; auto.
Qed.

Section RandomFrame.
Context `{Numerics} `{ShuffleSetOps}.

(** Started on a table [t], the random strategy produces what it produces on
    the empty table, laid over [t]. *)
Lemma connect_random_frame (L : layer) (seed : Z) (t : table) :
  connect_random L seed t = (λ w : table, w ∪ t) <$> connect_random L seed ∅.
Proof.
  unfold connect_random. cbv zeta.
  set (F := λ st : ShuffleSet * table, (st.1, st.2 ∪ t)).
  set (ss0 := ShuffleSet_new _ seed).
  replace (ss0, t) with (F (ss0, ∅)) by (unfold F; simpl; by rewrite (left_id_L ∅ (∪))).
  unfold for_range. rewrite (for_each_frame F).
  - destruct (for_each _ _ (ss0, ∅)) as [[ss w]| | |]; reflexivity.
  - intros node [ss w]. unfold F at 1. simpl.
    destruct (GetRandomSet ss (GetNodeInputSize L node)) as [set ss'].
    rewrite (for_each_frame (λ w : table, w ∪ t)).
    + destruct (for_each _ _ w); reflexivity.
    + intros i w'. destruct (vec_at set i) as [ri| | |]; simpl; try done.
      unfold SetNodeInput. by rewrite insert_union_l.
Qed.

Lemma connect_random_filled (L : layer) (seed : Z) (t0 t : table) :
  connect_random L seed t0 = Done t →
  ∀ node, 0 ≤ node < output_count L → row_filled L t node.
Proof.
  unfold connect_random. cbv zeta. intros Hrun.
  apply bind_Done in Hrun as ([ss t1] & Hrun & [= ->]).
  intros node Hnode.
  apply (for_range_cover (row_filled L) snd (λ _, True) (λ i n, n = i)) in Hrun.
  - destruct Hrun as (_ & _ & Hcov). by apply (Hcov node).
  - intros n [ss1 t1] [ss2 t2] Hn _ Hbody. simpl in *.
    destruct (GetRandomSet ss1 (GetNodeInputSize L n)) as [set ss'].
    apply bind_Done in Hbody as (t3 & Hfill & [= <- <-]).
    apply fill_row in Hfill as [Hslots Hkeep].
    assert (Hrow : row_filled L t3 n).
    { intros i Hi. destruct (Hslots i Hi) as (v & _ & ->). eauto. }
    split; [done|]. split; [|by intros ? ->].
    apply (rows_kept_fill _ n); [apply row_filled_local|done|done].
  - done.
Qed.

Lemma NodeInputs_frame (L : layer) (w t : table) (node : Z) :
  row_filled L w node → NodeInputs L (w ∪ t) node = NodeInputs L w node.
Proof.
  intros Hfilled. unfold NodeInputs, GetNodeInput.
  assert (Hslots : Forall (λ i, (w ∪ t) !! (node, i) = w !! (node, i))
                     (seqZ 0 (GetNodeInputSize L node))).
  { apply Forall_seqZ. intros i Hi. destruct (Hfilled i) as [v Hv]; [lia|].
    rewrite Hv. by apply lookup_union_Some_l. }
  induction Hslots as [|i l Hi _ IH]; [done|].
  cbn [mapM]. by rewrite Hi, IH.
Qed.

End RandomFrame.

(** C8: with the random strategy, two runs with the same seed on a layer of
    the same shapes and fan-in end alike -- both stop the same way, or both
    return and every output node has the same inputs in both tables --
    whatever each table held before. *)
Theorem random_same_seed_same_table `{Numerics} `{ShuffleSetOps}
    (L : layer) (fuel : nat) (seed : Z) (t1 t2 : table) :
  connections L <$> InitializeNodeInput L fuel seed "random" t1
  = connections L <$> InitializeNodeInput L fuel seed "random" t2.
Proof.
  rewrite !select_random.
  rewrite (connect_random_frame L seed t1), (connect_random_frame L seed t2).
  destruct (connect_random L seed ∅) as [w| | |] eqn:Hrun; try reflexivity.
  simpl. f_equal. unfold connections. apply list_fmap_ext.
  intros k node Hk. apply lookup_seqZ in Hk as [-> Hlt].
  pose proof (connect_random_filled L seed ∅ w Hrun (0 + Z.of_nat k) ltac:(lia)).
  by rewrite !NodeInputs_frame.
Qed.

(** ** Unknown strategies and shape constraints *)

Lemma argv0_is_head (name other : string) (rest : list string) :
  argv0_is (name :: rest) other = String.eqb name other.
Proof. reflexivity. Qed.

(** C9: an empty connection string selects the random strategy; a first
    token that names none of the five strategies is fatal; pointwise and
    depthwise are fatal on shapes that violate their constraints. *)
Theorem strategy_selection `{Numerics} `{ShuffleSetOps}
    (L : layer) (fuel : nat) (seed : Z) (t : table) :
  InitializeNodeInput L fuel seed "" t = connect_random L seed t
  ∧ (∀ connection name rest,
       SplitString connection = name :: rest → name ∉ known_strategies →
       InitializeNodeInput L fuel seed connection t = Fatal)
  ∧ (∀ connection rest,
       SplitString connection = "pointwise"%string :: rest →
       ¬ pointwise_compatible L →
       InitializeNodeInput L fuel seed connection t = Fatal)
  ∧ (∀ connection rest,
       SplitString connection = "depthwise"%string :: rest →
       ¬ depthwise_compatible L →
       InitializeNodeInput L fuel seed connection t = Fatal).
Proof.
  split; [reflexivity|]. split; [|split].
  - intros connection name rest Hsplit Hname.
    unfold InitializeNodeInput. cbv zeta. rewrite Hsplit, !argv0_is_head.
    unfold known_strategies in Hname.
    repeat (apply not_elem_of_cons in Hname as [?%String.eqb_neq Hname]).
    by repeat (match goal with Hne : (name =? _)%string = false |- _ =>
                 rewrite Hne; clear Hne end).
  - intros connection rest Hsplit Hbad.
    unfold InitializeNodeInput. cbv zeta. rewrite Hsplit, argv0_is_head.
    change ("pointwise" =? "pointwise")%string with true. cbv iota.
    unfold connect_pointwise, pointwise_compatible in *. cbv zeta.
    destruct (GetInputShape L) as [|x [|y [|c [|]]]]; try reflexivity.
    destruct (GetOutputShape L) as [|x' [|y' [|c' [|]]]]; try reflexivity.
    simpl. destruct (Z.eqb_spec x x') as [<-|]; [|reflexivity].
    simpl. destruct (Z.eqb_spec y y') as [<-|]; [|reflexivity].
    destruct Hbad. eauto 6.
  - intros connection rest Hsplit Hbad.
    unfold InitializeNodeInput. cbv zeta. rewrite Hsplit, !argv0_is_head.
    change ("depthwise" =? "pointwise")%string with false.
    change ("depthwise" =? "depthwise")%string with true. cbv iota.
    unfold connect_depthwise, depthwise_compatible in *. cbv zeta.
    destruct (GetInputShape L) as [|x [|y [|c [|]]]]; try reflexivity.
    destruct (GetOutputShape L) as [|x' [|y' [|c' [|]]]]; try reflexivity.
    simpl. destruct (Z.eqb_spec c c') as [<-|]; [|reflexivity].
    destruct Hbad. eauto 7.
Qed.

Lemma strategy_selection_witness :
  @InitializeNodeInput lcg_random rotating_shuffle
     (image_layer [2; 2; 3] [2; 1; 3] 2) 0 1 "pointwise" ∅ = Fatal.
Proof.
  apply (proj1 (proj2 (proj2
           (@strategy_selection lcg_random rotating_shuffle
              (image_layer [2; 2; 3] [2; 1; 3] 2) 0%nat 1 ∅))) "pointwise"%string []).
  - reflexivity.
  - intros (x & y & c & c' & Hin & Hout). simpl in Hin, Hout. congruence.
Defined.

(** ** The generator on small layers *)

Example SplitString_two_tokens :
  SplitString "gauss  extra"%string = ["gauss"; "extra"]%string.
Proof. reflexivity. Qed.

Example serial_4_2 :
  run_demo (flat_layer 4 2 2) 1 "serial" = Done [Some [0; 1]; Some [2; 3]].
Proof. vm_compute. reflexivity. Qed.

Example random_6_3 :
  run_demo (flat_layer 6 3 2) 7 "random" = Done [Some [1; 2]; Some [3; 4]; Some [5; 0]].
Proof. vm_compute. reflexivity. Qed.

Example gauss_6_3 :
  run_demo (flat_layer 6 3 2) 7 "gauss" = Done [Some [0; 5]; Some [4; 0]; Some [5; 2]].
Proof. vm_compute. reflexivity. Qed.

Example pointwise_2x1 :
  run_demo (image_layer [2; 1; 3] [2; 1; 2] 2) 5 "pointwise"
  = Done [Some [0; 2]; Some [3; 5]; Some [4; 0]; Some [1; 3]].
Proof. vm_compute. reflexivity. Qed.

Example depthwise_2x2 :
  run_demo (image_layer [2; 2; 2] [1; 1; 2] 3) 5 "depthwise"
  = Done [Some [0; 1; 2]; Some [7; 4; 5]].
Proof. vm_compute. reflexivity. Qed.

End SparseLayerProofs.

(** * Properties of the composites *)

Module SequentialProofs.
Section Sequential.
Context `{Buffers} {Layer : Type} `{!Model Layer}.

Lemma added_layers (layers : list nat) (self : Sequential.t) :
  Sequential.m_layers (fold_left (λ s l, Sequential.Add l s) layers self)
  = Sequential.m_layers self ++ layers.
Proof.
  revert self. induction layers as [|l layers IH]; intros self; simpl.
  - by rewrite app_nil_r.
  - rewrite IH. simpl. by rewrite <- app_assoc.
Qed.

Lemma fold_left_nest {A : Type} (f : nat → A → A) (layers : list nat) (a : A) :
  fold_left (λ st l, f l st) layers a = fold_right f a (rev layers).
Proof.
  revert a. induction layers as [|l layers IH]; intros a; simpl; [done|].
  by rewrite IH, fold_right_app.
Qed.

Lemma forward_nest_fold (train : bool) (reversed : list nat)
    (st : FrameBuffer * (nat → Layer)) :
  Sequential.forward_nest train reversed st
  = fold_right (Sequential.call_Forward train) st reversed.
Proof. induction reversed as [|l ls IH]; simpl; [done|]. by rewrite IH. Qed.

Lemma backward_nest_fold (layers : list nat) (st : FrameBuffer * (nat → Layer)) :
  Sequential.backward_nest layers st
  = fold_right Sequential.call_Backward st layers.
Proof. induction layers as [|l ls IH]; simpl; [done|]. by rewrite IH. Qed.

Lemma fold_left_PushBack (f : nat → list Tensor) (layers : list nat)
    (acc : list Tensor) :
  fold_left (λ vs l, PushBack vs (f l)) layers acc = acc ++ concat (f <$> layers).
Proof.
  revert acc. induction layers as [|l layers IH]; intros acc; simpl.
  - by rewrite app_nil_r.
  - rewrite IH. unfold PushBack. by rewrite <- app_assoc.
Qed.

(** C4: for a [Sequential] whose children were added in the order
    [L1 ... Lk], the forward pass is [Lk.Forward(... L1.Forward(x) ...)], the
    backward pass is [L1.Backward(... Lk.Backward(dy) ...)], and the
    parameters and the gradients are those of the children, concatenated in
    insertion order. *)
Theorem sequential_composition (layers : list nat) (x dy : FrameBuffer)
    (train : bool) (h : nat → Layer) :
  let self := fold_left (λ s l, Sequential.Add l s) layers Sequential.create in
  Sequential.m_layers self = layers
  ∧ Sequential.Forward self x train h
    = Sequential.forward_nest train (rev layers) (x, h)
  ∧ Sequential.Backward self dy h = Sequential.backward_nest layers (dy, h)
  ∧ Sequential.GetParameters self h = concat ((λ l, GetParameters (h l)) <$> layers)
  ∧ Sequential.GetGradients self h = concat ((λ l, GetGradients (h l)) <$> layers).
Proof.
  intros self.
  assert (Hlayers : Sequential.m_layers self = layers) by apply added_layers.
  unfold Sequential.Forward, Sequential.Backward, Sequential.GetParameters,
    Sequential.GetGradients.
  rewrite Hlayers. split; [done|]. split; [|split; [|split]].
  - by rewrite forward_nest_fold, fold_left_nest.
  - by rewrite backward_nest_fold, fold_left_nest, rev_involutive.
  - by rewrite fold_left_PushBack.
  - by rewrite fold_left_PushBack.
Qed.

(** The scenario of two children. *)
Example two_layers (l1 l2 : nat) (x dy : FrameBuffer) (train : bool)
    (h : nat → Layer) :
  let self := Sequential.Add l2 (Sequential.Add l1 Sequential.create) in
  Sequential.Forward self x train h
  = Sequential.call_Forward train l2 (Sequential.call_Forward train l1 (x, h))
  ∧ Sequential.Backward self dy h
    = Sequential.call_Backward l1 (Sequential.call_Backward l2 (dy, h))
  ∧ Sequential.GetParameters self h = GetParameters (h l1) ++ GetParameters (h l2)
  ∧ Sequential.GetGradients self h = GetGradients (h l1) ++ GetGradients (h l2).
Proof. repeat split. Qed.

End Sequential.

(** Two amplifiers, the second one added twice: the store threads the state of
    the shared layer through both of its calls. *)
Example two_amps_forward :
  let h := λ p : nat, Demo.amp_of (if Nat.eqb p 0 then 2 else 3) in
  let self := Sequential.Add 1 (Sequential.Add 1 (Sequential.Add 0 Sequential.create)) in
  (Sequential.Forward self (5 : @FrameBuffer Demo.buffers) true h).1 = 90
  ∧ Demo.cached ((Sequential.Forward self (5 : @FrameBuffer Demo.buffers) true h).2 1%nat)
    = 30
  ∧ Sequential.GetParameters self h = ([2; 3; 3] : list (@Tensor Demo.buffers)).
Proof. repeat split. Qed.

End SequentialProofs.

Module ReLUProofs.
Import ReLU.

Section ReLU.
Context {T : Type} `{!Scalar T} `{!@BinarizeOps T}.

(** Outside binary mode, a forward pass that returns hands back the object
    it was called on, with the cache overwritten when it trains. *)
Lemma Forward_Done (self s : t) (x y : FrameBuffer T) (train : bool) :
  m_binary_mode self = false →
  Forward self x train = Done (s, y) →
  s = (if train
       then {| m_binary_mode := false; m_host_only := m_host_only self;
               m_x_buf := x; m_y_buf := y |}
       else self)
  ∧ ∀ other : t, m_binary_mode other = false →
      snd <$> Forward other x train = Done y.
Proof.
  intros Hmode. unfold Forward. rewrite Hmode. intros Hrun.
  apply bind_Done in Hrun as (u & Hassert & Hrun).
  apply bind_Done in Hrun as (ys & Hys & [= <- <-]). split.
  - done.
  - intros other ->. rewrite Hassert. simpl. by rewrite Hys.
Qed.

(** Outside binary mode, the gradient is a function of the cached output
    and the incoming gradient alone. *)
Lemma Backward_reads_y (self other : t) (dy : FrameBuffer T) :
  m_binary_mode self = false → m_binary_mode other = false →
  m_y_buf self = m_y_buf other →
  gradient (Backward self dy) = gradient (Backward other dy).
Proof.
  intros Hs Ho Hy. unfold gradient, Backward. rewrite Hs, Ho, Hy.
  destruct (BB_ASSERT _); simpl; try done.
  by destruct (for_elements _ _ _).
Qed.

(** C5 (as amended): a training-mode [Forward] replaces the cache of the
    previous [Forward], so that the [Backward] that follows consumes only
    what this last call cached -- it returns the gradient it would return
    after the same call on any other [ReLU], whatever that one had cached
    before; an inference-mode [Forward] leaves the object, and with it the
    cache, as it was. (For a [ReLU] outside binary mode.) *)
Theorem training_forward_replaces_cache
    (self s1 s2 : t) (x1 x2 y1 y2 dy : FrameBuffer T) (train1 : bool) :
  m_binary_mode self = false →
  Forward self x1 train1 = Done (s1, y1) →
  Forward s1 x2 true = Done (s2, y2) →
  m_x_buf s2 = x2 ∧ m_y_buf s2 = y2
  ∧ (∀ (other o2 : t) (oy : FrameBuffer T),
       m_binary_mode other = false →
       Forward other x2 true = Done (o2, oy) →
       gradient (Backward s2 dy) = gradient (Backward o2 dy))
  ∧ (∀ (s3 : t) (x3 y3 : FrameBuffer T),
       Forward s2 x3 false = Done (s3, y3) → s3 = s2).
Proof.
  intros Hmode Hfirst Hsecond.
  destruct (Forward_Done _ _ _ _ _ Hmode Hfirst) as [-> _].
  assert (Hmode1 : m_binary_mode (if train1
            then {| m_binary_mode := false; m_host_only := m_host_only self;
                    m_x_buf := x1; m_y_buf := y1 |} else self) = false)
    by (by destruct train1).
  destruct (Forward_Done _ _ _ _ _ Hmode1 Hsecond) as [-> Hy2].
  split; [done|]. split; [done|]. split.
  - intros other o2 oy Hother Hrun.
    destruct (Forward_Done _ _ _ _ _ Hother Hrun) as [-> _].
    apply Backward_reads_y; [done..|]. simpl.
    specialize (Hy2 other Hother). rewrite Hrun in Hy2. by injection Hy2.
  - intros s3 x3 y3 Hrun.
    by destruct (Forward_Done _ _ x3 y3 false (eq_refl : m_binary_mode
          {| m_binary_mode := false; m_host_only := _; m_x_buf := x2;
             m_y_buf := y2 |} = false) Hrun) as [-> _].
Qed.

End ReLU.

Lemma training_forward_replaces_cache_witness :
  gradient (@Backward Z Z_scalar no_binarize
              {| m_binary_mode := false; m_host_only := false;
                 m_x_buf := scalar_buffer (-1); m_y_buf := scalar_buffer 0 |}
              (scalar_buffer 5))
  = gradient (@Backward Z Z_scalar no_binarize
              {| m_binary_mode := false; m_host_only := true;
                 m_x_buf := scalar_buffer (-1); m_y_buf := scalar_buffer 0 |}
              (scalar_buffer 5)).
Proof.
  refine (proj1 (proj2 (proj2 (@training_forward_replaces_cache Z Z_scalar no_binarize
            Create _ _ (scalar_buffer 1) (scalar_buffer (-1)) _ _ (scalar_buffer 5) true
            eq_refl _ _))) used_relu _ _ eq_refl _); vm_compute; reflexivity.
Defined.

(** C5 as stated fails when the second [Forward] runs in inference mode: it
    caches nothing, and [Backward] still consumes what the first call
    cached. After a first pass on [1], the gradient [5] goes through; after
    a first pass on [-1], it is blocked; the second pass was on [-1] both
    times. Had the second pass trained, the gradient would be blocked in
    both runs. *)
Lemma inference_forward_keeps_cache :
  two_forwards 1 false = Done (scalar_buffer 5)
  ∧ two_forwards (-1) false = Done (scalar_buffer 0)
  ∧ two_forwards 1 true = Done (scalar_buffer 0)
  ∧ two_forwards (-1) true = Done (scalar_buffer 0).
Proof. repeat split; vm_compute; reflexivity. Qed.

End ReLUProofs.

Module StochasticLutProofs.
Section StochasticLut.
Context `{Buffers} `{!CommandEnv}.
Context {Lut BatchNorm : Type} `{!Model Lut} `{!Model BatchNorm}.
Variable lut_GetNodeInputSize : Lut → Z → Z.

Lemma CommandProc_children (args : list string) (self : @StochasticLut.t Lut BatchNorm) :
  StochasticLut.m_lut (StochasticLut.CommandProc args self) = StochasticLut.m_lut self
  ∧ StochasticLut.m_batch_norm (StochasticLut.CommandProc args self)
    = StochasticLut.m_batch_norm self.
Proof.
  unfold StochasticLut.CommandProc. by destruct (command_arg args _).
Qed.

(** C10: [Save] writes, and [Load] reads, the LUT child and then the
    batch-normalization child whatever [m_bn_enable] is -- a command, the
    "batch_normalization" one included, changes neither the bytes written
    nor the bytes consumed nor the children loaded -- although with the flag
    off [Forward], [Backward], [ForwardNode] and the two collections leave
    the batch-normalization child out. *)
Theorem serialization_ignores_bn_enable (self : @StochasticLut.t Lut BatchNorm)
    (args : list string) (v : string) (stream : list Byte.byte)
    (x : FrameBuffer) (train : bool) (node : Z) (x_vec : list real) :
  let flagged := StochasticLut.CommandProc ["batch_normalization"%string; v] self in
  let off := {| StochasticLut.m_lut := StochasticLut.m_lut self;
                StochasticLut.m_batch_norm := StochasticLut.m_batch_norm self;
                StochasticLut.m_bn_enable := false |} in
  StochasticLut.m_bn_enable flagged = EvalBool v
  ∧ StochasticLut.Save self stream
    = Save (StochasticLut.m_batch_norm self) (Save (StochasticLut.m_lut self) stream)
  ∧ StochasticLut.Save (StochasticLut.CommandProc args self) stream
    = StochasticLut.Save self stream
  ∧ (StochasticLut.Load self stream).2
    = (Load (StochasticLut.m_batch_norm self)
            (Load (StochasticLut.m_lut self) stream).2).2
  ∧ StochasticLut.Load (StochasticLut.CommandProc args self) stream
    = ({| StochasticLut.m_lut := StochasticLut.m_lut (StochasticLut.Load self stream).1;
          StochasticLut.m_batch_norm :=
            StochasticLut.m_batch_norm (StochasticLut.Load self stream).1;
          StochasticLut.m_bn_enable :=
            StochasticLut.m_bn_enable (StochasticLut.CommandProc args self) |},
       (StochasticLut.Load self stream).2)
  ∧ (StochasticLut.Forward off x train).2 = (Forward (StochasticLut.m_lut self) x train).2
  ∧ StochasticLut.m_batch_norm (StochasticLut.Forward off x train).1
    = StochasticLut.m_batch_norm self
  ∧ (StochasticLut.Backward off x).2 = (Backward (StochasticLut.m_lut self) x).2
  ∧ StochasticLut.m_batch_norm (StochasticLut.Backward off x).1
    = StochasticLut.m_batch_norm self
  ∧ (∀ out, StochasticLut.ForwardNode lut_GetNodeInputSize off node x_vec = Done out →
            out = ForwardNode (StochasticLut.m_lut self) node x_vec)
  ∧ StochasticLut.GetParameters off = GetParameters (StochasticLut.m_lut self)
  ∧ StochasticLut.GetGradients off = GetGradients (StochasticLut.m_lut self).
Proof.
  intros flagged off.
  destruct (CommandProc_children args self) as [Hlut Hbn].
  split; [|split; [|split; [|split; [|split]]]].
  - unfold flagged, StochasticLut.CommandProc. simpl. done.
  - reflexivity.
  - unfold StochasticLut.Save. by rewrite Hlut, Hbn.
  - unfold StochasticLut.Load.
    destruct (Load (StochasticLut.m_lut self) stream) as [lut rest]. simpl.
    by destruct (Load (StochasticLut.m_batch_norm self) rest) as [bn rest'].
  - unfold StochasticLut.Load. rewrite Hlut, Hbn.
    destruct (Load (StochasticLut.m_lut self) stream) as [lut rest]. simpl.
    by destruct (Load (StochasticLut.m_batch_norm self) rest) as [bn rest'].
  - unfold StochasticLut.Forward, StochasticLut.Backward,
      StochasticLut.ForwardNode, StochasticLut.GetParameters,
      StochasticLut.GetGradients, PushBack. simpl.
    destruct (Forward (StochasticLut.m_lut self) x train) as [lut y].
    destruct (Backward (StochasticLut.m_lut self) x) as [lut' dx].
    repeat split.
    intros out Hout. apply bind_Done in Hout as (u & _ & [= <-]). done.
Qed.

End StochasticLut.

#[local] Existing Instance Demo.buffers.

(** Two amplifiers as the children: the command takes the second one out of
    the parameters and leaves the two bytes of the stream as they were. *)
Example bn_enable_off :
  let self : @StochasticLut.t Demo.amp Demo.amp :=
    StochasticLut.Create (Demo.amp_of 2) (Demo.amp_of 3) in
  let off := @StochasticLut.CommandProc plain_commands _ _
               ["batch_normalization"; "false"]%string self in
  StochasticLut.GetParameters self = ([2; 3] : list (@Tensor Demo.buffers))
  ∧ StochasticLut.GetParameters off = ([2] : list (@Tensor Demo.buffers))
  ∧ StochasticLut.Save self [] = [Demo.byte_of 2; Demo.byte_of 3]
  ∧ StochasticLut.Save off [] = [Demo.byte_of 2; Demo.byte_of 3].
Proof. repeat split. Qed.

End StochasticLutProofs.

Module SparseLutNProofs.
Section SparseLutN.
Context `{Buffers} `{!CommandEnv}.
Context {Lut BatchNorm Activation : Type}.
Context `{!Model Lut} `{!Model BatchNorm} `{!Model Activation}.
Context `{!SparseLutN.Recompute Lut} `{!SparseLutN.Recompute BatchNorm}
        `{!SparseLutN.Recompute Activation}.
Context `{!RecomputeLaws Lut} `{!RecomputeLaws BatchNorm} `{!RecomputeLaws Activation}.

Local Abbreviation sparse_lut := (@SparseLutN.t Lut BatchNorm Activation).

Lemma Forward_off (self : sparse_lut) (x : FrameBuffer) :
  SparseLutN.Forward (SparseLutN.with_memory_saving false self) x true
  = ({| SparseLutN.m_memory_saving := false;
        SparseLutN.m_lut := (SparseLutN.trained self x).1.1.1;
        SparseLutN.m_batch_norm := (SparseLutN.trained self x).1.1.2;
        SparseLutN.m_activation := (SparseLutN.trained self x).1.2 |}, (SparseLutN.trained self x).2).
Proof.
  unfold SparseLutN.Forward, SparseLutN.trained. simpl.
  destruct (Forward (SparseLutN.m_lut self) x true) as [lut y].
  destruct (Forward (SparseLutN.m_batch_norm self) y true) as [bn z].
  by destruct (Forward (SparseLutN.m_activation self) z true) as [act w].
Qed.

Lemma Forward_on (self : sparse_lut) (x : FrameBuffer) :
  SparseLutN.Forward (SparseLutN.with_memory_saving true self) x true
  = ({| SparseLutN.m_memory_saving := true;
        SparseLutN.m_lut := (SparseLutN.trained self x).1.1.1;
        SparseLutN.m_batch_norm :=
          SparseLutN.SetFrameBufferX (SparseLutN.trained self x).1.1.2 FrameBuffer_empty;
        SparseLutN.m_activation :=
          SparseLutN.SetFrameBufferX (SparseLutN.trained self x).1.2 FrameBuffer_empty |},
     (SparseLutN.trained self x).2).
Proof.
  unfold SparseLutN.Forward, SparseLutN.trained. simpl.
  destruct (Forward (SparseLutN.m_lut self) x true) as [lut y].
  destruct (Forward (SparseLutN.m_batch_norm self) y true) as [bn z].
  by destruct (Forward (SparseLutN.m_activation self) z true) as [act w].
Qed.

(** Recomputing brings back what memory saving had dropped. *)
Lemma recompute_restores (self : sparse_lut) (x : FrameBuffer) :
  SparseLutN.recompute
    (SparseLutN.Forward (SparseLutN.with_memory_saving true self) x true).1
  = SparseLutN.with_memory_saving true
      (SparseLutN.Forward (SparseLutN.with_memory_saving false self) x true).1.
Proof.
  rewrite Forward_on, Forward_off. unfold SparseLutN.recompute, SparseLutN.trained. simpl.
  destruct (Forward (SparseLutN.m_lut self) x true) as [lut y] eqn:Hlut.
  destruct (Forward (SparseLutN.m_batch_norm self) y true) as [bn z] eqn:Hbn.
  destruct (Forward (SparseLutN.m_activation self) z true) as [act w] eqn:Hact.
  simpl.
  rewrite (forward_caches_input _ _ _ _ Hlut).
  rewrite <- (set_cached_input lut) at 1.
  rewrite (reforward_reproduces _ _ _ _ _ Hlut).
  rewrite (reforward_reproduces _ _ _ _ _ Hbn).
  unfold SparseLutN.with_memory_saving. simpl. f_equal.
  rewrite set_set_input, <- (forward_caches_input _ _ _ _ Hact).
  apply set_cached_input.
Qed.

(** C2: with the same children and the same input, a training-mode
    [Forward] followed by [Backward] returns the same input gradient with
    memory saving on as with memory saving off. With memory saving on,
    [Backward] first recomputes -- it runs the first child again on its
    cached input and the second child on the result, and hands the result to
    the third -- and then propagates the gradient through the children in
    reverse order; the recomputation leaves the children exactly as the
    forward pass without memory saving leaves them. *)
Theorem memory_saving_same_gradient (self : sparse_lut) (x dy : FrameBuffer) :
  let on := SparseLutN.Forward (SparseLutN.with_memory_saving true self) x true in
  let off := SparseLutN.Forward (SparseLutN.with_memory_saving false self) x true in
  on.2 = off.2
  ∧ (SparseLutN.Backward on.1 dy).2 = (SparseLutN.Backward off.1 dy).2
  ∧ SparseLutN.Backward on.1 dy = SparseLutN.propagate (SparseLutN.recompute on.1) dy
  ∧ SparseLutN.recompute on.1
    = (let '(lut, y) := SparseLutN.ReForward (SparseLutN.m_lut on.1)
                          (SparseLutN.GetFrameBufferX (SparseLutN.m_lut on.1)) in
       let '(bn, z) := SparseLutN.ReForward (SparseLutN.m_batch_norm on.1) y in
       {| SparseLutN.m_memory_saving := true; SparseLutN.m_lut := lut;
          SparseLutN.m_batch_norm := bn;
          SparseLutN.m_activation :=
            SparseLutN.SetFrameBufferX (SparseLutN.m_activation on.1) z |})
  ∧ SparseLutN.recompute on.1 = SparseLutN.with_memory_saving true off.1.
Proof.
  intros on off.
  assert (Hrestore : SparseLutN.recompute on.1
                     = SparseLutN.with_memory_saving true off.1)
    by apply recompute_restores.
  assert (Hon : SparseLutN.m_memory_saving on.1 = true)
    by (unfold on; by rewrite Forward_on).
  assert (Hoff : SparseLutN.m_memory_saving off.1 = false)
    by (unfold off; by rewrite Forward_off).
  split; [unfold on, off; by rewrite Forward_on, Forward_off|].
  split; [|split; [|split; [|done]]].
  - unfold SparseLutN.Backward. rewrite Hon, Hoff, Hrestore.
    unfold SparseLutN.propagate, SparseLutN.with_memory_saving. simpl.
    destruct (Backward (SparseLutN.m_activation off.1) dy) as [act d1].
    destruct (Backward (SparseLutN.m_batch_norm off.1) d1) as [bn d2].
    by destruct (Backward (SparseLutN.m_lut off.1) d2) as [lut d3].
  - unfold SparseLutN.Backward. by rewrite Hon.
  - unfold SparseLutN.recompute. rewrite Hon.
    destruct (SparseLutN.ReForward _ _) as [lut y].
    by destruct (SparseLutN.ReForward _ _) as [bn z].
Qed.

End SparseLutN.
End SparseLutNProofs.

Module DemoProofs.

#[local] Instance amp_recompute_laws : @RecomputeLaws Demo.buffers Demo.amp _ _.
Proof.
  split.
  - intros m m' x y [= <- _]. done.
  - intros m m' x y b [= <- <-]. done.
  - by intros [w g c].
  - done.
Qed.

Lemma amp_zippable (g : Demo.amp) :
  @zippable Demo.buffers Demo.any_pair (GetParameters g) (GetGradients g).
Proof. repeat constructor. Qed.

Lemma memory_saving_same_gradient_witness :
  (SparseLutN.Backward
     (SparseLutN.Forward (SparseLutN.with_memory_saving true Demo.three_amps)
        (4 : @FrameBuffer Demo.buffers) true).1 (7 : @FrameBuffer Demo.buffers)).2
  = (SparseLutN.Backward
       (SparseLutN.Forward (SparseLutN.with_memory_saving false Demo.three_amps)
          (4 : @FrameBuffer Demo.buffers) true).1 (7 : @FrameBuffer Demo.buffers)).2.
Proof.
  exact (proj1 (proj2 (@SparseLutNProofs.memory_saving_same_gradient
           Demo.buffers Demo.amp Demo.amp Demo.amp _ _ _ _ _ _
           amp_recompute_laws amp_recompute_laws amp_recompute_laws
           Demo.three_amps 4 7))).
Defined.

(** The gradient both ways is 2 * 3 * 5 * 7: every amp saw a positive
    input. *)
Example three_amps_gradient :
  (SparseLutN.Backward
     (SparseLutN.Forward (SparseLutN.with_memory_saving true Demo.three_amps)
        (4 : @FrameBuffer Demo.buffers) true).1 (7 : @FrameBuffer Demo.buffers)).2
  = (210 : @FrameBuffer Demo.buffers).
Proof. reflexivity. Qed.

End DemoProofs.

Module ParameterProofs.
Section Parameters.
Context `{Buffers} (pairs : Tensor → Tensor → Prop).
Context {Lut BatchNorm Activation Inner : Type}.
Context `{!Model Lut} `{!Model BatchNorm} `{!Model Activation} `{!Model Inner}.
Context {ValueGenerator RealType ExpanderState ReducerState : Type}.
Context `{!@BinaryModulation.Converters _ ValueGenerator RealType
            ExpanderState ReducerState}.

Lemma zippable_app (ps1 gs1 ps2 gs2 : list Tensor) :
  zippable pairs ps1 gs1 → zippable pairs ps2 gs2 →
  zippable pairs (ps1 ++ ps2) (gs1 ++ gs2).
Proof. apply Forall2_app. Qed.

(** C6: when the collections of every child can be zipped, so can those of
    [StochasticLut], [SparseLutN] and [BinaryModulation], in every state:
    both collections list the same children in the same order; in
    particular [StochasticLut] appends the batch-normalization entries to
    both collections when [m_bn_enable] is set and to neither when it is
    not. *)
Theorem parameters_gradients_zippable :
  (∀ l : Lut, zippable pairs (GetParameters l) (GetGradients l)) →
  (∀ b : BatchNorm, zippable pairs (GetParameters b) (GetGradients b)) →
  (∀ i : Inner, zippable pairs (GetParameters i) (GetGradients i)) →
  (∀ r : BinaryModulation.RealToBinary_t,
     zippable pairs (BinaryModulation.real2bin_GetParameters r)
                    (BinaryModulation.real2bin_GetGradients r)) →
  (∀ b : BinaryModulation.BinaryToReal_t,
     zippable pairs (BinaryModulation.bin2real_GetParameters b)
                    (BinaryModulation.bin2real_GetGradients b)) →
  (∀ s : @StochasticLut.t Lut BatchNorm,
     zippable pairs (StochasticLut.GetParameters s) (StochasticLut.GetGradients s)
     ∧ StochasticLut.GetParameters s
       = GetParameters (StochasticLut.m_lut s)
         ++ (if StochasticLut.m_bn_enable s
             then GetParameters (StochasticLut.m_batch_norm s) else [])
     ∧ StochasticLut.GetGradients s
       = GetGradients (StochasticLut.m_lut s)
         ++ (if StochasticLut.m_bn_enable s
             then GetGradients (StochasticLut.m_batch_norm s) else []))
  ∧ (∀ s : @SparseLutN.t Lut BatchNorm Activation,
       zippable pairs (SparseLutN.GetParameters s) (SparseLutN.GetGradients s))
  ∧ (∀ s : @BinaryModulation.t ValueGenerator RealType Inner
             ExpanderState ReducerState,
       zippable pairs (BinaryModulation.GetParameters s)
                      (BinaryModulation.GetGradients s)).
Proof.
  intros Hlut Hbn Hinner Hexp Hred. split; [|split].
  - intros s. unfold StochasticLut.GetParameters, StochasticLut.GetGradients, PushBack.
    simpl. destruct (StochasticLut.m_bn_enable s).
    + split; [|done]. by apply zippable_app.
    + rewrite !app_nil_r. split; [apply Hlut|done].
  - intros s. unfold SparseLutN.GetParameters, SparseLutN.GetGradients, PushBack.
    simpl. by apply zippable_app.
  - intros s. unfold BinaryModulation.GetParameters, BinaryModulation.GetGradients,
      PushBack. simpl. apply zippable_app; [by apply zippable_app|done].
Qed.

End Parameters.

Lemma parameters_gradients_zippable_witness :
  @zippable Demo.buffers Demo.any_pair
     (SparseLutN.GetParameters Demo.three_amps)
     (SparseLutN.GetGradients Demo.three_amps).
Proof.
  refine (proj1 (proj2 (@parameters_gradients_zippable Demo.buffers Demo.any_pair
            Demo.amp Demo.amp Demo.amp Demo.amp _ _ _ Z Z Z Z Demo.converters
            DemoProofs.amp_zippable DemoProofs.amp_zippable DemoProofs.amp_zippable
            _ _)) Demo.three_amps); intros; constructor.
Defined.

End ParameterProofs.

Module BinaryModulationProofs.
Section BinaryModulation.
Context `{Buffers} {ValueGenerator RealType : Type}.
Context {Inner : Type} `{!Model Inner}.
Context {ExpanderState ReducerState : Type}.
Context `{!@BinaryModulation.Converters _ ValueGenerator RealType
            ExpanderState ReducerState}.

(** What the switch to inference does to a freshly built composite: the
    expander takes the inference modulation size and value generator, the
    reducer the inference modulation size; the framewise flag and the input
    range of the expander stay those of training. *)
Lemma switch_to_inference
    (create : @BinaryModulation.create_t ValueGenerator RealType Inner) :
  let self : @BinaryModulation.t ValueGenerator RealType Inner
                ExpanderState ReducerState :=
    BinaryModulation.switch false (BinaryModulation.Create create) in
  let expander := BinaryModulation.real2bin_param (BinaryModulation.m_real2bin self) in
  BinaryModulation.m_training self = false
  ∧ BinaryModulation.modulation_size expander
    = BinaryModulation.inference_modulation_size create
  ∧ BinaryModulation.value_generator expander
    = BinaryModulation.inference_value_generator create
  ∧ BinaryModulation.bin2real_modulation_size
      (BinaryModulation.bin2real_param (BinaryModulation.m_bin2real self))
    = BinaryModulation.inference_modulation_size create
  ∧ BinaryModulation.framewise expander = BinaryModulation.training_framewise create
  ∧ BinaryModulation.input_range_lo expander
    = BinaryModulation.training_input_range_lo create
  ∧ BinaryModulation.input_range_hi expander
    = BinaryModulation.training_input_range_hi create.
Proof. repeat split. Qed.

End BinaryModulation.

(** C3, at a composite built with a framewise training modulation and a
    per-element inference modulation: after a [Forward] in inference mode
    the composite is configured for inference and its expander has the
    inference modulation size and value generator, but its framewise flag
    and input range are still those of training; the expander does not match
    the inference parameter set. *)
Theorem inference_forward_keeps_training_framewise :
  let self := Demo.after_inference in
  let expander := BinaryModulation.real2bin_param (BinaryModulation.m_real2bin self) in
  BinaryModulation.m_training self = false
  ∧ BinaryModulation.modulation_size expander = 7
  ∧ BinaryModulation.value_generator expander = 2
  ∧ BinaryModulation.framewise expander = true
  ∧ BinaryModulation.framewise (BinaryModulation.m_inference_create self) = false
  ∧ BinaryModulation.input_range_lo expander = 0
  ∧ BinaryModulation.input_range_lo (BinaryModulation.m_inference_create self) = -1
  ∧ ¬ BinaryModulation.expander_matches (BinaryModulation.m_inference_create self) self.
Proof.
  repeat split. intros Hmatch. unfold BinaryModulation.expander_matches in Hmatch.
  vm_compute in Hmatch. discriminate.
Qed.

End BinaryModulationProofs.

(** * Further properties of the connectivity generator *)

Module ConnectivityProofs.
Import SparseLayer SparseLayerProofs.

(** ** The generator writes to slots only *)

Lemma slots_only_refl (L : layer) (t : table) : slots_only L t t.
Proof. by intros k _. Qed.

Lemma slots_only_trans (L : layer) (t1 t2 t3 : table) :
  slots_only L t1 t2 → slots_only L t2 t3 → slots_only L t1 t3.
Proof. intros H12 H23 k Hk. by rewrite H23, H12. Qed.

Lemma slots_only_set (L : layer) (node i v : Z) (t : table) :
  0 ≤ node < output_count L → 0 ≤ i < GetNodeInputSize L node →
  slots_only L t (SetNodeInput node i v t).
Proof.
  intros Hnode Hi [n j] Hk. unfold SetNodeInput. apply lookup_insert_ne.
  intros [= -> ->]. by apply Hk.
Qed.

(** A loop whose iterations write to slots only, writes to slots only. *)
Lemma for_range_slots {S : Type} (L : layer) (tbl : S → table) (Inv : S → Prop)
    (lo hi : Z) (body : Z → S → outcome S) (s s' : S) :
  (∀ i s s', lo ≤ i < hi → Inv s → body i s = Done s' →
     Inv s' ∧ slots_only L (tbl s) (tbl s')) →
  Inv s → for_range lo hi body s = Done s' →
  Inv s' ∧ slots_only L (tbl s) (tbl s').
Proof.
  intros Hstep H0 Hrun.
  apply (for_range_ind (λ _ (st : S), Inv st ∧ slots_only L (tbl s) (tbl st)))
    in Hrun; [done|split; [done|apply slots_only_refl]|].
  intros k s1 s2 Hk [HI Hkeep] Hbody.
  destruct (Hstep k s1 s2 Hk HI Hbody) as [HI' Hkeep'].
  split; [done|]. eapply slots_only_trans; eauto.
Qed.

(** The inner loop of the strategies: the row of one node. *)
Lemma fill_row_slots (L : layer) (node : Z) (val : Z → outcome Z) (t t' : table) :
  (∀ i v, val i = Done v → 0 ≤ node < output_count L) →
  for_range 0 (GetNodeInputSize L node)
    (λ i t, v ← val i; Done (SetNodeInput node i v t)) t = Done t' →
  slots_only L t t'.
Proof.
  intros Hnode Hrun.
  apply (for_range_slots L (λ t, t) (λ _, True)) in Hrun as [_ Hrun]; [done| |done].
  intros i t1 t2 Hi _ Hbody. split; [done|].
  apply bind_Done in Hbody as (v & Hv & [= <-]).
  apply slots_only_set; [eauto|done].
Qed.

Section Slots.
Context `{Numerics} `{ShuffleSetOps}.
Variable L : layer.

Lemma connect_serial_slots_only (t0 t : table) :
  connect_serial L t0 = Done t → slots_only L t0 t.
Proof.
  unfold connect_serial. cbv zeta. intros Hrun.
  apply bind_Done in Hrun as ([c t1] & Hrun & [= ->]).
  apply (for_range_slots L snd (λ _, True)) in Hrun as [_ Hrun]; [done| |done].
  intros node s s' Hnode _ Hrow.
  apply (for_range_slots L snd (λ _, True)) in Hrow as [_ Hrow]; [done| |done].
  intros i [c1 t2] [c2 t3] Hi _ [= <- <-]. split; [done|].
  by apply slots_only_set.
Qed.

Lemma connect_random_slots_only (seed : Z) (t0 t : table) :
  connect_random L seed t0 = Done t → slots_only L t0 t.
Proof.
  unfold connect_random. cbv zeta. intros Hrun.
  apply bind_Done in Hrun as ([ss t1] & Hrun & [= ->]).
  apply (for_range_slots L snd (λ _, True)) in Hrun as [_ Hrun]; [done| |done].
  intros node [ss1 t2] [ss2 t3] Hnode _ Hbody. split; [done|]. cbn [snd].
  destruct (GetRandomSet ss1 (GetNodeInputSize L node)) as [set ss'].
  apply bind_Done in Hbody as (t4 & Hfill & [= <- <-]).
  by apply (fill_row_slots L node (λ i, vec_at set i)) in Hfill.
Qed.

Lemma connect_pointwise_slots_only (seed : Z) (t0 t : table) :
  connect_pointwise L seed t0 = Done t → slots_only L t0 t.
Proof.
  unfold connect_pointwise, SetNodeInput_indices. cbv zeta.
  intros Hrun. inv_done Hrun.
  apply shape3_inv in Hassert as (in0 & in1 & in2 & Hin).
  apply shape3_inv in Hassert0 as (out0 & out1 & out2 & Hout).
  assert (Hcount : output_count L = GetShapeSize [out0; out1; out2])
    by (unfold output_count; by rewrite Hout).
  rewrite Hin, Hout in *.
  repeat match goal with
         | Hv : vec_at _ _ = Done _ |- _ => apply vec_at_Done in Hv as [_ [= <-]]
         end.
  match goal with
  | Hl : for_range 0 _ _ _ = Done ?a |- _ => rename Hl into Hloop; destruct a as [mt t1]
  end.
  injection Hrun as ->.
  apply (for_range_slots L snd (λ _, True)) in Hloop as [_ Hloop]; [done| |done].
  intros y s s' Hy _ Hrow.
  apply (for_range_slots L snd (λ _, True)) in Hrow as [_ Hrow]; [done| |done].
  intros x [mt2 t2] [mt3 t3] Hx _ Hbody. split; [done|]. cbn [snd].
  destruct (mt_next mt2) as [r mt4].
  apply bind_Done in Hbody as ([ss t4] & Hbody & [= <- <-]).
  apply (for_range_slots L snd (λ _, True)) in Hbody as [_ Hbody]; [done| |done].
  intros c [ss1 t5] [ss2 t6] Hc _ Hnode. split; [done|]. cbn [snd].
  destruct (GetRandomSet ss1 _) as [set ss'].
  apply bind_Done in Hnode as (t7 & Hfill & [= <- <-]).
  apply (fill_row_slots L (GetShapeIndex [x; y; c] [out0; out1; out2])
           (λ i, ri ← vec_at set i; Done (GetShapeIndex [x; y; ri] [in0; in1; in2]))).
  - intros _ _ _. rewrite Hcount. apply shape3_range; lia.
  - erewrite for_range_ext; [exact Hfill|].
    intros i tx _. cbv beta. by destruct (vec_at set i).
Qed.

Lemma connect_depthwise_slots_only (seed : Z) (t0 t : table) :
  connect_depthwise L seed t0 = Done t → slots_only L t0 t.
Proof.
  unfold connect_depthwise. cbv zeta. intros Hrun. inv_done Hrun.
  match goal with
  | Hl : for_range 0 _ _ _ = Done ?a |- _ => rename Hl into Hloop; destruct a as [mt t1]
  end.
  injection Hrun as ->.
  apply (for_range_slots L snd (λ _, True)) in Hloop as [_ Hloop]; [done| |done].
  intros c [mt2 t2] [mt3 t3] Hc _ Hbody. split; [done|]. cbn [snd].
  destruct (mt_next mt2) as [r mt4].
  apply bind_Done in Hbody as ([ss t4] & Hbody & [= <- <-]).
  apply (for_range_slots L snd (λ _, True)) in Hbody as [_ Hbody]; [done| |done].
  intros y s s' Hy _ Hrow.
  apply (for_range_slots L snd (λ _, True)) in Hrow as [_ Hrow]; [done| |done].
  intros x [ss1 t5] [ss2 t6] Hx _ Hnode. split; [done|]. cbn [snd].
  destruct (GetRandomSet ss1 _) as [set ss'].
  apply bind_Done in Hnode as (t7 & Hfill & [= <- <-]).
  apply (for_range_slots L (λ t, t) (λ _, True)) in Hfill as [_ Hfill]; [done| |done].
  intros i t8 t9 Hi _ Hset. split; [done|].
  apply bind_Done in Hset as (ri & _ & Hset). inv_done Hset. injection Hset as <-.
  repeat match goal with
         | Ha : (_ && _) = true |- _ => apply andb_prop in Ha as [?%Z.leb_le ?%Z.ltb_lt]
         end.
  apply (slots_only_set L (GetShapeIndex [x; y; c] (GetOutputShape L)) i);
    [unfold output_count; lia|done].
Qed.

Lemma gauss_node_slots_only (fuel : nat) (step sigma : list double)
    (output_index : list Z) (st st' : normal_state * table) :
  0 ≤ GetShapeIndex output_index (GetOutputShape L) < output_count L →
  gauss_node L fuel step sigma output_index st = Done st' →
  slots_only L st.2 st'.2.
Proof.
  intros Hnode. unfold gauss_node. cbv zeta. intros Hrun.
  apply bind_Done in Hrun as ([[ns s] t'] & Hrun & [= <-]). simpl.
  apply (for_range_slots L snd (λ _, True)) in Hrun as [_ Hrun]; [done| |done].
  intros i [[ns1 s1] t1] x' Hi _ Hbody. split; [done|].
  apply bind_Done in Hbody as ([v ns2] & _ & [= <-]). simpl.
  by apply slots_only_set.
Qed.

Lemma gauss_nodes_slots_only (fuel : nat) (step sigma : list double)
    (output_index : list Z) (st st' : normal_state * table) :
  valid_indices output_index (GetOutputShape L) →
  gauss_nodes L fuel step sigma output_index st = Done st' →
  slots_only L st.2 st'.2.
Proof.
  revert output_index st. induction fuel as [|fuel IH]; intros output_index st Hvalid;
    simpl; [done|].
  intros Hrun. apply bind_Done in Hrun as (st1 & Hnode & Hrun).
  apply gauss_node_slots_only in Hnode; [|by apply GetShapeIndex_range].
  destruct (GetNextIndices output_index (GetOutputShape L)) as [[] next] eqn:Hnext.
  - apply GetNextIndices_more in Hnext as [Hvalid' _]; [|done].
    eapply slots_only_trans; [done|]. by apply (IH next).
  - by injection Hrun as <-.
Qed.

Lemma connect_gauss_slots_only (fuel : nat) (seed : Z) (t0 t : table) :
  length (GetInputShape L) = length (GetOutputShape L) →
  Forall (Z.lt 0) (GetOutputShape L) →
  connect_gauss L fuel seed t0 = Done t → slots_only L t0 t.
Proof.
  intros Hrank Hpos. unfold connect_gauss. cbv zeta. intros Hrun.
  apply bind_Done in Hrun as (ss & _ & Hrun).
  apply bind_Done in Hrun as ([ns t1] & Hrun & [= ->]).
  apply gauss_nodes_slots_only in Hrun; [done|].
  rewrite Hrank. by apply origin_valid.
Qed.

End Slots.

(** X1: whatever the strategy, the generator assigns slots of the table and
    nothing else: an entry [(node, i)] with [node] outside
    [0, output_count) or [i] outside [0, fan-in of node) is after the call
    what it was before. For gauss, whose [do ... while] serves node 0 before
    it looks at the output shape, this needs an output shape with positive
    extents, of the rank of the input shape. *)
Theorem writes_only_slots `{Numerics} `{ShuffleSetOps}
    (L : layer) (fuel : nat) (seed : Z) (connection : string) (t0 t : table) :
  (argv0_is (SplitString connection) "gauss" = true →
   length (GetInputShape L) = length (GetOutputShape L)
   ∧ Forall (Z.lt 0) (GetOutputShape L)) →
  InitializeNodeInput L fuel seed connection t0 = Done t →
  slots_only L t0 t.
Proof.
  unfold InitializeNodeInput. cbv zeta.
  destruct (argv0_is _ "pointwise"); [intros _; apply connect_pointwise_slots_only|].
  destruct (argv0_is _ "depthwise"); [intros _; apply connect_depthwise_slots_only|].
  destruct (argv0_is _ "gauss").
  { intros [Hrank Hpos]; [done|]. by apply connect_gauss_slots_only. }
  destruct (argv0_is _ "serial"); [intros _; apply connect_serial_slots_only|].
  destruct (_ || _); [intros _; apply connect_random_slots_only|done].
Qed.

Lemma writes_only_slots_witness :
  ∃ t, @InitializeNodeInput lcg_random rotating_shuffle (flat_layer 6 3 2) 64 7 "gauss"
         {[ (3, 0) := 9; (0, 2) := 8 ]} = Done t
       ∧ slots_only (flat_layer 6 3 2) {[ (3, 0) := 9; (0, 2) := 8 ]} t.
Proof.
  eexists. split; [vm_compute; reflexivity|].
  apply (@writes_only_slots lcg_random rotating_shuffle (flat_layer 6 3 2) 64 7 "gauss").
  - intros _. split; [reflexivity|repeat constructor].
  - vm_compute. reflexivity.
Defined.

(** ** The serial strategy reaches every input *)






(** ** The gauss strategy needs as many input nodes as the fan-in *)

Lemma keeps_running_bind {A B : Type} (m : outcome A) (f : A → outcome B) :
  keeps_running m → (∀ a, m = Done a → keeps_running (f a)) →
  keeps_running (m ≫= f).
Proof. destruct m; simpl; auto. Qed.

Lemma keeps_running_for_range {S : Type} (lo hi : Z) (body : Z → S → outcome S)
    (s : S) :
  (∀ i s, keeps_running (body i s)) → keeps_running (for_range lo hi body s).
Proof.
  intros Hbody. unfold for_range. revert s.
  induction (seqZ lo (hi - lo)) as [|i l IH]; intros s; simpl; [done|].
  apply keeps_running_bind; auto.
Qed.

Lemma keeps_running_cases {A : Type} (o : outcome A) :
  keeps_running o → (∀ a, o ≠ Done a) → o = OutOfFuel.
Proof. destruct o; simpl; try done. intros _ Hne. by destruct (Hne a). Qed.

Lemma range_set_size (s : gset Z) (M : Z) :
  (∀ v, v ∈ s → 0 ≤ v < M) → (size s ≤ Z.to_nat M)%nat.
Proof.
  intros Hrange.
  rewrite <- (length_seqZ 0 M), <- (size_list_to_set (C := gset Z) (seqZ 0 M))
    by apply NoDup_seqZ.
  apply subseteq_size. intros v Hv. apply elem_of_list_to_set, elem_of_seqZ.
  specialize (Hrange v Hv). lia.
Qed.

Section GaussInputs.
Context `{Numerics} `{!RegurerlizeLaws}.
Variable L : layer.

Lemma gauss_step_sigma_returns (ins outs : list Z) :
  length ins = length outs → ∃ ss, gauss_step_sigma ins outs = Done ss.
Proof.
  revert outs. induction ins as [|a ins IH]; intros [|b outs]; simpl; try done.
  - eauto.
  - intros [= Hlen]. destruct (IH outs Hlen) as [rest ->]. simpl. eauto.
Qed.

Lemma gauss_pick_keeps_running (fuel : nat) (s : gset Z)
    (input_offset sigma : list double) (ns : normal_state) :
  keeps_running (gauss_pick L fuel s input_offset sigma ns).
Proof.
  revert ns. induction fuel as [|fuel IH]; intros ns; simpl; [done|].
  destruct (gauss_position input_offset sigma ns) as [position ns1].
  case_decide; [apply IH|done].
Qed.

Lemma gauss_node_keeps_running (fuel : nat) (step sigma : list double)
    (output_index : list Z) (st : normal_state * table) :
  keeps_running (gauss_node L fuel step sigma output_index st).
Proof.
  unfold gauss_node. cbv zeta. apply keeps_running_bind.
  - apply keeps_running_for_range. intros i [[ns s] t].
    apply keeps_running_bind; [apply gauss_pick_keeps_running|].
    by intros [v ns'] _.
  - by intros [[ns s] t] _.
Qed.

Lemma gauss_nodes_keeps_running (fuel : nat) (step sigma : list double)
    (output_index : list Z) (st : normal_state * table) :
  keeps_running (gauss_nodes L fuel step sigma output_index st).
Proof.
  revert output_index st. induction fuel as [|fuel IH]; intros output_index st;
    simpl; [done|].
  apply keeps_running_bind; [apply gauss_node_keeps_running|].
  intros st1 _. destruct (GetNextIndices _ _) as [[] next]; [apply IH|done].
Qed.

(** The set [s] of the source holds one input node per slot served so far:
    a node that has been served has no more inputs than there are input
    nodes. *)
Lemma gauss_node_fan_in (fuel : nat) (step sigma : list double)
    (output_index : list Z) (st st' : normal_state * table) :
  length output_index = length step →
  length step = length sigma →
  length sigma = length (GetInputShape L) →
  Forall (Z.lt 0) (GetInputShape L) →
  gauss_node L fuel step sigma output_index st = Done st' →
  GetNodeInputSize L (GetShapeIndex output_index (GetOutputShape L)) ≤ input_count L.
Proof.
  intros Hlen0 Hlen1 Hlen2 Hpos. unfold gauss_node. cbv zeta.
  set (node := GetShapeIndex output_index (GetOutputShape L)).
  set (offs := zip_with _ output_index step).
  assert (Hoffs : length offs = length sigma).
  { unfold offs. rewrite length_zip_with. lia. }
  intros Hrun. apply bind_Done in Hrun as ([[ns s] t'] & Hrun & _).
  apply (for_range_ind (λ k (x : normal_state * gset Z * table),
           size x.1.2 = Z.to_nat k ∧ ∀ v, v ∈ x.1.2 → 0 ≤ v < input_count L))
    in Hrun.
  - simpl in Hrun. destruct Hrun as [Hsize Hrange].
    apply range_set_size in Hrange.
    assert (0 < input_count L).
    { unfold input_count. clear -Hpos. induction Hpos; simpl; [lia|].
      apply Z.mul_pos_pos; lia. }
    lia.
  - cbn [fst snd]. split; [apply size_empty|]. intros v Hv. by apply elem_of_empty in Hv.
  - intros k [[ns1 s1] t1] x' Hk [Hsize Hrange] Hbody. simpl in *.
    apply bind_Done in Hbody as ([v ns2] & Hpick & [= <-]). simpl.
    apply (gauss_pick_fresh L) in Hpick as [Hfresh Hv]; [|done..].
    split.
    + rewrite size_union by (apply disjoint_singleton_l; done).
      rewrite size_singleton, Hsize. lia.
    + intros w [->%elem_of_singleton|Hw]%elem_of_union; auto.
Qed.

(** A run that returns has served every node from the current one on. *)
Lemma gauss_nodes_fan_in (fuel : nat) (step sigma : list double)
    (output_index : list Z) (st st' : normal_state * table) :
  length output_index = length step →
  length step = length sigma →
  length sigma = length (GetInputShape L) →
  Forall (Z.lt 0) (GetInputShape L) →
  valid_indices output_index (GetOutputShape L) →
  gauss_nodes L fuel step sigma output_index st = Done st' →
  ∀ node, GetShapeIndex output_index (GetOutputShape L) ≤ node < output_count L →
          GetNodeInputSize L node ≤ input_count L.
Proof.
  intros Hlen0 Hlen1 Hlen2 Hpos. revert output_index st Hlen0.
  induction fuel as [|fuel IH]; intros output_index st Hlen0 Hvalid; simpl; [done|].
  intros Hrun. apply bind_Done in Hrun as (st1 & Hnode & Hrun).
  apply gauss_node_fan_in in Hnode; [|done..].
  destruct (GetNextIndices output_index (GetOutputShape L)) as [[] next] eqn:Hnext.
  - apply GetNextIndices_more in Hnext as [Hvalid' Hidx]; [|done].
    intros node Hn.
    destruct (decide (node = GetShapeIndex output_index (GetOutputShape L)))
      as [->|Hne]; [done|].
    eapply (IH next); [|done|done|lia].
    apply Forall2_length in Hvalid, Hvalid'. congruence.
  - apply GetNextIndices_last in Hnext; [|done].
    intros node Hn. unfold output_count in Hn.
    by replace node with (GetShapeIndex output_index (GetOutputShape L)) by lia.
Qed.

Lemma connect_gauss_fan_in (fuel : nat) (seed : Z) (t0 t : table) :
  length (GetInputShape L) = length (GetOutputShape L) →
  Forall (Z.lt 0) (GetInputShape L) →
  Forall (Z.lt 0) (GetOutputShape L) →
  connect_gauss L fuel seed t0 = Done t →
  ∀ node, 0 ≤ node < output_count L → GetNodeInputSize L node ≤ input_count L.
Proof.
  intros Hrank Hin Hout. unfold connect_gauss. cbv zeta. intros Hrun.
  apply bind_Done in Hrun as (ss & Hss & Hrun).
  apply bind_Done in Hrun as ([ns t1] & Hrun & _).
  apply gauss_step_sigma_length in Hss.
  intros node Hnode.
  apply (gauss_nodes_fan_in fuel ss.*1 ss.*2 (replicate (length (GetInputShape L)) 0)
           (normal_init (mt_seed seed), t0) (ns, t1));
    rewrite ?length_fmap, ?length_replicate; try done.
  - rewrite Hrank. by apply origin_valid.
  - rewrite origin_index. lia.
Qed.

Lemma connect_gauss_keeps_running (fuel : nat) (seed : Z) (t0 : table) :
  length (GetInputShape L) = length (GetOutputShape L) →
  keeps_running (connect_gauss L fuel seed t0).
Proof.
  intros Hrank. unfold connect_gauss. cbv zeta.
  destruct (gauss_step_sigma_returns _ _ Hrank) as [ss ->]. simpl.
  apply keeps_running_bind; [apply gauss_nodes_keeps_running|].
  by intros [ns t] _.
Qed.

End GaussInputs.

(** X3: the gauss strategy redraws an input node until it finds one the
    output node does not have yet, with no bound on the number of draws. On
    shapes with positive extents and equal ranks, and with a
    [RegurerlizeIndices] that keeps positions inside the input shape: if
    some output node has a fan-in above the number of input nodes, the
    generator never returns -- whatever the iteration budget, the budget is
    used up, and neither an assertion nor an access outside a vector stops
    the call. *)
Theorem gauss_fan_in_above_inputs_never_returns `{Numerics} `{ShuffleSetOps}
    `{!RegurerlizeLaws}
    (L : layer) (fuel : nat) (seed : Z) (t0 : table) (node : Z) :
  length (GetInputShape L) = length (GetOutputShape L) →
  Forall (Z.lt 0) (GetInputShape L) →
  Forall (Z.lt 0) (GetOutputShape L) →
  0 ≤ node < output_count L →
  input_count L < GetNodeInputSize L node →
  InitializeNodeInput L fuel seed "gauss" t0 = OutOfFuel.
Proof.
  intros Hrank Hin Hout Hnode Hfan.
  change (InitializeNodeInput L fuel seed "gauss" t0) with (connect_gauss L fuel seed t0).
  apply keeps_running_cases; [by apply connect_gauss_keeps_running|].
  intros t Hrun.
  pose proof (connect_gauss_fan_in L fuel seed t0 t Hrank Hin Hout Hrun node Hnode).
  lia.
Qed.

Lemma gauss_fan_in_above_inputs_never_returns_witness :
  @InitializeNodeInput lcg_random rotating_shuffle (flat_layer 2 1 3) 50 7 "gauss" ∅
  = OutOfFuel.
Proof.
  apply (@gauss_fan_in_above_inputs_never_returns lcg_random rotating_shuffle
           lcg_random_laws (flat_layer 2 1 3) 50 7 ∅ 0).
  - reflexivity.
  - repeat constructor.
  - repeat constructor.
  - vm_compute. split; [discriminate|reflexivity].
  - reflexivity.
Defined.

(** ** The strategies built on [ShuffleSet] return *)

Section Returns.
Context `{Numerics} `{ShuffleSetOps} `{!ShuffleSetLaws}.
Variable L : layer.





End Returns.



(** ** Pointwise and depthwise connections stay local *)

Lemma shape3_inj (a b c x y z x' y' z' : Z) :
  0 ≤ x < a → 0 ≤ y < b → 0 ≤ x' < a → 0 ≤ y' < b →
  GetShapeIndex [x; y; z] [a; b; c] = GetShapeIndex [x'; y'; z'] [a; b; c] →
  x = x' ∧ y = y' ∧ z = z'.
Proof.
  rewrite !shape3_index. intros Hx Hy Hx' Hy' Heq.
  assert (Hk : x - x' = a * ((y' + b * z') - (y + b * z))) by lia.
  assert (Hk0 : (y' + b * z') - (y + b * z) = 0) by nia.
  assert (Hz : y - y' = b * (z' - z)) by lia.
  assert (Hz0 : z' - z = 0) by nia.
  lia.
Qed.

(** A property of rows that is stated slot by slot reads its own row only. *)
Lemma slotwise_local (L : layer) (Q : Z → option Z → Prop) :
  row_local (λ t node, ∀ i, 0 ≤ i < GetNodeInputSize L node → Q node (t !! (node, i))).
Proof.
  intros node node' t t' Hkeep Hne Hrow i Hi. rewrite Hkeep by done. auto.
Qed.

(** One node served from a [ShuffleSet]: every slot of its row holds the
    image of a candidate. *)
Lemma shuffled_values `{ShuffleSetOps} `{!ShuffleSetLaws}
    (node n pool : Z) (g : Z → Z) (val : Z → outcome Z)
    (body : Z → table → outcome table) (ss : ShuffleSet) (t t' : table) :
  (∀ i t, body i t = v ← val i; Done (SetNodeInput node i v t)) →
  (∀ i v, val i = Done v →
     0 ≤ i ∧ ∃ ri, (GetRandomSet ss n).1 !! Z.to_nat i = Some ri ∧ v = g ri) →
  ss_reachable pool ss → 0 ≤ n ≤ pool →
  for_range 0 n body t = Done t' →
  ss_reachable pool (GetRandomSet ss n).2
  ∧ other_rows_kept node t t'
  ∧ ∀ i, 0 ≤ i < n → ∃ r, 0 ≤ r < pool ∧ t' !! (node, i) = Some (g r).
Proof.
  intros Hbody Hval Hreach Hfan Hrun.
  rewrite (for_range_ext _ _ _ _ _ (λ i t _, Hbody i t)) in Hrun.
  apply fill_row in Hrun as [Hslots Hkeep].
  destruct (random_set_distinct pool ss _ Hreach Hfan) as (_ & _ & Hpool).
  split; [by constructor|]. split; [done|].
  intros i Hi. destruct (Hslots i Hi) as (v & Hv & Ht).
  apply Hval in Hv as (_ & ri & Hri & ->). exists ri. split; [|done].
  eapply (proj1 (Forall_lookup _ _)) in Hpool; eauto.
Qed.

Section Local.
Context `{Numerics} `{ShuffleSetOps} `{!ShuffleSetLaws}.
Variable L : layer.

(** X5: the pointwise strategy connects an output node to input nodes at
    its own position only: every input of the node at [(x, y, c)] is an
    input node [(x, y, r)], with [r] an input channel. (Given a [ShuffleSet]
    that hands out candidates, and fan-ins that do not exceed the number of
    input channels.) *)
Theorem pointwise_keeps_position (fuel : nat) (seed : Z) (t0 t : table) :
  (∀ node, 0 ≤ node < output_count L →
           0 ≤ GetNodeInputSize L node ≤ nth 2 (GetInputShape L) 0) →
  InitializeNodeInput L fuel seed "pointwise" t0 = Done t →
  ∀ x y c i,
    0 ≤ x < nth 0 (GetOutputShape L) 0 → 0 ≤ y < nth 1 (GetOutputShape L) 0 →
    0 ≤ c < nth 2 (GetOutputShape L) 0 →
    0 ≤ i < GetNodeInputSize L (GetShapeIndex [x; y; c] (GetOutputShape L)) →
    ∃ r, 0 ≤ r < nth 2 (GetInputShape L) 0
         ∧ GetNodeInput t (GetShapeIndex [x; y; c] (GetOutputShape L)) i
           = Some (GetShapeIndex [x; y; r] (GetInputShape L)).
Proof.
  change (InitializeNodeInput L fuel seed "pointwise" t0)
    with (connect_pointwise L seed t0).
  unfold connect_pointwise, output_count, SetNodeInput_indices, GetNodeInput. cbv zeta.
  intros Hfan Hrun. inv_done Hrun.
  apply shape3_inv in Hassert as (in0 & in1 & in2 & Hin).
  apply shape3_inv in Hassert0 as (out0 & out1 & out2 & Hout).
  rewrite Hin, Hout in *.
  repeat match goal with
         | Hv : vec_at _ _ = Done _ |- _ => apply vec_at_Done in Hv as [_ [= <-]]
         end.
  apply Z.eqb_eq in Hassert1, Hassert2. subst out0 out1.
  match goal with
  | Hl : for_range 0 _ _ _ = Done ?a |- _ => rename Hl into Hloop; destruct a as [mt t1]
  end.
  injection Hrun as ->.
  simpl (nth _ _ _) in *.
  intros x y c i Hx Hy Hc Hi.
  set (R := λ (t : table) (node : Z),
         ∀ i, 0 ≤ i < GetNodeInputSize L node →
           (λ node (o : option Z),
              ∀ x y c, 0 ≤ x < in0 → 0 ≤ y < in1 → 0 ≤ c < out2 →
                node = GetShapeIndex [x; y; c] [in0; in1; out2] →
                ∃ r, 0 ≤ r < in2 ∧ o = Some (GetShapeIndex [x; y; r] [in0; in1; in2]))
             node (t !! (node, i))).
  assert (Hlocal : row_local R) by apply slotwise_local.
  apply (for_range_cover R snd (λ _, True)
           (λ y n, ∃ x c, 0 ≤ x < in0 ∧ 0 ≤ c < out2
                          ∧ n = GetShapeIndex [x; y; c] [in0; in1; out2]))
    in Hloop.
  { destruct Hloop as (_ & _ & Hcov).
    apply (Hcov y (GetShapeIndex [x; y; c] [in0; in1; out2])) with (x := x) (c := c);
      [lia|eauto|done..]. }
  2: done.
  clear x y c i Hx Hy Hc Hi Hloop.
  intros y s s' Hy _ Hrun.
  apply (for_range_cover R snd (λ _, True)
           (λ x n, ∃ c, 0 ≤ c < out2
                        ∧ n = GetShapeIndex [x; y; c] [in0; in1; out2])) in Hrun.
  { destruct Hrun as (_ & Hkeep & Hcov). split; [done|]. split; [done|].
    intros n (x & c & Hx & Hc & ->). apply (Hcov x); [lia|]. eauto. }
  2: done.
  clear Hrun. intros x [mt2 t2] [mt' t'] Hx _ Hrun.
  destruct (mt_next mt2) as [r mt3].
  apply bind_Done in Hrun as ([ss t4] & Hrun & [= <- <-]). cbn [snd].
  apply (for_range_cover R snd (λ st, ss_reachable in2 st.1)
           (λ c n, n = GetShapeIndex [x; y; c] [in0; in1; out2])) in Hrun.
  { destruct Hrun as (_ & Hkeep & Hcov). split; [done|]. split; [done|].
    intros n (c & Hc & ->). by apply (Hcov c). }
  2: constructor.
  clear Hrun. intros c [ss3 t3] [ss' t''] Hc Hreach Hrun. cbn [fst snd] in *.
  set (node := GetShapeIndex [x; y; c] [in0; in1; out2]) in *.
  destruct (GetRandomSet ss3 (GetNodeInputSize L node)) as [set ss4] eqn:Hget.
  apply bind_Done in Hrun as (t5 & Hfill & [= <- <-]).
  assert (Hfan' : 0 ≤ GetNodeInputSize L node ≤ in2).
  { apply Hfan. apply (shape3_range in0 in1 out2 x y c); lia. }
  eapply (shuffled_values node _ in2
            (λ r, GetShapeIndex [x; y; r] [in0; in1; in2])
            (λ i, ri ← vec_at set i; Done (GetShapeIndex [x; y; ri] [in0; in1; in2])))
    in Hfill as (Hreach' & Hkeep & Hvals); [| | |done|done].
  - rewrite Hget in Hreach'. split; [done|].
    assert (Hrow : R t5 node).
    { intros i Hi x' y' c' Hx' Hy' Hc' Heq.
      apply shape3_inj in Heq as (<- & <- & <-); [|lia..]. by apply Hvals. }
    split; [|by intros ? ->].
    by apply (rows_kept_fill _ node).
  - intros i tx. by destruct (vec_at set i).
  - rewrite Hget. intros i v Hv. apply bind_Done in Hv as (ri & Hri & [= <-]).
    apply vec_at_Done in Hri as [? ?]. eauto.
Qed.

(** X6: the depthwise strategy connects an output node to input nodes of
    its own channel only: every input of the node at [(x, y, c)] is an input
    node [(ix, iy, c)], with [(ix, iy)] a position of the input. (Given a
    [ShuffleSet] that hands out candidates, input extents that are not
    negative, and fan-ins that do not exceed the number of input
    positions.) *)
Theorem depthwise_keeps_channel (fuel : nat) (seed : Z) (t0 t : table) :
  Forall (Z.le 0) (GetInputShape L) →
  (∀ node, 0 ≤ node < output_count L →
           0 ≤ GetNodeInputSize L node
             ≤ nth 0 (GetInputShape L) 0 * nth 1 (GetInputShape L) 0) →
  InitializeNodeInput L fuel seed "depthwise" t0 = Done t →
  ∀ x y c i,
    0 ≤ x < nth 0 (GetOutputShape L) 0 → 0 ≤ y < nth 1 (GetOutputShape L) 0 →
    0 ≤ c < nth 2 (GetOutputShape L) 0 →
    0 ≤ i < GetNodeInputSize L (GetShapeIndex [x; y; c] (GetOutputShape L)) →
    ∃ ix iy, 0 ≤ ix < nth 0 (GetInputShape L) 0 ∧ 0 ≤ iy < nth 1 (GetInputShape L) 0
         ∧ GetNodeInput t (GetShapeIndex [x; y; c] (GetOutputShape L)) i
           = Some (GetShapeIndex [ix; iy; c] (GetInputShape L)).
Proof.
  change (InitializeNodeInput L fuel seed "depthwise" t0)
    with (connect_depthwise L seed t0).
  unfold connect_depthwise, output_count, GetNodeInput. cbv zeta.
  intros Hnonneg_in Hfan Hrun. inv_done Hrun.
  apply shape3_inv in Hassert as (in0 & in1 & in2 & Hin).
  apply shape3_inv in Hassert0 as (out0 & out1 & out2 & Hout).
  rewrite Hin, Hout in *.
  repeat match goal with
         | Hv : vec_at _ _ = Done _ |- _ => apply vec_at_Done in Hv as [_ [= <-]]
         end.
  apply Z.eqb_eq in Hassert1. subst out2.
  match goal with
  | Hl : for_range 0 _ _ _ = Done ?a |- _ => rename Hl into Hloop; destruct a as [mt t1]
  end.
  injection Hrun as ->.
  apply Forall_cons in Hnonneg_in as [Hi0 Hnonneg_in].
  apply Forall_cons in Hnonneg_in as [Hi1 _].
  simpl (nth _ _ _) in *.
  intros x y c i Hx Hy Hc Hi.
  set (R := λ (t : table) (node : Z),
         ∀ i, 0 ≤ i < GetNodeInputSize L node →
           (λ node (o : option Z),
              ∀ x y c, 0 ≤ x < out0 → 0 ≤ y < out1 → 0 ≤ c < in2 →
                node = GetShapeIndex [x; y; c] [out0; out1; in2] →
                ∃ ix iy, 0 ≤ ix < in0 ∧ 0 ≤ iy < in1
                         ∧ o = Some (GetShapeIndex [ix; iy; c] [in0; in1; in2]))
             node (t !! (node, i))).
  assert (Hlocal : row_local R) by apply slotwise_local.
  apply (for_range_cover R snd (λ _, True)
           (λ c n, ∃ x y, 0 ≤ x < out0 ∧ 0 ≤ y < out1
                          ∧ n = GetShapeIndex [x; y; c] [out0; out1; in2]))
    in Hloop.
  { destruct Hloop as (_ & _ & Hcov).
    apply (Hcov c (GetShapeIndex [x; y; c] [out0; out1; in2])) with (x := x) (y := y);
      [lia|eauto|done..]. }
  2: done.
  clear x y c i Hx Hy Hc Hi Hloop.
  intros c [mt2 t2] [mt' t'] Hc _ Hrun.
  destruct (mt_next mt2) as [r mt3].
  apply bind_Done in Hrun as ([ss t4] & Hrun & [= <- <-]). cbn [snd].
  apply (for_range_cover R snd (λ st, ss_reachable (in0 * in1) st.1)
           (λ y n, ∃ x, 0 ≤ x < out0
                        ∧ n = GetShapeIndex [x; y; c] [out0; out1; in2])) in Hrun.
  { destruct Hrun as (_ & Hkeep & Hcov). split; [done|]. split; [done|].
    intros n (x & y & Hx & Hy & ->). apply (Hcov y); [lia|]. eauto. }
  2: constructor.
  clear Hrun. intros y s s' Hy Hreach Hrun.
  apply (for_range_cover R snd (λ st, ss_reachable (in0 * in1) st.1)
           (λ x n, n = GetShapeIndex [x; y; c] [out0; out1; in2])) in Hrun.
  { destruct Hrun as (Hreach' & Hkeep & Hcov). split; [done|]. split; [done|].
    intros n (x & Hx & ->). by apply (Hcov x). }
  2: done.
  clear Hrun Hreach. intros x [ss3 t3] [ss' t''] Hx Hreach Hrun. cbn [fst snd] in *.
  set (node := GetShapeIndex [x; y; c] [out0; out1; in2]) in *.
  destruct (GetRandomSet ss3 (GetNodeInputSize L node)) as [set ss4] eqn:Hget.
  apply bind_Done in Hrun as (t5 & Hfill & [= <- <-]).
  assert (Hfan' : 0 ≤ GetNodeInputSize L node ≤ in0 * in1).
  { apply Hfan. apply (shape3_range out0 out1 in2 x y c); lia. }
  eapply (shuffled_values node _ (in0 * in1)
            (λ q, GetShapeIndex [Z.rem q in0; Z.quot q in0; c] [in0; in1; in2])
            (λ i, ri ← vec_at set i;
                  BB_ASSERT ((0 <=? node) && (node <? GetShapeSize [out0; out1; in2]));;
                  BB_ASSERT
                    ((0 <=? GetShapeIndex [Z.rem ri in0; Z.quot ri in0; c] [in0; in1; in2])
                     && (GetShapeIndex [Z.rem ri in0; Z.quot ri in0; c] [in0; in1; in2]
                         <? GetShapeSize [in0; in1; in2]));;
                  Done (GetShapeIndex [Z.rem ri in0; Z.quot ri in0; c] [in0; in1; in2])))
    in Hfill as (Hreach' & Hkeep & Hvals); [| | |done|done].
  - rewrite Hget in Hreach'. split; [done|].
    assert (Hrow : R t5 node).
    { intros i Hi x' y' c' Hx' Hy' Hc' Heq.
      apply shape3_inj in Heq as (<- & <- & <-); [|lia..].
      destruct (Hvals i Hi) as (q & Hq & ->).
      assert (0 < in0) by (destruct (decide (in0 = 0)) as [->|]; lia).
      exists (Z.rem q in0), (Z.quot q in0).
      rewrite Z.rem_mod_nonneg, Z.quot_div_nonneg by lia.
      split; [apply Z.mod_pos_bound; lia|]. split; [|done].
      split; [apply Z.div_pos; lia|]. apply Z.div_lt_upper_bound; lia. }
    split; [|by intros ? ->].
    by apply (rows_kept_fill _ node).
  - intros i tx. destruct (vec_at set i); simpl; try done.
    repeat (destruct (BB_ASSERT _); simpl; try done).
  - rewrite Hget. intros i v Hv. apply bind_Done in Hv as (ri & Hri & Hv).
    inv_done Hv. injection Hv as <-.
    apply vec_at_Done in Hri as [? ?]. eauto.
Qed.

End Local.

Lemma pointwise_keeps_position_witness :
  ∃ t, @InitializeNodeInput lcg_random rotating_shuffle
         (image_layer [2; 1; 3] [2; 1; 2] 2) 0 5 "pointwise" ∅ = Done t
       ∧ ∃ r, 0 ≤ r < 3 ∧ GetNodeInput t 3 1 = Some (GetShapeIndex [1; 0; r] [2; 1; 3]).
Proof.
  eexists. split; [vm_compute; reflexivity|].
  apply (@pointwise_keeps_position lcg_random rotating_shuffle rotating_shuffle_laws
           (image_layer [2; 1; 3] [2; 1; 2] 2) 0 5 ∅ _
           ltac:(intros node _; vm_compute; split; discriminate)
           ltac:(vm_compute; reflexivity) 1 0 1 1);
    vm_compute; split; (discriminate || reflexivity).
Defined.

Lemma depthwise_keeps_channel_witness :
  ∃ t, @InitializeNodeInput lcg_random rotating_shuffle
         (image_layer [2; 2; 2] [1; 1; 2] 3) 0 5 "depthwise" ∅ = Done t
       ∧ ∃ ix iy, 0 ≤ ix < 2 ∧ 0 ≤ iy < 2
           ∧ GetNodeInput t 1 0 = Some (GetShapeIndex [ix; iy; 1] [2; 2; 2]).
Proof.
  eexists. split; [vm_compute; reflexivity|].
  apply (@depthwise_keeps_channel lcg_random rotating_shuffle rotating_shuffle_laws
           (image_layer [2; 2; 2] [1; 1; 2] 3) 0 5 ∅ _
           ltac:(repeat constructor; lia)
           ltac:(intros node _; vm_compute; split; discriminate)
           ltac:(vm_compute; reflexivity) 0 0 1 0);
    vm_compute; split; (discriminate || reflexivity).
Defined.

(** ** The gauss strategy serves node 0 first *)

Lemma keeps_entries_refl (t : table) : keeps_entries t t.
Proof. by intros k. Qed.

Lemma keeps_entries_trans (t1 t2 t3 : table) :
  keeps_entries t1 t2 → keeps_entries t2 t3 → keeps_entries t1 t3.
Proof. intros H12 H23 k Hk. auto. Qed.

Lemma keeps_entries_set (node i v : Z) (t : table) :
  keeps_entries t (SetNodeInput node i v t).
Proof.
  intros k Hk. unfold SetNodeInput. destruct (decide (k = (node, i))) as [->|Hne].
  - rewrite lookup_insert_eq. eauto.
  - by rewrite lookup_insert_ne.
Qed.

Section GaussFirst.
Context `{Numerics}.
Variable L : layer.

Lemma gauss_node_fills (fuel : nat) (step sigma : list double)
    (output_index : list Z) (st st' : normal_state * table) :
  gauss_node L fuel step sigma output_index st = Done st' →
  keeps_entries st.2 st'.2
  ∧ ∀ i, 0 ≤ i < GetNodeInputSize L (GetShapeIndex output_index (GetOutputShape L)) →
         is_Some (st'.2 !! (GetShapeIndex output_index (GetOutputShape L), i)).
Proof.
  unfold gauss_node. cbv zeta.
  set (node := GetShapeIndex output_index (GetOutputShape L)).
  intros Hrun. apply bind_Done in Hrun as ([[ns s] t'] & Hrun & [= <-]). cbn [snd].
  apply (for_range_ind (λ k (x : normal_state * gset Z * table),
           keeps_entries st.2 x.2
           ∧ ∀ i, 0 ≤ i < k → is_Some (x.2 !! (node, i)))) in Hrun.
  - destruct Hrun as [Hkeep Hfilled]. split; [done|]. intros i Hi. apply Hfilled. lia.
  - split; [apply keeps_entries_refl|intros; lia].
  - intros k [[ns1 s1] t1] x' Hk [Hkeep Hfilled] Hbody.
    apply bind_Done in Hbody as ([v ns2] & _ & [= <-]). cbn [snd] in *. split.
    + eapply keeps_entries_trans; [done|apply keeps_entries_set].
    + intros i Hi. destruct (decide (i = k)) as [->|Hne].
      * unfold SetNodeInput. rewrite lookup_insert_eq. eauto.
      * apply keeps_entries_set, Hfilled. lia.
Qed.

Lemma gauss_nodes_keep (fuel : nat) (step sigma : list double)
    (output_index : list Z) (st st' : normal_state * table) :
  gauss_nodes L fuel step sigma output_index st = Done st' →
  keeps_entries st.2 st'.2.
Proof.
  revert output_index st. induction fuel as [|fuel IH]; intros output_index st;
    simpl; [done|].
  intros Hrun. apply bind_Done in Hrun as (st1 & Hnode & Hrun).
  apply gauss_node_fills in Hnode as [Hkeep _].
  destruct (GetNextIndices output_index (GetOutputShape L)) as [[] next].
  - eapply keeps_entries_trans; [done|]. by apply (IH next).
  - by injection Hrun as <-.
Qed.

Lemma connect_gauss_first (fuel : nat) (seed : Z) (t0 t : table) :
  connect_gauss L fuel seed t0 = Done t →
  ∀ i, 0 ≤ i < GetNodeInputSize L 0 → is_Some (t !! (0, i)).
Proof.
  unfold connect_gauss. cbv zeta. intros Hrun.
  apply bind_Done in Hrun as (ss & _ & Hrun).
  apply bind_Done in Hrun as ([ns t1] & Hrun & [= ->]).
  destruct fuel as [|fuel]; [done|]. simpl in Hrun.
  apply bind_Done in Hrun as (st1 & Hnode & Hrun).
  apply gauss_node_fills in Hnode as [_ Hfilled]. rewrite origin_index in Hfilled.
  intros i Hi. specialize (Hfilled i Hi).
  destruct (GetNextIndices _ (GetOutputShape L)) as [[] next].
  - apply gauss_nodes_keep in Hrun. by apply Hrun.
  - by injection Hrun as ->.
Qed.

End GaussFirst.

(** X7: the gauss strategy fills the row of node 0 before it looks at the
    output shape (its loop over the output nodes is a [do ... while]): once
    it has returned, every input slot of node 0 is assigned. This holds for
    a layer without any output node too, where these entries lie outside
    the table. *)
Theorem gauss_serves_node_zero `{Numerics} `{ShuffleSetOps}
    (L : layer) (fuel : nat) (seed : Z) (t0 t : table) :
  InitializeNodeInput L fuel seed "gauss" t0 = Done t →
  ∀ i, 0 ≤ i < GetNodeInputSize L 0 → is_Some (GetNodeInput t 0 i).
Proof.
  change (InitializeNodeInput L fuel seed "gauss" t0) with (connect_gauss L fuel seed t0).
  apply connect_gauss_first.
Qed.

(** Three input nodes, no output node, fan-in 1: an entry is written for
    node 0, which the layer does not have. *)
Lemma gauss_serves_node_zero_witness :
  output_count (flat_layer 3 0 1) = 0
  ∧ ∃ t, @InitializeNodeInput lcg_random rotating_shuffle (flat_layer 3 0 1) 8 7 "gauss" ∅
         = Done t
       ∧ is_Some (GetNodeInput t 0 0) ∧ ¬ slot (flat_layer 3 0 1) (0, 0).
Proof.
  split; [reflexivity|]. eexists. split; [vm_compute; reflexivity|]. split.
  - apply (@gauss_serves_node_zero lcg_random rotating_shuffle (flat_layer 3 0 1) 8 7 ∅).
    + vm_compute. reflexivity.
    + split; [discriminate|reflexivity].
  - intros [[_ Hlt] _]. by vm_compute in Hlt.
Defined.

(** ** What the table held before *)

Section Overlay.
Context `{Numerics} `{ShuffleSetOps}.
Variable L : layer.
Variable t : table.

Lemma connect_serial_overlay :
  connect_serial L t = (λ w : table, w ∪ t) <$> connect_serial L ∅.
Proof.
  unfold connect_serial. cbv zeta.
  set (F := λ st : Z * table, (st.1, st.2 ∪ t)).
  replace (0, t) with (F (0, ∅)) by (unfold F; simpl; by rewrite (left_id_L ∅ (∪))).
  unfold for_range at 1 3. rewrite (for_each_frame F).
  - destruct (for_each _ _ (0, ∅)) as [[c w]| | |]; reflexivity.
  - intros node st. unfold for_range. apply (for_each_frame F).
    intros i [c w]. unfold F. simpl. unfold SetNodeInput. by rewrite insert_union_l.
Qed.

(** One node served from a [ShuffleSet]. *)
Lemma shuffled_overlay (n : Z) (body : list Z → Z → table → outcome table)
    (ss : ShuffleSet) (w : table) :
  (∀ set i w, body set i (w ∪ t) = (λ w : table, w ∪ t) <$> body set i w) →
  (let '(random_set, ss') := GetRandomSet ss n in
   t' ← for_range 0 n (body random_set) (w ∪ t);
   Done (ss', t'))
  = (λ st : ShuffleSet * table, (st.1, st.2 ∪ t))
    <$> (let '(random_set, ss') := GetRandomSet ss n in
         t' ← for_range 0 n (body random_set) w;
         Done (ss', t')).
Proof.
  intros Hbody. destruct (GetRandomSet ss n) as [set ss'].
  unfold for_range. rewrite (for_each_frame (λ w : table, w ∪ t)) by apply Hbody.
  by destruct (for_each _ _ w).
Qed.

Lemma connect_random_overlay (seed : Z) :
  connect_random L seed t = (λ w : table, w ∪ t) <$> connect_random L seed ∅.
Proof. apply connect_random_frame. Qed.

Lemma connect_pointwise_overlay (seed : Z) :
  connect_pointwise L seed t = (λ w : table, w ∪ t) <$> connect_pointwise L seed ∅.
Proof.
  unfold connect_pointwise, SetNodeInput_indices. cbv zeta.
  repeat match goal with
         | |- (BB_ASSERT ?b ≫= _) = _ <$> (BB_ASSERT ?b ≫= _) =>
             destruct (BB_ASSERT b); cbn [mbind outcome_bind]; try reflexivity
         | |- (vec_at ?v ?i ≫= _) = _ <$> (vec_at ?v ?i ≫= _) =>
             destruct (vec_at v i); cbn [mbind outcome_bind]; try reflexivity
         end.
  set (F := λ st : mt19937_64 * table, (st.1, st.2 ∪ t)).
  replace (mt_seed seed, t) with (F (mt_seed seed, ∅))
    by (unfold F; simpl; by rewrite (left_id_L ∅ (∪))).
  unfold for_range at 1 5. rewrite (for_each_frame F).
  - destruct (for_each _ _ (mt_seed seed, ∅)) as [[mt w]| | |]; reflexivity.
  - intros y st. unfold for_range at 1 4. apply (for_each_frame F).
    intros x [mt w]. unfold F at 1. cbn [fst snd].
    destruct (mt_next mt) as [r mt'].
    set (G := λ st : ShuffleSet * table, (st.1, st.2 ∪ t)).
    match goal with
    | |- context [(ShuffleSet_new ?p r, w ∪ t)] =>
        change (ShuffleSet_new p r, w ∪ t) with (G (ShuffleSet_new p r, w))
    end.
    unfold for_range at 1 3. rewrite (for_each_frame G).
    + destruct (for_each _ _ (ShuffleSet_new _ r, w)) as [[ss w']| | |]; reflexivity.
    + intros c [ss w']. unfold G at 1. cbn [fst snd].
      apply (shuffled_overlay _
               (λ set i t1, ri ← vec_at set i;
                  Done (SetNodeInput (GetShapeIndex [x; y; c] (GetOutputShape L)) i
                          (GetShapeIndex [x; y; ri] (GetInputShape L)) t1))).
      intros set i w0. destruct (vec_at set i); simpl; try done.
      unfold SetNodeInput. by rewrite insert_union_l.
Qed.

Lemma connect_depthwise_overlay (seed : Z) :
  connect_depthwise L seed t = (λ w : table, w ∪ t) <$> connect_depthwise L seed ∅.
Proof.
  unfold connect_depthwise. cbv zeta.
  repeat match goal with
         | |- (BB_ASSERT ?b ≫= _) = _ <$> (BB_ASSERT ?b ≫= _) =>
             destruct (BB_ASSERT b); cbn [mbind outcome_bind]; try reflexivity
         | |- (vec_at ?v ?i ≫= _) = _ <$> (vec_at ?v ?i ≫= _) =>
             destruct (vec_at v i); cbn [mbind outcome_bind]; try reflexivity
         end.
  set (F := λ st : mt19937_64 * table, (st.1, st.2 ∪ t)).
  replace (mt_seed seed, t) with (F (mt_seed seed, ∅))
    by (unfold F; simpl; by rewrite (left_id_L ∅ (∪))).
  unfold for_range at 1 5. rewrite (for_each_frame F).
  - destruct (for_each _ _ (mt_seed seed, ∅)) as [[mt w]| | |]; reflexivity.
  - intros c [mt w]. unfold F at 1. cbn [fst snd].
    destruct (mt_next mt) as [r mt'].
    set (G := λ st : ShuffleSet * table, (st.1, st.2 ∪ t)).
    match goal with
    | |- context [(ShuffleSet_new ?p r, w ∪ t)] =>
        change (ShuffleSet_new p r, w ∪ t) with (G (ShuffleSet_new p r, w))
    end.
    unfold for_range at 1 4. rewrite (for_each_frame G).
    + destruct (for_each _ _ (ShuffleSet_new _ r, w)) as [[ss w']| | |]; reflexivity.
    + intros y st. unfold for_range at 1 3. apply (for_each_frame G).
      intros x [ss w']. unfold G at 1. cbn [fst snd].
      apply (shuffled_overlay _
               (λ set i t1, ri ← vec_at set i;
                  BB_ASSERT ((0 <=? GetShapeIndex [x; y; c] (GetOutputShape L))
                             && (GetShapeIndex [x; y; c] (GetOutputShape L)
                                 <? GetShapeSize (GetOutputShape L)));;
                  BB_ASSERT
                    ((0 <=? GetShapeIndex [Z.rem ri _; Z.quot ri _; c] (GetInputShape L))
                     && (GetShapeIndex [Z.rem ri _; Z.quot ri _; c] (GetInputShape L)
                         <? GetShapeSize (GetInputShape L)));;
                  Done (SetNodeInput (GetShapeIndex [x; y; c] (GetOutputShape L)) i
                          (GetShapeIndex [Z.rem ri _; Z.quot ri _; c] (GetInputShape L))
                          t1))).
      intros set i w0. destruct (vec_at set i); simpl; try done.
      repeat (destruct (BB_ASSERT _); simpl; try done).
      unfold SetNodeInput. by rewrite insert_union_l.
Qed.

Lemma gauss_node_overlay (fuel : nat) (step sigma : list double)
    (output_index : list Z) (ns : normal_state) (w : table) :
  gauss_node L fuel step sigma output_index (ns, w ∪ t)
  = (λ st : normal_state * table, (st.1, st.2 ∪ t))
    <$> gauss_node L fuel step sigma output_index (ns, w).
Proof.
  unfold gauss_node. cbv zeta. cbn [fst snd].
  set (F := λ x : normal_state * gset Z * table, (x.1, x.2 ∪ t)).
  change (ns, ∅, w ∪ t) with (F (ns, ∅, w)).
  unfold for_range. rewrite (for_each_frame F).
  - destruct (for_each _ _ (ns, ∅, w)) as [[[ns' s] w']| | |]; reflexivity.
  - intros i [[ns1 s1] w1]. unfold F at 1. cbn [fst snd].
    destruct (gauss_pick _ _ _ _ _ _) as [[v ns2]| | |]; simpl; try done.
    unfold F, SetNodeInput. simpl. by rewrite insert_union_l.
Qed.

Lemma gauss_nodes_overlay (fuel : nat) (step sigma : list double)
    (output_index : list Z) (ns : normal_state) (w : table) :
  gauss_nodes L fuel step sigma output_index (ns, w ∪ t)
  = (λ st : normal_state * table, (st.1, st.2 ∪ t))
    <$> gauss_nodes L fuel step sigma output_index (ns, w).
Proof.
  revert output_index ns w. induction fuel as [|fuel IH]; intros output_index ns w;
    simpl; [done|].
  rewrite gauss_node_overlay.
  destruct (gauss_node L fuel step sigma output_index (ns, w)) as [[ns1 w1]| | |];
    simpl; try done.
  destruct (GetNextIndices output_index (GetOutputShape L)) as [[] next]; [|done].
  apply IH.
Qed.

Lemma connect_gauss_overlay (fuel : nat) (seed : Z) :
  connect_gauss L fuel seed t = (λ w : table, w ∪ t) <$> connect_gauss L fuel seed ∅.
Proof.
  unfold connect_gauss. cbv zeta.
  destruct (gauss_step_sigma _ _) as [ss| | |]; simpl; try done.
  rewrite <- (left_id_L ∅ (∪) t) at 1. rewrite gauss_nodes_overlay.
  by destruct (gauss_nodes _ _ _ _ _ (_, ∅)) as [[ns w]| | |].
Qed.

End Overlay.

(** X8: what the table holds before the call has no influence on what the
    generator writes: started on a table [t], every strategy stops as it
    stops on the empty table, and when it returns, its result is the table
    it produces from the empty table, laid over [t] -- the entries of [t]
    that it does not overwrite are kept. Two runs with the same seed on the
    same layer therefore assign the same input nodes to the same slots,
    whatever the two tables held. *)
Theorem prior_table_is_overlaid `{Numerics} `{ShuffleSetOps}
    (L : layer) (fuel : nat) (seed : Z) (connection : string) (t : table) :
  InitializeNodeInput L fuel seed connection t
  = (λ w : table, w ∪ t) <$> InitializeNodeInput L fuel seed connection ∅
  ∧ ∀ (t' r r' : table),
      InitializeNodeInput L fuel seed connection t = Done r →
      InitializeNodeInput L fuel seed connection t' = Done r' →
      ∃ w, InitializeNodeInput L fuel seed connection ∅ = Done w
           ∧ ∀ k, is_Some (w !! k) → r !! k = w !! k ∧ r' !! k = w !! k.
Proof.
  assert (Hoverlay : ∀ t0,
            InitializeNodeInput L fuel seed connection t0
            = (λ w : table, w ∪ t0) <$> InitializeNodeInput L fuel seed connection ∅).
  { intros t0. unfold InitializeNodeInput. cbv zeta.
    destruct (argv0_is _ "pointwise"); [apply connect_pointwise_overlay|].
    destruct (argv0_is _ "depthwise"); [apply connect_depthwise_overlay|].
    destruct (argv0_is _ "gauss"); [apply connect_gauss_overlay|].
    destruct (argv0_is _ "serial"); [apply connect_serial_overlay|].
    destruct (_ || _); [apply connect_random_overlay|done]. }
  split; [apply Hoverlay|].
  intros t' r r'. rewrite (Hoverlay t), (Hoverlay t').
  destruct (InitializeNodeInput L fuel seed connection ∅) as [w| | |]; try done.
  simpl. intros [= <-] [= <-]. exists w. split; [done|].
  intros k [v Hv]. rewrite Hv. split; by apply lookup_union_Some_l.
Qed.

End ConnectivityProofs.

(** * Further properties of [ReLU] *)

Module ReLUBulkProofs.
Import ReLU.

(** ** Loops over the elements of a buffer *)


(** A loop that reads outside a vector in its first iteration. *)
Lemma mapM_first_undefined {B : Type} (F : Z → outcome B) (n : Z) :
  0 < n → F 0 = Undefined → mapM F (seqZ 0 n) = Undefined.
Proof. intros Hn HF. rewrite seqZ_cons by lia. cbn [mapM]. by rewrite HF. Qed.

Section Bulk.
Context {T : Type} `{!Scalar T} `{!@BinarizeOps T}.

(** The elementwise function of the forward pass, and of the backward pass
    in terms of the value it reads from the cache. *)
Local Abbreviation relu := (λ x : T, if gtb x zero then x else zero).
Local Abbreviation mask := (λ (sig grad : T), if gtb sig zero then grad else zero).






End Bulk.







(** X12: [Backward] uses up the cache. After a [Backward] that returned, the
    two cached buffers are empty, and a second [Backward] without a
    training-mode [Forward] in between -- on any gradient with at least one
    node and one frame -- reads outside the empty cache; so does a
    [Backward] on a [ReLU] that has never run [Forward]. (Outside binary
    mode.) *)
Theorem backward_consumes_cache {T : Type} `{!Scalar T} `{!@BinarizeOps T}
    (self s : t) (dy dx dy' : FrameBuffer T) :
  m_binary_mode self = false →
  GetType dy' = DataType_type → 0 < GetNodeSize dy' → 0 < GetFrameSize dy' →
  (Backward self dy = Done (s, dx) →
   m_x_buf s = FrameBuffer_empty ∧ m_y_buf s = FrameBuffer_empty
   ∧ Backward s dy' = Undefined)
  ∧ Backward Create dy' = Undefined.
Proof.
  intros Hmode Htype Hnodes Hframes.
  assert (Hempty : ∀ r : t, m_binary_mode r = false → m_y_buf r = FrameBuffer_empty →
            Backward r dy' = Undefined).
  { intros r Hr Hy. unfold Backward. rewrite Hr, Hy.
    replace (GetType dy' =? DataType_type) with true by (symmetry; by apply Z.eqb_eq).
    cbn [BB_ASSERT mbind outcome_bind]. unfold for_elements.
    rewrite mapM_first_undefined; [done|done|].
    by rewrite mapM_first_undefined. }
  split; [|by apply Hempty].
  intros Hrun. unfold Backward in Hrun. rewrite Hmode in Hrun.
  apply bind_Done in Hrun as (u & _ & Hrun).
  apply bind_Done in Hrun as (els & _ & [= <- <-]).
  split; [done|]. split; [done|]. by apply Hempty.
Qed.

Lemma backward_consumes_cache_witness :
  @Backward Z Z_scalar no_binarize Create (scalar_buffer 5) = Undefined.
Proof.
  exact (proj2 (@backward_consumes_cache Z Z_scalar no_binarize Create Create
                  (scalar_buffer 5) (scalar_buffer 5) (scalar_buffer 5)
                  eq_refl eq_refl eq_refl eq_refl)).
Defined.

End ReLUBulkProofs.

(** * Further properties of the composites *)

(** ** Serialisation round trips *)

Module SerialProofs.

Section StochasticLut.
Context `{Buffers} `{!CommandEnv}.
Context {Lut BatchNorm : Type} `{!Model Lut} `{!Model BatchNorm}.
Context {restored_lut : Lut → Lut → Prop} {restored_bn : BatchNorm → BatchNorm → Prop}.
Context `{!SerialLaws Lut restored_lut} `{!SerialLaws BatchNorm restored_bn}.

(** X13: [StochasticLut] passes the round trip of its children on. [Save]
    appends the bytes of the LUT child and then those of the
    batch-normalization child; [Load], called on any [StochasticLut], takes
    exactly the bytes that [Save] wrote from the stream and restores both
    children. The switch [m_bn_enable] is not part of the stream: the loaded
    object keeps the switch of the object [Load] was called on, whatever
    the saved object had. *)
Theorem stochastic_lut_round_trip (saved loader : @StochasticLut.t Lut BatchNorm)
    (os rest : list Byte.byte) :
  let loaded := StochasticLut.Load loader (StochasticLut.Save saved [] ++ rest) in
  StochasticLut.Save saved os = os ++ StochasticLut.Save saved []
  ∧ loaded.2 = rest
  ∧ restored_lut (StochasticLut.m_lut saved) (StochasticLut.m_lut loaded.1)
  ∧ restored_bn (StochasticLut.m_batch_norm saved) (StochasticLut.m_batch_norm loaded.1)
  ∧ StochasticLut.m_bn_enable loaded.1 = StochasticLut.m_bn_enable loader.
Proof.
  intros loaded. unfold StochasticLut.Save. split.
  - rewrite (save_appends (StochasticLut.m_batch_norm saved) (Save _ os)).
    rewrite (save_appends (StochasticLut.m_lut saved) os).
    rewrite (save_appends (StochasticLut.m_batch_norm saved) (Save _ [])).
    by rewrite (assoc_L (++)).
  - subst loaded. unfold StochasticLut.Save, StochasticLut.Load.
    rewrite (save_appends (StochasticLut.m_batch_norm saved) (Save _ [])).
    rewrite <- (assoc_L (++)).
    destruct (load_reads_saved (StochasticLut.m_lut saved) (StochasticLut.m_lut loader)
                (Save (StochasticLut.m_batch_norm saved) [] ++ rest)) as [Hrest Hlut].
    destruct (Load (StochasticLut.m_lut loader) _) as [lut rest1]. simpl in Hrest, Hlut.
    subst rest1.
    destruct (load_reads_saved (StochasticLut.m_batch_norm saved)
                (StochasticLut.m_batch_norm loader) rest) as [Hrest Hbn].
    destruct (Load (StochasticLut.m_batch_norm loader) _) as [bn rest2].
    simpl in Hrest, Hbn. by subst rest2.
Qed.

End StochasticLut.

Section SparseLutN.
Context `{Buffers} `{!CommandEnv}.
Context {Lut BatchNorm Activation : Type}.
Context `{!Model Lut} `{!Model BatchNorm} `{!Model Activation}.
Context `{!SparseLutN.Recompute Lut} `{!SparseLutN.Recompute BatchNorm}
        `{!SparseLutN.Recompute Activation}.
Context {restored_lut : Lut → Lut → Prop} {restored_bn : BatchNorm → BatchNorm → Prop}
        {restored_act : Activation → Activation → Prop}.
Context `{!SerialLaws Lut restored_lut} `{!SerialLaws BatchNorm restored_bn}
        `{!SerialLaws Activation restored_act}.

(** X14: [SparseLutN] passes the round trip of its children on. [Save]
    appends the bytes of the LUT, the batch-normalization and the activation
    child, in this order; [Load], called on any [SparseLutN], takes exactly
    these bytes from the stream and restores the three children. The
    memory-saving switch is not part of the stream: the loaded object keeps
    the switch of the object [Load] was called on. *)
Theorem sparse_lut_round_trip (saved loader : @SparseLutN.t Lut BatchNorm Activation)
    (os rest : list Byte.byte) :
  let loaded := SparseLutN.Load loader (SparseLutN.Save saved [] ++ rest) in
  SparseLutN.Save saved os = os ++ SparseLutN.Save saved []
  ∧ loaded.2 = rest
  ∧ restored_lut (SparseLutN.m_lut saved) (SparseLutN.m_lut loaded.1)
  ∧ restored_bn (SparseLutN.m_batch_norm saved) (SparseLutN.m_batch_norm loaded.1)
  ∧ restored_act (SparseLutN.m_activation saved) (SparseLutN.m_activation loaded.1)
  ∧ SparseLutN.m_memory_saving loaded.1 = SparseLutN.m_memory_saving loader.
Proof.
  intros loaded.
  assert (Hsave : ∀ os', SparseLutN.Save saved os'
            = os' ++ Save (SparseLutN.m_lut saved) []
                  ++ Save (SparseLutN.m_batch_norm saved) []
                  ++ Save (SparseLutN.m_activation saved) []).
  { intros os'. unfold SparseLutN.Save.
    rewrite (save_appends (SparseLutN.m_activation saved)).
    rewrite (save_appends (SparseLutN.m_batch_norm saved)).
    rewrite (save_appends (SparseLutN.m_lut saved)).
    by rewrite <- !(assoc_L (++)). }
  split.
  - rewrite (Hsave os), (Hsave []). done.
  - subst loaded. rewrite (Hsave []). unfold SparseLutN.Load. simpl.
    rewrite <- !(assoc_L (++)).
    destruct (load_reads_saved (SparseLutN.m_lut saved) (SparseLutN.m_lut loader)
                (Save (SparseLutN.m_batch_norm saved) []
                 ++ Save (SparseLutN.m_activation saved) [] ++ rest)) as [Hrest Hlut].
    destruct (Load (SparseLutN.m_lut loader) _) as [lut rest1]. simpl in Hrest, Hlut.
    subst rest1.
    destruct (load_reads_saved (SparseLutN.m_batch_norm saved)
                (SparseLutN.m_batch_norm loader)
                (Save (SparseLutN.m_activation saved) [] ++ rest)) as [Hrest Hbn].
    destruct (Load (SparseLutN.m_batch_norm loader) _) as [bn rest2].
    simpl in Hrest, Hbn. subst rest2.
    destruct (load_reads_saved (SparseLutN.m_activation saved)
                (SparseLutN.m_activation loader) rest) as [Hrest Hact].
    destruct (Load (SparseLutN.m_activation loader) _) as [act rest3].
    simpl in Hrest, Hact. by subst rest3.
Qed.

End SparseLutN.

(** The amplifier meets the contract: [Load] restores the byte that [Save]
    wrote. *)
Lemma byte_of_to_N (b : Byte.byte) : Demo.byte_of (Z.of_N (Byte.to_N b)) = b.
Proof. by destruct b. Qed.

#[local] Existing Instance Demo.buffers.

#[local] Instance amp_serial_laws : @SerialLaws Demo.buffers Demo.amp _ Demo.same_byte.
Proof.
  split.
  - done.
  - intros m m0 rest. split; [done|]. unfold Demo.same_byte. simpl. apply byte_of_to_N.
Qed.

Lemma stochastic_lut_round_trip_witness :
  StochasticLut.m_bn_enable
    (StochasticLut.Load
       {| StochasticLut.m_lut := Demo.amp_of 7;
          StochasticLut.m_batch_norm := Demo.amp_of 8;
          StochasticLut.m_bn_enable := false |}
       (StochasticLut.Save (StochasticLut.Create (Demo.amp_of 2) (Demo.amp_of 3)) []
        ++ [Byte.x2a])).1
  = false.
Proof.
  exact (proj2 (proj2 (proj2 (proj2
           (stochastic_lut_round_trip
              (restored_lut := Demo.same_byte) (restored_bn := Demo.same_byte)
              (StochasticLut.Create (Demo.amp_of 2) (Demo.amp_of 3))
              {| StochasticLut.m_lut := Demo.amp_of 7;
                 StochasticLut.m_batch_norm := Demo.amp_of 8;
                 StochasticLut.m_bn_enable := false |}
              [] [Byte.x2a]))))).
Defined.

Lemma sparse_lut_round_trip_witness :
  (SparseLutN.Load (SparseLutN.Create (Demo.amp_of 7) (Demo.amp_of 8) (Demo.amp_of 9))
     (SparseLutN.Save Demo.three_amps [] ++ [Byte.x2a])).2 = [Byte.x2a].
Proof.
  exact (proj1 (proj2
           (sparse_lut_round_trip
              (restored_lut := Demo.same_byte) (restored_bn := Demo.same_byte)
              (restored_act := Demo.same_byte) Demo.three_amps
              (SparseLutN.Create (Demo.amp_of 7) (Demo.amp_of 8) (Demo.amp_of 9))
              [] [Byte.x2a]))).
Defined.

End SerialProofs.

(** ** The mode of a [BinaryModulation] *)

Module ModulationProofs.

Section BinaryModulation.
Context `{Buffers} {ValueGenerator RealType : Type}.
Context {Inner : Type} `{!Model Inner}.
Context {ExpanderState ReducerState : Type}.
Context `{!@BinaryModulation.Converters _ ValueGenerator RealType ExpanderState ReducerState}.
Context `{!ConverterLaws}.

Local Abbreviation modulation :=
  (@BinaryModulation.t ValueGenerator RealType Inner ExpanderState ReducerState).
Local Abbreviation creation :=
  (@BinaryModulation.create_t ValueGenerator RealType Inner).

Lemma configured_Create (create : creation) :
  BinaryModulation.configured create true (BinaryModulation.Create create).
Proof. repeat split. Qed.

Lemma configured_switch (create : creation) (mode train : bool) (self : modulation) :
  BinaryModulation.configured create mode self →
  BinaryModulation.configured create train (BinaryModulation.switch train self).
Proof.
  intros (Hmode & Hsize & Hgen & Hred & Hfw & Hlo & Hhi & Hshape & Htc & Hic).
  unfold BinaryModulation.switch. rewrite Hmode.
  destruct train, mode; simpl; unfold BinaryModulation.configured; simpl;
    rewrite ?Htc, ?Hic; simpl; repeat split; done.
Qed.

Lemma configured_Forward (create : creation) (mode train : bool) (self : modulation)
    (x : FrameBuffer) :
  BinaryModulation.configured create mode self →
  BinaryModulation.configured create train (BinaryModulation.Forward self x train).1.
Proof.
  intros Hconf. apply (configured_switch create mode train) in Hconf.
  unfold BinaryModulation.Forward.
  set (s := BinaryModulation.switch train self) in *.
  pose proof (real2bin_Forward_param (BinaryModulation.m_real2bin s) x train) as Hr.
  destruct (BinaryModulation.real2bin_Forward _ x train) as [r x1]. simpl in Hr.
  destruct (Forward (BinaryModulation.m_layer s) x1 train) as [inner x2].
  pose proof (bin2real_Forward_param (BinaryModulation.m_bin2real s) x2 train) as Hb.
  destruct (BinaryModulation.bin2real_Forward _ x2 train) as [b x3]. simpl in Hb.
  unfold BinaryModulation.configured in *. simpl. by rewrite Hr, Hb.
Qed.

Lemma configured_Backward (create : creation) (mode : bool) (self : modulation)
    (dy : FrameBuffer) :
  BinaryModulation.configured create mode self →
  BinaryModulation.configured create mode (BinaryModulation.Backward self dy).1.
Proof.
  intros Hconf. unfold BinaryModulation.Backward.
  pose proof (bin2real_Backward_param (BinaryModulation.m_bin2real self) dy) as Hb.
  destruct (BinaryModulation.bin2real_Backward _ dy) as [b d1]. simpl in Hb.
  destruct (Backward (BinaryModulation.m_layer self) d1) as [inner d2].
  pose proof (real2bin_Backward_param (BinaryModulation.m_real2bin self) d2) as Hr.
  destruct (BinaryModulation.real2bin_Backward _ d2) as [r d3]. simpl in Hr.
  unfold BinaryModulation.configured in *. simpl. by rewrite Hr, Hb.
Qed.

(** X15: whatever sequence of [Forward] and [Backward] calls a new
    [BinaryModulation] goes through, afterwards [m_training] is the [train]
    argument of its last [Forward]; the modulation size of the expander and
    of the reducer and the value generator of the expander are the ones the
    creation parameters name for that mode; the framewise flag and the
    input range of the expander are the training ones in either mode; and
    the output shape of the reducer is the one given at creation. So after
    a [Forward] in training mode the expander is exactly as the constructor
    configured it, however often the object was switched to inference in
    between. (Given converters whose passes leave their parameters
    alone.) *)
Theorem modulation_follows_last_forward (create : creation)
    (passes : list BinaryModulation.pass) :
  BinaryModulation.configured create (BinaryModulation.last_mode passes)
    (BinaryModulation.run_passes passes (BinaryModulation.Create create))
  ∧ (BinaryModulation.last_mode passes = true →
     BinaryModulation.expander_matches
       (BinaryModulation.m_training_create (BinaryModulation.Create create))
       (BinaryModulation.run_passes passes (BinaryModulation.Create create))).
Proof.
  assert (Hconf : BinaryModulation.configured create (BinaryModulation.last_mode passes)
            (BinaryModulation.run_passes passes (BinaryModulation.Create create))).
  { unfold BinaryModulation.last_mode, BinaryModulation.run_passes.
    generalize (configured_Create create).
    generalize (BinaryModulation.Create create) true.
    induction passes as [|p passes IH]; intros self mode Hself; [done|].
    simpl. apply IH. destruct p as [x train|dy]; simpl.
    - by apply (configured_Forward create mode).
    - by apply configured_Backward. }
  split; [done|]. intros Hmode. rewrite Hmode in Hconf.
  destruct Hconf as (_ & Hsize & Hgen & _ & Hfw & Hlo & Hhi & _).
  unfold BinaryModulation.expander_matches.
  destruct (BinaryModulation.real2bin_param _). simpl in *. by subst.
Qed.

End BinaryModulation.

#[local] Instance demo_converter_laws : @ConverterLaws Demo.buffers Z Z Z Z Demo.converters.
Proof. by split. Qed.

Lemma modulation_follows_last_forward_witness :
  BinaryModulation.modulation_size
    (BinaryModulation.real2bin_param
       (BinaryModulation.m_real2bin
          (@BinaryModulation.run_passes Demo.buffers Z Z Demo.amp _ Z Z Demo.converters
             [BinaryModulation.pass_Forward (6 : @FrameBuffer Demo.buffers) true;
              BinaryModulation.pass_Forward (6 : @FrameBuffer Demo.buffers) false;
              BinaryModulation.pass_Backward (1 : @FrameBuffer Demo.buffers)]
             Demo.modulated)))
  = 7.
Proof.
  exact (proj1 (proj2 (proj1
           (@modulation_follows_last_forward Demo.buffers Z Z Demo.amp _ Z Z
              Demo.converters demo_converter_laws Demo.modulation
              [BinaryModulation.pass_Forward (6 : @FrameBuffer Demo.buffers) true;
               BinaryModulation.pass_Forward (6 : @FrameBuffer Demo.buffers) false;
               BinaryModulation.pass_Backward (1 : @FrameBuffer Demo.buffers)])))).
Defined.

End ModulationProofs.

(** ** Creation *)

Module CreationProofs.

Section StochasticLut.
Context `{Buffers} `{!CommandEnv}.
Context {Lut BatchNorm T : Type} `{!Model Lut} `{!Model BatchNorm}.
Variable N : Z.
Variable StochasticLutN_Create : Z → list Z → Lut.
Variable BatchNormalization_Create : @StochasticLut.bn_create_t T → BatchNorm.


End StochasticLut.

#[local] Existing Instance Demo.buffers.


Section SparseLutN.
Context {Lut BatchNorm Activation : Type}.
Variable StochasticLutN_Create : SparseLutN.create_t → Lut.
Variable batch_norm_new : BatchNorm.
Variable activation_new : Activation.


End SparseLutN.

End CreationProofs.

(** * Further properties of [Sequential] *)

Module SequentialFrameProofs.
Section Sequential.
Context `{Buffers} {Layer : Type} `{!Model Layer}.





End Sequential.


End SequentialFrameProofs.

(** * Properties of [NeuralNet] *)

Module NeuralNetProofs.
Import NeuralNet.

(** A loop over the indices of a vector, from [lo] on, is a fold over the
    elements from [lo] on. *)
Lemma for_range_elements {A St : Type} (l : list A) (f : A → St → St) (lo : Z) (s : St) :
  0 ≤ lo →
  for_range lo (Z.of_nat (length l)) (λ i s, a ← vec_at l i; Done (f a s)) s
  = Done (fold_left (λ s a, f a s) (drop (Z.to_nat lo) l) s).
Proof.
  intros Hlo. unfold for_range.
  remember (Z.to_nat (Z.of_nat (length l) - lo)) as n eqn:Hn.
  revert lo s Hlo Hn. induction n as [|n IH]; intros lo s Hlo Hn.
  - rewrite seqZ_nil by lia. by rewrite drop_ge by lia.
  - rewrite seqZ_cons by lia. cbn [for_each].
    destruct (lookup_lt_is_Some_2 l (Z.to_nat lo)) as [a Ha]; [lia|].
    rewrite (drop_S _ _ _ Ha). cbn [fold_left].
    replace lo with (Z.of_nat (Z.to_nat lo)) at 1 by lia.
    rewrite (vec_at_lookup _ _ _ Ha). cbn [mbind outcome_bind].
    replace (Z.pred (Z.of_nat (length l) - lo))
      with (Z.of_nat (length l) - Z.succ lo) by lia.
    rewrite (IH (Z.succ lo)) by lia.
    by replace (Z.to_nat (Z.succ lo)) with (S (Z.to_nat lo)) by lia.
Qed.

Section NeuralNet.
Context {World T : Type} `{!GroupOps World T}.

Lemma Forward_from (train : bool) (start_layer : Z) (self : t) :
  0 ≤ start_layer →
  Forward train start_layer self
  = Done (set_world
            (fold_left (λ w l, layer_Forward l train w)
                       (drop (Z.to_nat start_layer) (m_layers self)) (world self))
            self).
Proof.
  intros Hstart. unfold Forward. cbv zeta.
  by rewrite (for_range_elements (m_layers self) (λ l w, layer_Forward l train w)).
Qed.

(** X19: [Forward(train, start_layer)] returns, and runs exactly the layers
    from position [start_layer] on, in the order of [m_layers]; with
    [start_layer] at or beyond the number of layers it runs none and leaves
    the net as it is. Hence a pass from layer 0 is the same as running the
    first [k] layers and then a pass from layer [k]. *)
Theorem forward_from_start_layer (train : bool) (start_layer : Z) (self : t) :
  0 ≤ start_layer →
  Forward train start_layer self
  = Done (set_world
            (fold_left (λ w l, layer_Forward l train w)
                       (drop (Z.to_nat start_layer) (m_layers self)) (world self))
            self)
  ∧ (Z.of_nat (length (m_layers self)) ≤ start_layer →
     Forward train start_layer self = Done (set_world (world self) self))
  ∧ Forward train 0 self
    = Forward train start_layer
        (set_world
           (fold_left (λ w l, layer_Forward l train w)
                      (take (Z.to_nat start_layer) (m_layers self)) (world self))
           self).
Proof.
  intros Hstart. split; [by apply Forward_from|]. split.
  - intros Hlen. rewrite Forward_from by done. by rewrite drop_ge by lia.
  - rewrite !Forward_from by lia. cbn [m_layers world set_world]. f_equal.
    unfold set_world. cbn. f_equal.
    rewrite <- fold_left_app. by rewrite drop_0, take_drop.
Qed.

Section RunCalculation.
Variables (x y : list (list T)) (max_batch_size : Z).
Variables (accFunc lossFunc train : bool).

Local Abbreviation n := (batch_count x max_batch_size).
Local Abbreviation size := (x_size x).

Lemma batch_count_bounds :
  0 < max_batch_size →
  0 ≤ n ∧ size ≤ n * max_batch_size ∧ ∀ k, 0 ≤ k < n → k * max_batch_size < size.
Proof.
  intros Hmax. unfold batch_count.
  pose proof (Z.div_mod (size + max_batch_size - 1) max_batch_size ltac:(lia)) as Hdiv.
  pose proof (Z.mod_pos_bound (size + max_batch_size - 1) max_batch_size Hmax) as Hmod.
  assert (0 ≤ size) by (unfold x_size; lia).
  set (q := (size + max_batch_size - 1) `div` max_batch_size) in *.
  assert (0 ≤ q) by (apply Z.div_pos; lia).
  split; [done|]. split; [lia|]. intros k Hk.
  assert (k * max_batch_size ≤ (q - 1) * max_batch_size)
    by (apply Z.mul_le_mono_nonneg_r; lia).
  lia.
Qed.

(** The batch that starts at [k * max_batch_size]. *)
Lemma batch_size_at_clipped (k : Z) :
  0 < max_batch_size → size ≤ 2 ^ 63 → 0 ≤ k < n →
  batch_size_at x max_batch_size (k * max_batch_size)
  = Z.min max_batch_size (size - k * max_batch_size).
Proof.
  intros Hmax Hsize Hk. destruct (batch_count_bounds Hmax) as (_ & _ & Hlt).
  specialize (Hlt k Hk). unfold batch_size_at. fold size.
  assert (0 ≤ k * max_batch_size) by (apply Z.mul_nonneg_nonneg; lia).
  rewrite Z.mod_small; [done|]. split; [lia|].
  assert (2 ^ 63 < 2 ^ 64) by done. lia.
Qed.

Lemma batches_schedule (d : nat) :
  0 < max_batch_size < 2 ^ 64 → size ≤ 2 ^ 63 →
  ∀ (k : Z) (fuel : nat) (st : t * double),
    0 ≤ k ≤ n → Z.to_nat (n - k) = d → (d < fuel)%nat →
    batches x y max_batch_size accFunc lossFunc train fuel
            (k * max_batch_size) (Z.min (k * max_batch_size) size) st
    = for_range k n
        (λ j st, batch x y max_batch_size accFunc lossFunc train
                       (j * max_batch_size) (j * max_batch_size) st) st.
Proof.
  intros Hmax Hsize. destruct (batch_count_bounds (proj1 Hmax)) as (Hn & Hcover & Hlt).
  assert (H63 : 2 ^ 63 + 2 ^ 63 = 2 ^ 64) by done.
  induction d as [|d IH]; intros k fuel st Hk Hd Hfuel;
    (destruct fuel as [|fuel]; [lia|]); cbn [batches]; fold size.
  - assert (k = n) as -> by lia.
    destruct (Z.ltb_spec (n * max_batch_size) size); [lia|].
    unfold for_range. by rewrite seqZ_nil by lia.
  - specialize (Hlt k ltac:(lia)).
    assert (0 ≤ k * max_batch_size) by (apply Z.mul_nonneg_nonneg; lia).
    destruct (Z.ltb_spec (k * max_batch_size) size); [|lia].
    unfold for_range. rewrite seqZ_cons by lia. cbn [for_each].
    replace (Z.min (k * max_batch_size) size) with (k * max_batch_size) by lia.
    destruct (batch _ _ _ _ _ _ (k * max_batch_size) (k * max_batch_size) st)
      as [st'| | |]; cbn [mbind outcome_bind]; try done.
    rewrite batch_size_at_clipped by lia.
    assert (Hstep : (k * max_batch_size + max_batch_size) `mod` 2 ^ 64
                    = Z.succ k * max_batch_size).
    { rewrite Z.mod_small; [lia|]. split; [lia|].
      destruct (decide (k = 0)) as [->|Hk0]; [lia|].
      assert (1 * max_batch_size ≤ k * max_batch_size)
        by (apply Z.mul_le_mono_nonneg_r; lia).
      lia. }
    rewrite Hstep.
    replace (k * max_batch_size + Z.min max_batch_size (size - k * max_batch_size))
      with (Z.min (Z.succ k * max_batch_size) size) by lia.
    rewrite (IH (Z.succ k)) by lia.
    unfold for_range. by replace (n - Z.succ k) with (Z.pred (n - k)) by lia.
Qed.

(** X20: with a [max_batch_size] that is positive, [RunCalculation] takes
    the samples in [batch_count] consecutive batches and then ends: the
    loop with its running index is the counted loop in which batch [k]
    starts at sample [k * max_batch_size] and reads the targets from the
    same offset -- the iterator into [y] stays in step with the index into
    [x]; every batch but the last holds [max_batch_size] samples, the last
    one ends with the last sample, and no batch is empty. (For fewer than
    2^63 samples, as the index arithmetic is done in [size_t].) *)
Theorem batches_cover_the_samples (fuel : nat) (self : t) :
  0 < max_batch_size < 2 ^ 64 → size ≤ 2 ^ 63 → n < Z.of_nat fuel →
  RunCalculation x y max_batch_size accFunc lossFunc train fuel self
  = ('(self, accuracy) ←
       for_range 0 n
         (λ k st, batch x y max_batch_size accFunc lossFunc train
                        (k * max_batch_size) (k * max_batch_size) st)
         (self, double_zero);
     Done (self, double_div_index accuracy size))
  ∧ (∀ k, 0 ≤ k < n →
       1 ≤ batch_size_at x max_batch_size (k * max_batch_size) ≤ max_batch_size
       ∧ (k + 1 < n →
          batch_size_at x max_batch_size (k * max_batch_size) = max_batch_size)
       ∧ (k + 1 = n →
          k * max_batch_size + batch_size_at x max_batch_size (k * max_batch_size)
          = size)).
Proof.
  intros Hmax Hsize Hfuel.
  destruct (batch_count_bounds (proj1 Hmax)) as (Hn & Hcover & Hlt). split.
  - unfold RunCalculation.
    pose proof (batches_schedule (Z.to_nat n) Hmax Hsize 0 fuel (self, double_zero)
                  ltac:(lia) ltac:(f_equal; lia) ltac:(lia)) as Hrun.
    rewrite Z.mul_0_l in Hrun.
    replace (Z.min 0 size) with 0 in Hrun by (unfold x_size; lia).
    by rewrite Hrun.
  - intros k Hk. rewrite batch_size_at_clipped by lia.
    pose proof (Hlt k Hk). split; [lia|]. split.
    + intros Hnext. specialize (Hlt (k + 1) ltac:(lia)). lia.
    + intros Hlast. rewrite <- Hlast in Hcover. lia.
Qed.

(** X21: with [max_batch_size = 0] and at least one sample,
    [RunCalculation] never returns: every pass through the loop runs the
    net on an empty batch and leaves the index where it was, so whatever
    the iteration budget, the budget is used up. *)
Theorem zero_batch_size_never_returns (fuel : nat) (self : t) :
  max_batch_size = 0 → x ≠ [] →
  RunCalculation x y max_batch_size accFunc lossFunc train fuel self = OutOfFuel.
Proof.
  intros Hmax Hx. unfold RunCalculation.
  assert (Hsize : 0 < size) by (unfold x_size; destruct x; [done|simpl; lia]).
  assert (Hclip : batch_size_at x max_batch_size 0 = 0).
  { unfold batch_size_at. rewrite Hmax.
    pose proof (Z.mod_pos_bound (Z.of_nat (length x) - 0) (2 ^ 64) ltac:(done)). lia. }
  assert (Hbatch : ∀ st, ∃ st',
            batch x y max_batch_size accFunc lossFunc train 0 0 st = Done st').
  { intros [s accuracy]. unfold batch. cbv zeta. rewrite Hclip.
    destruct x as [|x0 rest]; [done|]. cbn [vec_at Z.ltb Z.compare Z.to_nat lookup
      list_lookup mbind outcome_bind].
    unfold for_range at 1. cbn [seqZ]. rewrite seqZ_nil by lia.
    cbn [for_each mbind outcome_bind]. rewrite Forward_from by lia.
    cbn [mbind outcome_bind]. eauto. }
  assert (Hloop : ∀ st, batches x y max_batch_size accFunc lossFunc train fuel 0 0 st
                        = OutOfFuel).
  { induction fuel as [|f IH]; intros st; cbn [batches]; [done|].
    fold size. destruct (Z.ltb_spec 0 size); [|lia].
    destruct (Hbatch st) as [st' ->]. cbn [mbind outcome_bind].
    rewrite Hclip.
    replace ((0 + max_batch_size) `mod` 2 ^ 64) with 0 by (by rewrite Hmax).
    apply IH. }
  by rewrite Hloop.
Qed.

End RunCalculation.

End NeuralNet.

Lemma forward_from_start_layer_witness :
  @Forward (list (list Z)) Z logging_group true 2 new_net = Done new_net.
Proof.
  exact (proj1 (proj2 (@forward_from_start_layer (list (list Z)) Z logging_group
                         true 2 new_net ltac:(lia))) ltac:(simpl; lia)).
Defined.

(** Five samples in batches of two: three batches, of two, two and one
    sample, and the targets are read from the offsets 0, 2 and 4. *)
Lemma batches_cover_the_samples_witness :
  @RunCalculation (list (list Z)) Z logging_group five_samples five_samples 2
     true false false 4 new_net
  = Done (@Build_t (list (list Z)) Z logging_group 1 tt tt tt tt [0; 1]%nat 0%nat 1%nat
            [[14]; [12; 13]; [10; 11]],
          [0; 2; 4]).
Proof.
  rewrite (proj1 (@batches_cover_the_samples (list (list Z)) Z logging_group
                    five_samples five_samples 2 true false false 4 new_net
                    ltac:(split; reflexivity) ltac:(discriminate) ltac:(reflexivity))).
  vm_compute. reflexivity.
Defined.

Lemma zero_batch_size_never_returns_witness :
  @RunCalculation (list (list Z)) Z logging_group five_samples five_samples 0
     true false false 30 new_net
  = OutOfFuel.
Proof.
  apply (@zero_batch_size_never_returns (list (list Z)) Z logging_group
           five_samples five_samples 0 true false false 30 new_net eq_refl).
  discriminate.
Defined.

End NeuralNetProofs.

(** * Shapes *)

Module ShapeProofs.

(** ** [Sequential] *)

Section Sequential.
Context {Layer : Type} `{!Shaped Layer} `{!ShapeLaws Layer}.

Lemma call_SetInputShape_other (l p : nat) (st : list Z * (nat → Layer)) :
  p ≠ l → (Sequential.call_SetInputShape l st).2 p = st.2 p.
Proof.
  intros Hne. unfold Sequential.call_SetInputShape.
  destruct (SetInputShape (st.2 l) st.1) as [l' shape]. simpl.
  by rewrite fn_lookup_insert_ne.
Qed.

Lemma fold_SetInputShape_other (layers : list nat) (p : nat)
    (st : list Z * (nat → Layer)) :
  p ∉ layers →
  (fold_left (λ st l, Sequential.call_SetInputShape l st) layers st).2 p = st.2 p.
Proof.
  revert st. induction layers as [|l layers IH]; intros st Hp; [done|].
  apply not_elem_of_cons in Hp as [Hne Hp]. simpl.
  rewrite IH by done. by apply call_SetInputShape_other.
Qed.

(** [chained] reads the layers of the list only. *)
Lemma chained_ext (h h' : nat → Layer) (layers : list nat) (shape out : list Z) :
  (∀ l, l ∈ layers → h' l = h l) →
  Sequential.chained h layers shape out → Sequential.chained h' layers shape out.
Proof.
  revert shape. induction layers as [|l layers IH]; intros shape Hext; [done|].
  simpl. rewrite (Hext l) by left. intros [Hin Hrest]. split; [done|].
  apply IH; [|done]. intros l' Hl'. apply Hext. by right.
Qed.

(** X22: [SetInputShape] of a [Sequential] whose layers are all different
    objects leaves the layers fitting together: the first one is configured
    for the shape given, each next one for the output shape of the one
    before it, and the shape returned is the output shape of the last one (the
    shape given, when there is no layer). (Given layers that report the
    shape they were configured for and the shape they returned.) *)
Theorem sequential_shapes_chain (self : Sequential.t) (shape : list Z)
    (h : nat → Layer) :
  NoDup (Sequential.m_layers self) →
  Sequential.chained (Sequential.SetInputShape self shape h).2
    (Sequential.m_layers self) shape (Sequential.SetInputShape self shape h).1.
Proof.
  unfold Sequential.SetInputShape. generalize (Sequential.m_layers self).
  intros layers. revert shape h.
  induction layers as [|l layers IH]; intros shape h Hnodup; [done|].
  apply NoDup_cons in Hnodup as [Hl Hnodup]. cbn [fold_left].
  unfold Sequential.call_SetInputShape at 2 4. cbn [fst snd].
  pose proof (input_shape_set (h l) shape) as Hin.
  pose proof (output_shape_set (h l) shape) as Hout.
  destruct (SetInputShape (h l) shape) as [l' shape'] eqn:Hset. cbn [fst snd] in *.
  cbn [Sequential.chained].
  rewrite (fold_SetInputShape_other layers l) by done. cbn [snd].
  rewrite fn_lookup_insert. split; [done|]. rewrite Hout. by apply IH.
Qed.

End Sequential.

(** The same layer added twice is configured twice, and keeps the shape of
    the second call: the layers no longer fit together. *)
Example repeated_layer_breaks_chain :
  let self := Sequential.Add 0 (Sequential.Add 0 Sequential.create) in
  let h := λ _ : nat, {| Demo.width := 4; Demo.dense_input := [] |} in
  (@Sequential.SetInputShape _ Demo.dense_shaped self [9] h).1 = [4]
  ∧ @GetInputShape _ Demo.dense_shaped
      ((@Sequential.SetInputShape _ Demo.dense_shaped self [9] h).2 0%nat) = [4].
Proof. by split. Qed.

#[local] Instance dense_shape_laws : @ShapeLaws Demo.dense Demo.dense_shaped.
Proof. by split. Qed.

#[local] Instance plain_shape_laws : @ShapeLaws (list Z) Demo.plain_shaped.
Proof. by split. Qed.

Lemma sequential_shapes_chain_witness :
  @Sequential.chained _ Demo.dense_shaped
    (@Sequential.SetInputShape _ Demo.dense_shaped
       (Sequential.Add 1 (Sequential.Add 0 Sequential.create)) [9]
       (λ l, {| Demo.width := Z.of_nat l + 4; Demo.dense_input := [] |})).2
    [0; 1]%nat [9] [5].
Proof.
  apply (@sequential_shapes_chain Demo.dense Demo.dense_shaped dense_shape_laws
           (Sequential.Add 1 (Sequential.Add 0 Sequential.create)) [9]
           (λ l, {| Demo.width := Z.of_nat l + 4; Demo.dense_input := [] |})).
  simpl. apply NoDup_cons. split.
  - intros Hin. apply elem_of_cons in Hin as [Hin|Hin]; [discriminate|].
    by apply elem_of_nil in Hin.
  - apply NoDup_singleton.
Defined.

(** ** The composites *)

Section StochasticLut.
Context {Lut BatchNorm : Type} `{!Shaped Lut} `{!Shaped BatchNorm} `{!ShapeLaws Lut}.

(** X23: after [SetInputShape] a [StochasticLut] reports the shape it was
    given as its input shape; as its output shape it reports the output
    shape of the LUT child, while [SetInputShape] returned what the
    batch-normalization child made of that shape. The two agree exactly
    when batch normalization puts out the shape it is given. (Given a LUT
    child that reports the shape it was configured for and the shape it
    returned.) *)
Theorem stochastic_lut_shapes (self : @StochasticLut.t Lut BatchNorm) (shape : list Z) :
  let lut_shape := (SetInputShape (StochasticLut.m_lut self) shape).2 in
  let bn_shape := (SetInputShape (StochasticLut.m_batch_norm self) lut_shape).2 in
  StochasticLut.GetInputShape (StochasticLut.SetInputShape self shape).1 = shape
  ∧ StochasticLut.GetOutputShape (StochasticLut.SetInputShape self shape).1 = lut_shape
  ∧ (StochasticLut.SetInputShape self shape).2 = bn_shape
  ∧ ((StochasticLut.SetInputShape self shape).2
     = StochasticLut.GetOutputShape (StochasticLut.SetInputShape self shape).1
     ↔ bn_shape = lut_shape).
Proof.
  intros lut_shape bn_shape. subst lut_shape bn_shape.
  unfold StochasticLut.SetInputShape, StochasticLut.GetInputShape,
    StochasticLut.GetOutputShape.
  pose proof (input_shape_set (StochasticLut.m_lut self) shape) as Hin.
  pose proof (output_shape_set (StochasticLut.m_lut self) shape) as Hout.
  destruct (SetInputShape (StochasticLut.m_lut self) shape) as [lut s1]. simpl in *.
  destruct (SetInputShape (StochasticLut.m_batch_norm self) s1) as [bn s2]. simpl.
  rewrite Hout. by repeat split.
Qed.

End StochasticLut.

Section SparseLutN.
Context {Lut BatchNorm Activation : Type}.
Context `{!Shaped Lut} `{!Shaped BatchNorm} `{!Shaped Activation}.
Context `{!ShapeLaws Lut} `{!ShapeLaws Activation}.

(** X24: after [SetInputShape] a [SparseLutN] reports the shape it was given
    as its input shape and the shape that [SetInputShape] returned as its
    output shape; the shape goes through the LUT, the batch-normalization
    and the activation child, in this order. (Given a LUT child and an
    activation child that report the shape they were configured for and the
    shape they returned.) *)
Theorem sparse_lut_shapes (self : @SparseLutN.t Lut BatchNorm Activation)
    (shape : list Z) :
  SparseLutN.GetInputShape (SparseLutN.SetInputShape self shape).1 = shape
  ∧ SparseLutN.GetOutputShape (SparseLutN.SetInputShape self shape).1
    = (SparseLutN.SetInputShape self shape).2
  ∧ (SparseLutN.SetInputShape self shape).2
    = (SetInputShape (SparseLutN.m_activation self)
         (SetInputShape (SparseLutN.m_batch_norm self)
            (SetInputShape (SparseLutN.m_lut self) shape).2).2).2.
Proof.
  unfold SparseLutN.SetInputShape, SparseLutN.GetInputShape, SparseLutN.GetOutputShape.
  pose proof (input_shape_set (SparseLutN.m_lut self) shape) as Hin.
  destruct (SetInputShape (SparseLutN.m_lut self) shape) as [lut s1]. simpl in *.
  destruct (SetInputShape (SparseLutN.m_batch_norm self) s1) as [bn s2]. simpl.
  pose proof (output_shape_set (SparseLutN.m_activation self) s2) as Hout.
  destruct (SetInputShape (SparseLutN.m_activation self) s2) as [act s3].
  by simpl in *.
Qed.

End SparseLutN.

Section BinaryModulation.
Context {ValueGenerator RealType Inner ExpanderState ReducerState : Type}.
Context `{!Shaped (@BinaryModulation.RealToBinary_t ValueGenerator RealType ExpanderState)}.
Context `{!Shaped Inner} `{!Shaped (@BinaryModulation.BinaryToReal_t ReducerState)}.
Context `{!ShapeLaws (@BinaryModulation.RealToBinary_t ValueGenerator RealType ExpanderState)}.
Context `{!ShapeLaws (@BinaryModulation.BinaryToReal_t ReducerState)}.

(** X25: after [SetInputShape] a [BinaryModulation] reports the shape it was
    given as its input shape and the shape that [SetInputShape] returned as
    its output shape; the shape goes through the expander, the inner layer
    and the reducer, in this order, and neither the mode nor the stored
    parameter sets change. (Given converters that report the shape they
    were configured for and the shape they returned.) *)
Theorem modulation_shapes
    (self : @BinaryModulation.t ValueGenerator RealType Inner ExpanderState ReducerState)
    (shape : list Z) :
  BinaryModulation.GetInputShape (BinaryModulation.SetInputShape self shape).1 = shape
  ∧ BinaryModulation.GetOutputShape (BinaryModulation.SetInputShape self shape).1
    = (BinaryModulation.SetInputShape self shape).2
  ∧ (BinaryModulation.SetInputShape self shape).2
    = (SetInputShape (BinaryModulation.m_bin2real self)
         (SetInputShape (BinaryModulation.m_layer self)
            (SetInputShape (BinaryModulation.m_real2bin self) shape).2).2).2
  ∧ BinaryModulation.m_training (BinaryModulation.SetInputShape self shape).1
    = BinaryModulation.m_training self.
Proof.
  unfold BinaryModulation.SetInputShape, BinaryModulation.GetInputShape,
    BinaryModulation.GetOutputShape.
  pose proof (input_shape_set (BinaryModulation.m_real2bin self) shape) as Hin.
  destruct (SetInputShape (BinaryModulation.m_real2bin self) shape) as [r s1].
  simpl in *.
  destruct (SetInputShape (BinaryModulation.m_layer self) s1) as [inner s2]. simpl.
  pose proof (output_shape_set (BinaryModulation.m_bin2real self) s2) as Hout.
  destruct (SetInputShape (BinaryModulation.m_bin2real self) s2) as [b s3].
  by simpl in *.
Qed.

End BinaryModulation.

#[local] Instance expander_shape_laws :
  @ShapeLaws (@BinaryModulation.RealToBinary_t Z Z (list Z)) Demo.expander_shaped.
Proof. by split. Qed.

#[local] Instance reducer_shape_laws :
  @ShapeLaws (@BinaryModulation.BinaryToReal_t (list Z)) Demo.reducer_shaped.
Proof. by split. Qed.

Lemma stochastic_lut_shapes_witness :
  @StochasticLut.GetOutputShape Demo.dense (list Z) Demo.dense_shaped
    (@StochasticLut.SetInputShape Demo.dense (list Z) Demo.dense_shaped Demo.plain_shaped
       {| StochasticLut.m_lut := {| Demo.width := 6; Demo.dense_input := [] |};
          StochasticLut.m_batch_norm := [];
          StochasticLut.m_bn_enable := true |} [28; 28]).1
  = [6].
Proof.
  exact (proj1 (proj2
           (@stochastic_lut_shapes Demo.dense (list Z) Demo.dense_shaped Demo.plain_shaped
              dense_shape_laws
              {| StochasticLut.m_lut := {| Demo.width := 6; Demo.dense_input := [] |};
                 StochasticLut.m_batch_norm := [];
                 StochasticLut.m_bn_enable := true |} [28; 28]))).
Defined.

(** With a second child that changes the shape, [SetInputShape] returns one
    shape and [GetOutputShape] reports another. *)
Example stochastic_lut_shapes_differ :
  let self : @StochasticLut.t Demo.dense Demo.dense :=
    {| StochasticLut.m_lut := {| Demo.width := 6; Demo.dense_input := [] |};
       StochasticLut.m_batch_norm := {| Demo.width := 4; Demo.dense_input := [] |};
       StochasticLut.m_bn_enable := true |} in
  (@StochasticLut.SetInputShape _ _ Demo.dense_shaped Demo.dense_shaped self [28; 28]).2
  = [4]
  ∧ @StochasticLut.GetOutputShape _ _ Demo.dense_shaped
      (@StochasticLut.SetInputShape _ _ Demo.dense_shaped Demo.dense_shaped
         self [28; 28]).1
    = [6].
Proof. by split. Qed.

Lemma sparse_lut_shapes_witness :
  @SparseLutN.GetOutputShape Demo.dense (list Z) (list Z) Demo.plain_shaped
    (@SparseLutN.SetInputShape Demo.dense (list Z) (list Z)
       Demo.dense_shaped Demo.plain_shaped Demo.plain_shaped
       {| SparseLutN.m_memory_saving := true;
          SparseLutN.m_lut := {| Demo.width := 6; Demo.dense_input := [] |};
          SparseLutN.m_batch_norm := []; SparseLutN.m_activation := [] |} [28; 28]).1
  = [6].
Proof.
  exact (proj1 (proj2
           (@sparse_lut_shapes Demo.dense (list Z) (list Z)
              Demo.dense_shaped Demo.plain_shaped Demo.plain_shaped
              dense_shape_laws plain_shape_laws
              {| SparseLutN.m_memory_saving := true;
                 SparseLutN.m_lut := {| Demo.width := 6; Demo.dense_input := [] |};
                 SparseLutN.m_batch_norm := []; SparseLutN.m_activation := [] |}
              [28; 28]))).
Defined.

Lemma modulation_shapes_witness :
  @BinaryModulation.GetOutputShape Z Z Demo.dense (list Z) (list Z) Demo.reducer_shaped
    (@BinaryModulation.SetInputShape Z Z Demo.dense (list Z) (list Z)
       Demo.expander_shaped Demo.dense_shaped Demo.reducer_shaped
       Demo.shaped_modulation [28; 28]).1
  = [10].
Proof.
  exact (proj1 (proj2
           (@modulation_shapes Z Z Demo.dense (list Z) (list Z)
              Demo.expander_shaped Demo.dense_shaped Demo.reducer_shaped
              expander_shape_laws reducer_shape_laws
              Demo.shaped_modulation [28; 28]))).
Defined.

End ShapeProofs.
